(** * Stock Analytics API (src/main.py): a shallow embedding and its properties

    The development follows the layout of [src/main.py]: the Yahoo throttle,
    [TTLCache], [RateLimiter], [SignalEngine], [WSManager], the cached
    fetchers, the signal and Fibonacci endpoints, the polling loop of the
    WebSocket endpoint, and the indicators of [TA] that need no square root
    (RSI, SMA, EMA, MACD, the stochastic oscillator and VWAP) over a
    cell-by-cell model of the pandas operations they use.

    Numbers.  Python floats are idealised as exact rationals ([Q]); a pandas
    cell that holds NaN or None ("no value") is [None] of an [option Q].
    Wall-clock time ([time.time()]) is a rational number of seconds.
    Python's [round(x, n)] is rounding to the nearest multiple of [10^-n],
    ties to even.

    The code computes in binary64, the model exactly: a value computed by
    the code can differ from the model's in its last places, and one that
    the model puts on a rounding boundary can round the other way in the
    code.  The distance of the Fibonacci levels from the retracement
    formula and the bounds of [TA.stochastic] and [TA.vwap] are therefore
    stated with room for that rounding. *)

From Stdlib Require Import ZArith QArith Qround Qabs Lqa Lia.
From Stdlib Require Import String Ascii DecimalString Sorted.
From stdpp Require Import gmap strings list fin_maps.

Local Open Scope Q_scope.

(* ===================================================================== *)
(** * Part I: the model                                                    *)
(* ===================================================================== *)

(** ** Python numbers *)

Module Py.

(** [a < b] on floats, as a boolean. *)
Definition ltb (a b : Q) : bool := negb (Qle_bool b a).

(** [a <= b] on floats, as a boolean. *)
Definition leb (a b : Q) : bool := Qle_bool a b.

(** Truthiness of a float: [bool(x)] is [x != 0]. *)
Definition truthy (x : Q) : bool := negb (Qeq_bool x 0).

(** The integer nearest to [s], ties to the even neighbour. *)
Definition round_half_even (s : Q) : Z :=
  let f := Qfloor s in
  match Qcompare (s - inject_Z f) (1 # 2) with
  | Lt => f
  | Gt => (f + 1)%Z
  | Eq => if Z.even f then f else (f + 1)%Z
  end.

(** [scaled x nd] is the integer [round(x * 10^nd)]. *)
Definition scaled (x : Q) (nd : nat) : Z :=
  round_half_even (x * inject_Z (10 ^ Z.of_nat nd)).

(** [round(x, nd)]. *)
Definition round (x : Q) (nd : nat) : Q :=
  Qred (Qmake (scaled x nd) (Z.to_pos (10 ^ Z.of_nat nd))).

(** The decimal digits of a natural number. *)
Definition digits (n : Z) : string := NilZero.string_of_uint (N.to_uint (Z.to_N n)).

(** [n] zeros. *)
Fixpoint zeros (n : nat) : string :=
  match n with
  | O => EmptyString
  | S k => String "0" (zeros k)
  end.

(** [s] left-padded with zeros to at least [width] characters. *)
Definition pad_left (width : nat) (s : string) : string :=
  (zeros (width - String.length s) +:+ s)%string.

(** [format(x, ".{nd}f")]: fixed-point notation with [nd >= 1] decimals. *)
Definition format_f (x : Q) (nd : nat) : string :=
  let n := Z.abs (scaled x nd) in
  let p := (10 ^ Z.of_nat nd)%Z in
  ((if ltb x 0 then "-" else "") +:+ digits (n / p) +:+ "." +:+
   pad_left nd (digits (n mod p)))%string.

(** [int(x)] on a finite float: truncation towards zero. *)
Definition trunc (x : Q) : Z := Z.quot (Qnum x) (Z.pos (Qden x)).

(** [needle in hay] on strings. *)
Fixpoint contains (needle hay : string) : bool :=
  String.prefix needle hay ||
  match hay with
  | EmptyString => false
  | String _ rest => contains needle rest
  end.

(** A float that may be NaN: [None] is NaN ("no value"). *)
Definition float := option Q.

(** Comparisons with a NaN operand are false. *)
Definition fge (a : float) (b : Q) : bool :=
  match a with Some x => leb b x | None => false end.

Definition fle (a : float) (b : Q) : bool :=
  match a with Some x => leb x b | None => false end.

Definition fgt (a : float) (b : Q) : bool :=
  match a with Some x => ltb b x | None => false end.

(** [bool(x)]: NaN is truthy, zero is the only falsy float. *)
Definition ftruthy (a : float) : bool :=
  match a with Some x => truthy x | None => true end.

(** [a - b], NaN propagating. *)
Definition fsub (a b : float) : float :=
  match a, b with Some x, Some y => Some (x - y) | _, _ => None end.

(** [a * b], NaN propagating. *)
Definition fmul (a b : float) : float :=
  match a, b with Some x, Some y => Some (x * y) | _, _ => None end.

(** [round(a, nd)]; [round(nan, nd)] is NaN. *)
Definition fround (a : float) (nd : nat) : float :=
  option_map (fun x => round x nd) a.

End Py.

(** ** The TTL cache (class [TTLCache]) *)

Module TTLCache.

Section Cache.

Context {V : Type}.

(** The object's state: [_store], from a key to [(expires_at, value)], and
    [_max]. *)
Record t := mk { _store : gmap string (Q * V); _max : nat }.

(** [TTLCache(max_size)]. *)
Definition init (max_size : nat) : t := mk ∅ max_size.

(** [get(key)], with [now] the reading of [time.time()].  The result is
    the returned value ([None] is Python's [None]) and the new state. *)
Definition get (c : t) (key : string) (now : Q) : option V * t :=
  match _store c !! key with
  | None => (None, c)
  | Some entry =>
      if Py.leb (fst entry) now
      then (None, mk (delete key (_store c)) (_max c))
      else (Some (snd entry), c)
  end.

(** The entries kept by the insert-time sweep: [v[0] > now]. *)
Definition live (now : Q) (v : Q * V) : bool := Py.ltb now (fst v).

(** [{k: v for k, v in self._store.items() if v[0] > now}] *)
Definition sweep (now : Q) (s : gmap string (Q * V)) : gmap string (Q * V) :=
  filter (fun kv => Is_true (live now (snd kv))) s.

(** [set(key, value, ttl)]; [now_sweep] and [now_insert] are the two
    readings of [time.time()] (the first one is taken only when the store
    is at capacity). *)
Definition set (c : t) (key : string) (value : V) (ttl : Q)
    (now_sweep now_insert : Q) : t :=
  let s := if Nat.leb (_max c) (size (_store c))
           then sweep now_sweep (_store c)
           else _store c in
  mk (<[key := (now_insert + ttl, value)]> s) (_max c).

(** The [size] property. *)
Definition size_of (c : t) : nat := size (_store c).

(** A use of the cache: a [get] or a [set], with the clock readings it
    makes. *)
Inductive op :=
| OpGet (key : string) (now : Q)
| OpSet (key : string) (value : V) (ttl : Q) (now_sweep now_insert : Q).

(** The cache after one use. *)
Definition step (c : t) (o : op) : t :=
  match o with
  | OpGet key now => snd (get c key now)
  | OpSet key value ttl now_sweep now_insert => set c key value ttl now_sweep now_insert
  end.

(** The cache after a sequence of uses, oldest first. *)
Definition run (ops : list op) (c : t) : t := fold_left step ops c.

(** The entry [(expires_at, value)] written by the most recent [set] under
    [key] in a sequence of uses, [acc] when there is none. *)
Definition latest_from (acc : option (Q * V)) (key : string) (ops : list op)
    : option (Q * V) :=
  fold_left (fun acc o =>
               match o with
               | OpSet k value ttl _ now_insert =>
                   if String.eqb k key then Some (now_insert + ttl, value) else acc
               | OpGet _ _ => acc
               end) ops acc.

Definition latest_set (key : string) (ops : list op) : option (Q * V) :=
  latest_from None key ops.

End Cache.

Arguments t : clear implicits.
Arguments op : clear implicits.

End TTLCache.

(** ** The per-client rate limiter (class [RateLimiter]) *)

Module RateLimiter.

(** The object's state: [_hits] (a [defaultdict(list)]), [_limit] and
    [_window]. *)
Record t := mk { _hits : gmap string (list Q); _limit : Z; _window : Q }.

(** [RateLimiter(limit, window)]; the defaults are 60 and 60. *)
Definition init (limit : Z) (window : Q) : t := mk ∅ limit window.

(** [[t for t in self._hits[client] if t > cutoff]]; reading a missing key
    of the [defaultdict] gives the empty list. *)
Definition recent (r : t) (client : string) (now : Q) : list Q :=
  let cutoff := now - _window r in
  List.filter (fun t => Py.ltb cutoff t) (default [] (_hits r !! client)).

(** [allow(client)], with [now] the reading of [time.time()]. *)
Definition allow (r : t) (client : string) (now : Q) : bool * t :=
  let kept := recent r client now in
  if (_limit r <=? Z.of_nat (length kept))%Z
  then (false, mk (<[client := kept]> (_hits r)) (_limit r) (_window r))
  else (true, mk (<[client := kept ++ [now]]> (_hits r)) (_limit r) (_window r)).

(** The answers of [allow] to one client calling at the given times, one
    call after the other. *)
Fixpoint calls (r : t) (client : string) (times : list Q) : list bool :=
  match times with
  | [] => []
  | now :: rest => fst (allow r client now) :: calls (snd (allow r client now)) client rest
  end.

(** The sliding-window rule in its own words: the answers to calls at the
    given times when a call is accepted exactly if fewer than [limit] of the
    calls accepted so far ([accepted], oldest first) are later than
    [now - window]; nothing is ever forgotten. *)
Fixpoint window_answers (limit : Z) (window : Q) (accepted : list Q) (times : list Q)
    : list bool :=
  match times with
  | [] => []
  | now :: rest =>
      if (limit <=? Z.of_nat (length (List.filter (fun u => Py.ltb (now - window) u)
                                                  accepted)))%Z
      then false :: window_answers limit window accepted rest
      else true :: window_answers limit window (accepted ++ [now]) rest
  end.

End RateLimiter.

(** ** Frames: OHLCV bars and enriched rows *)

(** One OHLCV bar as the upstream returns it; a cell may be NaN. *)
Record Bar := mkBar {
  Open : Py.float; High : Py.float; Low : Py.float; Close : Py.float;
  Volume : Py.float
}.

(** One row of an enriched frame: the bar and the indicator columns
    ([rsi_14], [macd], [macd_signal], [bb_upper], ...), by name. *)
Record Row := mkRow { bar : Bar; indicators : gmap string Py.float }.

(** [row.get(col)] for an indicator column: [None] when the column is
    missing, otherwise the cell. *)
Definition row_get (r : Row) (col : string) : option Py.float :=
  indicators r !! col.

(** [pd.notnull(v)] for [v] the result of [row.get]: false on [None] and on
    NaN. *)
Definition notnull (v : option Py.float) : bool :=
  match v with Some (Some _) => true | _ => false end.

(** ** The signal engine (class [SignalEngine]) *)

Module SignalEngine.

Inductive Judgment := BUY | SELL | NEUTRAL.

(** A signal dictionary; the Bollinger signals carry no ["value"]. *)
Record Signal := mkSignal {
  indicator : string;
  signal : Judgment;
  value : option Q;
  detail : string
}.

(** The local [safe(col)]: [float(v) if pd.notnull(v) else None]. *)
Definition safe (cur : Row) (col : string) : option Q :=
  match row_get cur col with Some (Some v) => Some v | _ => None end.

(** The [# RSI] block. *)
Definition rsi_rule (cur : Row) : list Signal :=
  match safe cur "rsi_14" with
  | None => []
  | Some rsi =>
      if Py.ltb rsi 30 then
        [mkSignal "RSI" BUY (Some (Py.round rsi 1))
           ("RSI " +:+ Py.format_f rsi 1 +:+ " — oversold")]
      else if Py.ltb 70 rsi then
        [mkSignal "RSI" SELL (Some (Py.round rsi 1))
           ("RSI " +:+ Py.format_f rsi 1 +:+ " — overbought")]
      else
        [mkSignal "RSI" NEUTRAL (Some (Py.round rsi 1))
           ("RSI " +:+ Py.format_f rsi 1 +:+ " — neutral")]
  end.

(** The [# MACD] block.  [m] and [ms_] come from [safe], [pm] and [ps]
    from [prev.get]; the block runs when all four pass [pd.notnull]. *)
Definition macd_rule (cur prev : Row) : list Signal :=
  match safe cur "macd", safe cur "macd_signal",
        row_get prev "macd", row_get prev "macd_signal" with
  | Some m, Some ms_, Some (Some pm), Some (Some ps) =>
      if Py.leb pm ps && Py.ltb ms_ m then
        [mkSignal "MACD" BUY (Some (Py.round m 4)) "Bullish crossover"]
      else if Py.leb ps pm && Py.ltb m ms_ then
        [mkSignal "MACD" SELL (Some (Py.round m 4)) "Bearish crossover"]
      else
        [mkSignal "MACD" (if Py.ltb ms_ m then BUY else SELL)
           (Some (Py.round m 4))
           ("MACD " +:+ (if Py.ltb ms_ m then "above" else "below") +:+ " signal")]
  | _, _, _, _ => []
  end.

(** The [# Bollinger] block.  Its guard is [if bbu and bbl], the
    truthiness of the two results of [safe]: [None] is falsy, and so is the
    float [0.0]. *)
Definition bollinger_rule (cur : Row) : list Signal :=
  let price := Close (bar cur) in
  match safe cur "bb_upper", safe cur "bb_lower" with
  | Some bbu, Some bbl =>
      if Py.truthy bbu && Py.truthy bbl then
        if Py.fge price bbu then
          [mkSignal "Bollinger" SELL None "Price at upper band"]
        else if Py.fle price bbl then
          [mkSignal "Bollinger" BUY None "Price at lower band"]
        else
          [mkSignal "Bollinger" NEUTRAL None "Price inside bands"]
      else []
  | _, _ => []
  end.

(** The [# Stochastic] block. *)
Definition stochastic_rule (cur : Row) : list Signal :=
  match safe cur "stoch_k" with
  | None => []
  | Some sk =>
      if Py.ltb sk 20 then
        [mkSignal "Stochastic" BUY (Some (Py.round sk 1))
           ("%K " +:+ Py.format_f sk 1 +:+ " — oversold")]
      else if Py.ltb 80 sk then
        [mkSignal "Stochastic" SELL (Some (Py.round sk 1))
           ("%K " +:+ Py.format_f sk 1 +:+ " — overbought")]
      else
        [mkSignal "Stochastic" NEUTRAL (Some (Py.round sk 1))
           ("%K " +:+ Py.format_f sk 1)]
  end.

(** The [# VWAP] block; its guard is [if vw], falsy on [None] and on
    [0.0]. *)
Definition vwap_rule (cur : Row) : list Signal :=
  let price := Close (bar cur) in
  match safe cur "vwap" with
  | Some vw =>
      if Py.truthy vw then
        [mkSignal "VWAP" (if Py.fgt price vw then BUY else SELL)
           (Some (Py.round vw 2))
           ("Price " +:+ (if Py.fgt price vw then "above" else "below") +:+ " VWAP")]
      else []
  | None => []
  end.

(** [SignalEngine.evaluate(df)]: [cur] is [df.iloc[-1]] and [prev] is
    [df.iloc[-2]]. *)
Definition evaluate (df : list Row) : list Signal :=
  if Nat.ltb (length df) 2 then []
  else
    match rev df with
    | cur :: prev :: _ =>
        rsi_rule cur ++ macd_rule cur prev ++ bollinger_rule cur ++
        stochastic_rule cur ++ vwap_rule cur
    | _ => []
    end.

(** The signals of one indicator in a list of signals. *)
Definition of_indicator (name : string) (sigs : list Signal) : list Signal :=
  List.filter (fun s => String.eqb (indicator s) name) sigs.

End SignalEngine.

(** ** The WebSocket manager (class [WSManager]) *)

Module WSManager.

(** A connection object; two connections are the same object exactly when
    their identities are equal. *)
Abbreviation WebSocket := nat.

(** [self._pool]: ticker to the list of its subscribers.  The pool is a
    [defaultdict(list)]: indexing a missing ticker creates an empty list,
    [.get] and [in] do not. *)
Abbreviation Pool := (gmap string (list nat)).

(** [self._pool.get(ticker, [])] *)
Definition pool_get (pool : Pool) (ticker : string) : list WebSocket :=
  default [] (pool !! ticker).

(** [x in l] *)
Definition mem (ws : WebSocket) (l : list WebSocket) : bool :=
  bool_decide (ws ∈ l).

(** [l.remove(x)]: drops the first occurrence of [x] (the callers test
    membership first, so the [ValueError] of a missing [x] never arises). *)
Fixpoint list_remove_first (ws : WebSocket) (l : list WebSocket) : list WebSocket :=
  match l with
  | [] => []
  | x :: r => if Nat.eqb x ws then r else x :: list_remove_first ws r
  end.

(** [connect(ticker, ws)] after [ws.accept()]:
    [self._pool[ticker].append(ws)]. *)
Definition connect (pool : Pool) (ticker : string) (ws : WebSocket) : Pool :=
  <[ticker := pool_get pool ticker ++ [ws]]> pool.

(** The body of the removal loops:
    [if ws in self._pool.get(ticker, []): self._pool[ticker].remove(ws)]. *)
Definition remove_if_present (ticker : string) (pool : Pool) (ws : WebSocket) : Pool :=
  if mem ws (pool_get pool ticker)
  then <[ticker := list_remove_first ws (pool_get pool ticker)]> pool
  else pool.

(** [disconnect(ticker, ws)] *)
Definition disconnect (pool : Pool) (ticker : string) (ws : WebSocket) : Pool :=
  let pool1 := remove_if_present ticker pool ws in
  match pool1 !! ticker with
  | Some [] => delete ticker pool1
  | _ => pool1
  end.

(** The first loop of [broadcast]: the connections, in order, whose
    [send_json] raised.  [raises i] tells whether the [i]-th send of this
    broadcast raises; [i] counts from [from]. *)
Fixpoint dead_of (raises : nat -> bool) (from : nat) (l : list WebSocket) : list WebSocket :=
  match l with
  | [] => []
  | ws :: r =>
      if raises from then ws :: dead_of raises (S from) r
      else dead_of raises (S from) r
  end.

(** [broadcast(ticker, payload)]: the pool after both loops.  The payload
    only travels to [send_json], whose outcomes are [raises]. *)
Definition broadcast (raises : nat -> bool) (pool : Pool) (ticker : string) : Pool :=
  let dead := dead_of raises 0 (pool_get pool ticker) in
  fold_left (remove_if_present ticker) dead pool.

(** What the second loop of [broadcast] does to the subscriber list [l]:
    for each [ws] of [dead], in order, [if ws in l: l.remove(ws)]. *)
Definition remove_all (l dead : list WebSocket) : list WebSocket :=
  fold_left (fun l ws => if mem ws l then list_remove_first ws l else l) dead l.

(** The [count] property: [sum(len(v) for v in self._pool.values())]. *)
Definition count (pool : Pool) : nat :=
  map_fold (fun _ v acc => (length v + acc)%nat) 0%nat pool.

End WSManager.

(** ** The world of the fetchers: clock, throttle, cache and upstream *)

(** The exceptions that travel through the fetchers. *)
Inductive exn :=
| HTTPException (status : Z) (detail : string)
| UpstreamError (msg : string)
| ValueError (msg : string)
| TypeError (msg : string)
| ZeroDivisionError (msg : string).

(** [str(e)] *)
Definition str (e : exn) : string :=
  match e with
  | HTTPException _ d => d
  | UpstreamError m => m
  | ValueError m => m
  | TypeError m => m
  | ZeroDivisionError m => m
  end.

Inductive Result (A : Type) :=
| Ok (a : A)
| Raise (e : exn).

Arguments Ok {A} a.
Arguments Raise {A} e.

(** The quote dictionary built by [fetch_quote_data]. *)
Record Quote := mkQuote {
  q_ticker : string;
  q_price : Py.float;
  q_change : Py.float;
  q_change_percent : Py.float;
  q_open : Py.float;
  q_high : Py.float;
  q_low : Py.float;
  q_prev_close : Py.float;
  q_volume : Z;
  q_market_cap : option Q;
  q_pe_ratio : option Q;
  q_week_52_high : option Q;
  q_week_52_low : option Q;
  q_timestamp : string
}.

(** What the module-level [cache] holds: enriched frames under the [df:]
    keys and quote dictionaries under the [quote:] keys. *)
Inductive pyobj :=
| Frame (df : list Row)
| QuoteDict (q : Quote).

(** What one call of [yf.Ticker(t).history(...)] does: it takes [took]
    seconds and returns a frame or raises an exception with the given
    message. *)
Record Response := mkResponse { took : Q; outcome : string + list Bar }.

(** What one read of [yf.Ticker(t).info] does; [None] is a raised
    exception. *)
Record InfoResponse := mkInfo { info_took : Q; info_outcome : option (gmap string Q) }.

(** Everything the program does not decide: the time that passes before
    each clock reading, the upstream's answers (by the number of upstream
    calls made before), and the text of a timestamp. *)
Record Env := mkEnv {
  lag : nat -> Q;
  history : nat -> string -> string -> option string -> Response;
  info : nat -> string -> InfoResponse;
  isoformat : Q -> string
}.

(** The observable events of a run (newest first in a trace). *)
Inductive event :=
| Acquired (t : Q)
| CallStart (t : Q)
| CallEnd (t : Q)
| Slept (d : Q).

(** The process state: the wall clock, the module globals
    [_last_yahoo_call] and [cache], how many clock readings and upstream
    calls were made, and the trace of events. *)
Record World := mkWorld {
  clock : Q;
  _last_yahoo_call : Q;
  cache : TTLCache.t pyobj;
  nreads : nat;
  ncalls : nat;
  trace : list event
}.

(** The state at import time: [_last_yahoo_call = 0.0], [cache = TTLCache()]. *)
Definition boot (t0 : Q) : World :=
  mkWorld t0 0 (TTLCache.init 300) 0 0 [].

(** Computations over the world that return or raise. *)
Definition M (A : Type) : Type := World -> Result A * World.

#[global] Instance M_ret : MRet M := fun A a w => (Ok a, w).

#[global] Instance M_bind : MBind M := fun A B k m w =>
  match m w with
  | (Ok a, w1) => k a w1
  | (Raise e, w1) => (Raise e, w1)
  end.

(** [raise e] *)
Definition raise {A : Type} (e : exn) : M A := fun w => (Raise e, w).

(** [try: m except Exception as e: h(e)] *)
Definition try_except {A : Type} (m : M A) (h : exn -> M A) : M A := fun w =>
  match m w with
  | (Ok a, w1) => (Ok a, w1)
  | (Raise e, w1) => h e w1
  end.

(** [YAHOO_MIN_GAP = 2.0] *)
Definition YAHOO_MIN_GAP : Q := 2.

Module Fetcher.

Section WithEnv.

Variable env : Env.

(** [TA.enrich]: the indicator pipeline.  Only the fact that it maps a frame
    of bars to an enriched frame matters to the fetchers. *)
Variable enrich : list Bar -> list Row.

(** Reading and writing the module globals. *)
Definition get_world : M World := fun w => (Ok w, w).

Definition put_cache (c : TTLCache.t pyobj) : M unit := fun w =>
  (Ok tt, mkWorld (clock w) (_last_yahoo_call w) c (nreads w) (ncalls w) (trace w)).

(** [time.time()]: some time passes, then the clock is read. *)
Definition time_time : M Q := fun w =>
  let t := clock w + lag env (nreads w) in
  (Ok t, mkWorld t (_last_yahoo_call w) (cache w) (S (nreads w)) (ncalls w) (trace w)).

(** [time.sleep(d)] *)
Definition time_sleep (d : Q) : M unit := fun w =>
  (Ok tt, mkWorld (clock w + d) (_last_yahoo_call w) (cache w) (nreads w) (ncalls w)
            (Slept d :: trace w)).

(** The assignment [_last_yahoo_call = t]. *)
Definition set_last_yahoo_call (t : Q) : M unit := fun w =>
  (Ok tt, mkWorld (clock w) t (cache w) (nreads w) (ncalls w) (Acquired t :: trace w)).

(** [yahoo_throttle()] *)
Definition yahoo_throttle : M unit :=
  now ← time_time;
  w ← get_world;
  let wait := YAHOO_MIN_GAP - (now - _last_yahoo_call w) in
  (if Py.ltb 0 wait then time_sleep wait else mret tt) ;;
  t ← time_time;
  set_last_yahoo_call t.

(** [yf.Ticker(ticker).history(period=..., interval=...)] *)
Definition yf_history (ticker period : string) (interval : option string) : M (list Bar) :=
  fun w =>
  let r := history env (ncalls w) ticker period interval in
  let w1 := mkWorld (clock w + took r) (_last_yahoo_call w) (cache w) (nreads w)
              (S (ncalls w)) (CallEnd (clock w + took r) :: CallStart (clock w) :: trace w) in
  match outcome r with
  | inl msg => (Raise (UpstreamError msg), w1)
  | inr rows => (Ok rows, w1)
  end.

(** [info = stock.info or {}] inside [try ... except Exception: pass]. *)
Definition yf_info (ticker : string) : M (gmap string Q) := fun w =>
  let r := info env (ncalls w) ticker in
  let w1 := mkWorld (clock w + info_took r) (_last_yahoo_call w) (cache w) (nreads w)
              (S (ncalls w)) (CallEnd (clock w + info_took r) :: CallStart (clock w) :: trace w) in
  (Ok (default ∅ (info_outcome r)), w1).

(** [safe_history(ticker, period=..., interval=...)] *)
Definition safe_history (ticker period : string) (interval : option string) : M (list Bar) :=
  yahoo_throttle ;;
  try_except (yf_history ticker period interval)
    (fun e =>
       if Py.contains "Too Many Requests" (str e) || Py.contains "Rate" (str e)
       then time_sleep 30 ;; yf_history ticker period interval
       else raise e).

(** [cache.get(key)]; the clock is read only when the key is present. *)
Definition cache_get (key : string) : M (option pyobj) :=
  w ← get_world;
  match TTLCache._store (cache w) !! key with
  | None => mret None
  | Some _ =>
      now ← time_time;
      w1 ← get_world;
      put_cache (snd (TTLCache.get (cache w1) key now)) ;;
      mret (fst (TTLCache.get (cache w1) key now))
  end.

(** [cache.set(key, value, ttl)]; the clock is read once more when the
    store is at capacity. *)
Definition cache_set (key : string) (value : pyobj) (ttl : Q) : M unit :=
  w ← get_world;
  now_sweep ← (if Nat.leb (TTLCache._max (cache w)) (size (TTLCache._store (cache w)))
               then time_time else mret 0);
  now_insert ← time_time;
  w1 ← get_world;
  put_cache (TTLCache.set (cache w1) key value ttl now_sweep now_insert).

(** [x in (a, b)] on strings. *)
Definition among (x : string) (l : list string) : bool :=
  existsb (String.eqb x) l.

(** [fetch_enriched(ticker, period, interval)] *)
Definition fetch_enriched (ticker period interval : string) : M pyobj :=
  let key := ("df:" +:+ ticker +:+ ":" +:+ period +:+ ":" +:+ interval)%string in
  hit ← cache_get key;
  match hit with
  | Some v => mret v
  | None =>
      df ← safe_history ticker period (Some interval);
      match df with
      | [] => raise (HTTPException 404 ("No data for " +:+ ticker))
      | _ :: _ =>
          let df := enrich df in
          let ttl := if among interval ["1m"; "5m"] then 30
                     else if among interval ["15m"; "30m"] then 90 else 180 in
          cache_set key (Frame df) ttl ;;
          mret (Frame df)
      end
  end.

(** [a / b] on floats: a zero divisor raises, NaN propagates. *)
Definition fdiv (a b : Py.float) : M Py.float :=
  match b with
  | Some y =>
      if Qeq_bool y 0 then raise (ZeroDivisionError "float division by zero")
      else mret (match a with Some x => Some (x / y) | None => None end)
  | None => mret None
  end.

(** [int(x)] on a float: truncation, and [ValueError] on NaN. *)
Definition int_of_float (x : Py.float) : M Z :=
  match x with
  | Some v => mret (Py.trunc v)
  | None => raise (ValueError "cannot convert float NaN to integer")
  end.

(** The locals [prev_close], [price], [change] and [pct] of
    [fetch_quote_data]. *)
Record QuoteLocals := mkQuoteLocals {
  prev_close : Py.float;
  price : Py.float;
  change : Py.float;
  pct : Py.float
}.

(** The lines of [fetch_quote_data] from [last_row = hist.iloc[-1]] to
    [pct = ...], for a history whose last row is [last_row] and whose earlier
    rows, newest first, are [before]. *)
Definition quote_locals (last_row : Bar) (before : list Bar) : M QuoteLocals :=
  let prev_close :=
    match before with
    | prev_row :: _ => Close prev_row
    | [] => Some 0
    end in
  let price := Close last_row in
  let change := Py.fsub price prev_close in
  pct ← (if Py.ftruthy prev_close
         then (r ← fdiv change prev_close; mret (Py.fmul r (Some 100)))
         else mret (Some 0));
  mret (mkQuoteLocals prev_close price change pct).

(** [fetch_quote_data(ticker)] *)
Definition fetch_quote_data (ticker : string) : M pyobj :=
  let key := ("quote:" +:+ ticker)%string in
  hit ← cache_get key;
  match hit with
  | Some v => mret v
  | None =>
      yahoo_throttle ;;
      hist ← yf_history ticker "5d" None;
      match rev hist with
      | [] => raise (HTTPException 404 ("No data for " +:+ ticker))
      | last_row :: before =>
          l ← quote_locals last_row before;
          info ← yf_info ticker;
          volume ← int_of_float (Volume last_row);
          now ← time_time;
          let result := mkQuote ticker
                (Py.fround (price l) 2) (Py.fround (change l) 2) (Py.fround (pct l) 2)
                (Py.fround (Open last_row) 2) (Py.fround (High last_row) 2)
                (Py.fround (Low last_row) 2) (Py.fround (prev_close l) 2)
                volume
                (info !! "marketCap") (info !! "trailingPE")
                (info !! "fiftyTwoWeekHigh") (info !! "fiftyTwoWeekLow")
                (isoformat env now) in
          cache_set key (QuoteDict result) 60 ;;
          mret (QuoteDict result)
      end
  end.

End WithEnv.

(** The time to live that [fetch_enriched] gives a frame:
    [30 if interval in ("1m", "5m") else 90 if interval in ("15m", "30m")
    else 180]. *)
Definition enriched_ttl (interval : string) : Q :=
  if among interval ["1m"; "5m"] then 30
  else if among interval ["15m"; "30m"] then 90 else 180.

(** The cache key of [fetch_enriched]: [f"df:{ticker}:{period}:{interval}"]. *)
Definition enriched_key (ticker period interval : string) : string :=
  ("df:" +:+ ticker +:+ ":" +:+ period +:+ ":" +:+ interval)%string.

End Fetcher.

(** ** The signal and Fibonacci endpoints *)

Module Endpoints.

Import SignalEngine.

(** [sum(1 for s in sigs if s["signal"] == j)] *)
Definition count_signal (j : Judgment) (sigs : list Signal) : nat :=
  length (List.filter
            (fun s => match signal s, j with
                      | BUY, BUY | SELL, SELL | NEUTRAL, NEUTRAL => true
                      | _, _ => false
                      end) sigs).

(** ["BUY" if buys > sells else "SELL" if sells > buys else "NEUTRAL"] *)
Definition overall_of (buys sells : nat) : Judgment :=
  if Nat.ltb sells buys then BUY
  else if Nat.ltb buys sells then SELL
  else NEUTRAL.

(** The aggregate judgment of [get_signals] over the emitted signals. *)
Definition overall (sigs : list Signal) : Judgment :=
  overall_of (count_signal BUY sigs) (count_signal SELL sigs).

(** The body returned by [get_signals]. *)
Record SignalsBody := mkSignalsBody {
  s_ticker : string;
  s_timestamp : string;
  s_overall : Judgment;
  s_buy_count : nat;
  s_sell_count : nat;
  s_neutral_count : nat;
  s_signals : list Signal
}.

(** [Series.max()] and [Series.min()]: NaN cells are skipped, and a column
    with no value at all gives NaN. *)
Definition col_max (col : list Py.float) : Py.float :=
  fold_left (fun acc c =>
               match acc, c with
               | Some a, Some x => Some (if Py.ltb a x then x else a)
               | None, _ => c
               | _, None => acc
               end) col None.

Definition col_min (col : list Py.float) : Py.float :=
  fold_left (fun acc c =>
               match acc, c with
               | Some a, Some x => Some (if Py.ltb x a then x else a)
               | None, _ => c
               | _, None => acc
               end) col None.

(** The ["levels"] dictionary of [get_fibonacci], in insertion order, from
    [hi] and [lo].  The ratios, the product and the differences are exact
    here and binary64 in the code, whose level can therefore be the
    neighbouring hundredth: for a high of 100 and a low of 92.5 the code
    rounds 94.105000000000004 to 94.11 where the exact 94.105 rounds to
    94.1. *)
Definition fibonacci_levels (hi lo : Py.float) : list (string * Py.float) :=
  let diff := Py.fsub hi lo in
  [ ("0.0%", Py.fround hi 2);
    ("23.6%", Py.fround (Py.fsub hi (Py.fmul (Some 0.236) diff)) 2);
    ("38.2%", Py.fround (Py.fsub hi (Py.fmul (Some 0.382) diff)) 2);
    ("50.0%", Py.fround (Py.fsub hi (Py.fmul (Some 0.500) diff)) 2);
    ("61.8%", Py.fround (Py.fsub hi (Py.fmul (Some 0.618) diff)) 2);
    ("78.6%", Py.fround (Py.fsub hi (Py.fmul (Some 0.786) diff)) 2);
    ("100.0%", Py.fround lo 2) ]%string.

(** The retracement formula [high - p * (high - low)] at the seven ratios,
    before any rounding. *)
Definition formula_levels (hi lo : Q) : list (string * Q) :=
  [ ("0.0%", hi - 0 * (hi - lo));
    ("23.6%", hi - 0.236 * (hi - lo));
    ("38.2%", hi - 0.382 * (hi - lo));
    ("50.0%", hi - 0.5 * (hi - lo));
    ("61.8%", hi - 0.618 * (hi - lo));
    ("78.6%", hi - 0.786 * (hi - lo));
    ("100.0%", hi - 1 * (hi - lo)) ]%string.

(** A levels dictionary that has the given keys, in order, each with a
    number equal to the given one. *)
Definition same_levels (got : list (string * Py.float)) (want : list (string * Q)) : Prop :=
  Forall2 (fun g w => fst g = fst w /\ exists x, snd g = Some x /\ x == snd w) got want.


(** The levels computed from a frame: [hi = df["High"].max()],
    [lo = df["Low"].min()]. *)
Definition fibonacci_of_frame (df : list Row) : list (string * Py.float) :=
  fibonacci_levels (col_max (map (fun r => High (bar r)) df))
                   (col_min (map (fun r => Low (bar r)) df)).

(** The body returned by [get_fibonacci]. *)
Record FibonacciBody := mkFibonacciBody {
  f_ticker : string;
  f_period : string;
  f_levels : list (string * Py.float)
}.

(** A string of ASCII characters. *)
Definition is_ascii (s : string) : bool :=
  forallb (fun c => Nat.ltb (nat_of_ascii c) 128) (list_ascii_of_string s).

(** [c.upper()] on one ASCII character. *)
Definition upper_ascii (c : ascii) : ascii :=
  let n := nat_of_ascii c in
  if Nat.leb 97 n && Nat.leb n 122 then ascii_of_nat (n - 32) else c.

(** [s.upper()] on a string of ASCII characters.  On other characters
    [str.upper()] follows the Unicode case mapping (it turns "straße" into
    "STRASSE"), which is not modelled; [is_ascii] marks the strings on which
    the two agree. *)
Fixpoint upper (s : string) : string :=
  match s with
  | EmptyString => EmptyString
  | String c r => String (upper_ascii c) (upper r)
  end.

Section WithEnv.

Variable env : Env.
Variable enrich : list Bar -> list Row.

(** [except HTTPException: raise] followed by
    [except Exception as e: raise HTTPException(500, str(e))]. *)
Definition http_guard {A : Type} (m : M A) : M A :=
  try_except m
    (fun e => match e with
              | HTTPException _ _ => raise e
              | _ => raise (HTTPException 500 (str e))
              end).

(** The use of a cached object as a frame; under the [df:] keys the cache
    only ever holds frames, any other object would fail the frame
    operations. *)
Definition as_frame (v : pyobj) : M (list Row) :=
  match v with
  | Frame df => mret df
  | QuoteDict _ => raise (TypeError "not a frame")
  end.

(** [get_signals(ticker, period, interval)] *)
Definition get_signals (ticker period interval : string) : M SignalsBody :=
  let ticker := upper ticker in
  http_guard
    (v ← Fetcher.fetch_enriched env enrich ticker period interval;
     df ← as_frame v;
     let sigs := evaluate df in
     let buys := count_signal BUY sigs in
     let sells := count_signal SELL sigs in
     let neutrals := count_signal NEUTRAL sigs in
     let overall := overall_of buys sells in
     now ← Fetcher.time_time env;
     mret (mkSignalsBody ticker (isoformat env now) overall buys sells neutrals sigs)).

(** [get_fibonacci(ticker, period)] *)
Definition get_fibonacci (ticker period : string) : M FibonacciBody :=
  let ticker := upper ticker in
  http_guard
    (v ← Fetcher.fetch_enriched env enrich ticker period "1d";
     df ← as_frame v;
     mret (mkFibonacciBody ticker period (fibonacci_of_frame df))).

End WithEnv.

End Endpoints.

(** ** Sequential runs of the server *)

Module Server.

(** What a caller may ask for, one request after the other; [Idle d] is
    [d] seconds without any request. *)
Inductive request :=
| Idle (d : Q)
| Throttle
| SafeHistory (ticker period : string) (interval : option string)
| FetchEnriched (ticker period interval : string)
| FetchQuote (ticker : string)
| GetSignals (ticker period interval : string)
| GetFibonacci (ticker period : string).

Section WithEnv.

Variable env : Env.
Variable enrich : list Bar -> list Row.

(** Time passes. *)
Definition idle (d : Q) : M unit := fun w =>
  (Ok tt, mkWorld (clock w + d) (_last_yahoo_call w) (cache w) (nreads w) (ncalls w)
            (trace w)).

(** The world after one request is served, whatever it returned. *)
Definition serve (r : request) (w : World) : World :=
  match r with
  | Idle d => snd (idle d w)
  | Throttle => snd (Fetcher.yahoo_throttle env w)
  | SafeHistory t p i => snd (Fetcher.safe_history env t p i w)
  | FetchEnriched t p i => snd (Fetcher.fetch_enriched env enrich t p i w)
  | FetchQuote t => snd (Fetcher.fetch_quote_data env t w)
  | GetSignals t p i => snd (Endpoints.get_signals env enrich t p i w)
  | GetFibonacci t p => snd (Endpoints.get_fibonacci env enrich t p w)
  end.

(** The world after a sequence of requests. *)
Definition run (rs : list request) (w : World) : World := fold_left (fun w r => serve r w) rs w.

End WithEnv.

(** The times, newest first, at which [yahoo_throttle] returned. *)
Fixpoint acquired_times (tr : list event) : list Q :=
  match tr with
  | [] => []
  | Acquired t :: r => t :: acquired_times r
  | _ :: r => acquired_times r
  end.

(** The times, newest first, at which an upstream call returned. *)
Fixpoint call_end_times (tr : list event) : list Q :=
  match tr with
  | [] => []
  | CallEnd t :: r => t :: call_end_times r
  | _ :: r => call_end_times r
  end.

(** A list of times, newest first, whose neighbours are at least
    [YAHOO_MIN_GAP] apart. *)
Fixpoint spaced (ts : list Q) : Prop :=
  match ts with
  | [] => True
  | t2 :: r =>
      match r with
      | [] => True
      | t1 :: _ => t1 + YAHOO_MIN_GAP <= t2
      end /\ spaced r
  end.

(** In a trace read oldest first: every return of [yahoo_throttle] comes at
    least [YAHOO_MIN_GAP] after the latest return of an upstream call
    before it. *)
Fixpoint gap_after_return (last_end : option Q) (chrono : list event) : Prop :=
  match chrono with
  | [] => True
  | Acquired t :: r =>
      match last_end with
      | Some e => e + YAHOO_MIN_GAP <= t
      | None => True
      end /\ gap_after_return last_end r
  | CallEnd t :: r => gap_after_return (Some t) r
  | _ :: r => gap_after_return last_end r
  end.

(** The throttle's invariant: the recorded returns of [yahoo_throttle] are
    spaced, and the latest one is not after [_last_yahoo_call]. *)
Definition throttle_inv (w : World) : Prop :=
  spaced (acquired_times (trace w)) /\
  match acquired_times (trace w) with
  | t :: _ => t <= _last_yahoo_call w
  | [] => True
  end.

(** A computation keeps a property of the world, whatever it returns. *)
Definition preserves (P : World -> Prop) {A : Type} (m : M A) : Prop :=
  forall w, P w -> P (snd (m w)).

(** A computation that neither writes [_last_yahoo_call] nor records a
    return of the throttle. *)
Definition quiet {A : Type} (m : M A) : Prop :=
  forall w, _last_yahoo_call (snd (m w)) = _last_yahoo_call w /\
            acquired_times (trace (snd (m w))) = acquired_times (trace w).

End Server.

(** ** The polling loop of the WebSocket endpoint ([live_stream]) *)

Module LiveStream.

(** [WS_POLL_INTERVAL = 60] and [MAX_ERRORS = 5] *)
Definition WS_POLL_INTERVAL : Z := 60.
Definition MAX_ERRORS : nat := 5.

(** [min(WS_POLL_INTERVAL * (2 ** consecutive_errors), 300)] *)
Definition backoff (consecutive_errors : nat) : Z :=
  Z.min (WS_POLL_INTERVAL * 2 ^ Z.of_nat consecutive_errors) 300.

(** What one pass of the [while True] body awaits at its end:
    [asyncio.sleep(d)], or [ws.receive_text()] under a timeout. *)
Inductive await :=
| Sleep (d : Z)
| ReceiveText (timeout : Z).

(** One pass of the [while True] body from [consecutive_errors]; [ok] tells
    whether the inner [try] block (fetch, payload, broadcast) ran to its
    end.  The result is the counter after the pass and what the pass
    awaits. *)
Definition pass (consecutive_errors : nat) (ok : bool) : nat * await :=
  if ok then (0%nat, ReceiveText (backoff 0))
  else
    let consecutive_errors := S consecutive_errors in
    if Nat.leb MAX_ERRORS consecutive_errors then (0%nat, Sleep 120)
    else (consecutive_errors, ReceiveText (backoff consecutive_errors)).

(** The passes of the loop over the outcomes of the inner [try] block, as
    long as the socket stays open: the counter at the end and what was
    awaited, oldest first. *)
Fixpoint passes (consecutive_errors : nat) (oks : list bool) : nat * list await :=
  match oks with
  | [] => (consecutive_errors, [])
  | ok :: rest =>
      let (c, a) := pass consecutive_errors ok in
      let (c', l) := passes c rest in
      (c', a :: l)
  end.

(** The seconds an await lasts at most. *)
Definition seconds (a : await) : Z :=
  match a with Sleep d => d | ReceiveText t => t end.

(** The failures at the end of a list of outcomes: those since the last
    success. *)
Fixpoint trailing_failures (oks : list bool) : nat :=
  match oks with
  | [] => 0%nat
  | ok :: rest =>
      if forallb negb rest then ((if ok then 0 else 1) + length rest)%nat
      else trailing_failures rest
  end.

End LiveStream.

(** ** The indicator pipeline (class [TA]) *)

(** The pandas operations that [TA] uses, on a column as the list of its
    cells, oldest first; a cell is a float or NaN.  Sums, products and
    quotients of cells are exact here and rounded to binary64 in the
    code. *)
Module Pd.

Abbreviation Series := (list Py.float).

(** [a + b] on cells, NaN propagating. *)
Definition fadd (a b : Py.float) : Py.float :=
  match a, b with Some x, Some y => Some (x + y) | _, _ => None end.

(** [a / b] on cells, NaN propagating.  No exception is raised on a zero
    divisor (the result is then infinite or NaN, here NaN); every divisor
    in [TA] is free of zeros, see [replace]. *)
Definition fdiv (a b : Py.float) : Py.float :=
  match a, b with
  | Some x, Some y => if Qeq_bool y 0 then None else Some (x / y)
  | _, _ => None
  end.

(** [s.diff()]: the first cell is NaN. *)
Definition diff (s : Series) : Series :=
  match s with
  | [] => []
  | _ :: later => None :: zip_with Py.fsub later s
  end.

(** [s.clip(lower=lower)] *)
Definition clip_lower (lower : Q) (s : Series) : Series :=
  map (option_map (fun x => if Py.ltb x lower then lower else x)) s.

(** [-s] *)
Definition neg (s : Series) : Series := map (option_map Qopp) s.

(** [s.replace(old, new)] *)
Definition replace (old new : Q) (s : Series) : Series :=
  map (option_map (fun x => if Qeq_bool x old then new else x)) s.

(** The state of the exponentially weighted mean between two cells: the
    running mean, the weight of the past, and the number of cells with a
    value seen so far. *)
Record ewm_state := mk_ewm { weighted : Py.float; old_wt : Q; nobs : nat }.

(** One cell of [ewm(alpha=alpha, adjust=False).mean()], for
    [0 < alpha <= 1] (pandas raises [ValueError] otherwise): the first value
    starts the mean, a later one moves it by the weight [new_wt], a NaN cell
    ages the past.  [new_wt] is [alpha], except that for [com == 1], where
    [com = (1 - alpha) / alpha], pandas takes [1 - old_wt], which differs
    from [alpha] after a gap of NaN cells. *)
Definition ewm_step (alpha : Q) (st : ewm_state) (cur : Py.float) : ewm_state :=
  let nobs := (nobs st + match cur with Some _ => 1 | None => 0 end)%nat in
  let com := (1 - alpha) / alpha in
  match weighted st with
  | Some wt =>
      let old_wt := old_wt st * (1 - alpha) in
      match cur with
      | Some x =>
          let new_wt := if Qeq_bool com 1 then 1 - old_wt else alpha in
          mk_ewm (Some (if Qeq_bool wt x then wt
                        else (old_wt * wt + new_wt * x) / (old_wt + new_wt)))
                 1 nobs
      | None => mk_ewm (Some wt) old_wt nobs
      end
  | None => mk_ewm cur (old_wt st) nobs
  end.

Fixpoint ewm_from (alpha : Q) (minp : nat) (st : ewm_state) (s : Series) : Series :=
  match s with
  | [] => []
  | cur :: later =>
      let st := ewm_step alpha st cur in
      (if Nat.leb minp (nobs st) then weighted st else None)
        :: ewm_from alpha minp st later
  end.

(** [s.ewm(alpha=alpha, min_periods=min_periods, adjust=False).mean()]: a
    cell is NaN until [max(min_periods, 1)] cells with a value have been
    seen. *)
Definition ewm_mean (alpha : Q) (min_periods : nat) (s : Series) : Series :=
  ewm_from alpha (Nat.max min_periods 1) (mk_ewm None 1 0) s.

(** The [alpha] of [ewm(span=span)], for [span >= 1]: [2 / (span + 1)].
    For a smaller span pandas raises [ValueError] ("span must satisfy: span
    >= 1"); that path is not modelled, and every statement about a column
    computed from a span carries [1 <= span]. *)
Definition alpha_of_span (span : nat) : Q := 2 / (inject_Z (Z.of_nat span) + 1).

(** The values of a window, when no cell of it is NaN. *)
Fixpoint values (cells : list Py.float) : option (list Q) :=
  match cells with
  | [] => Some []
  | Some x :: rest => option_map (cons x) (values rest)
  | None :: _ => None
  end.

(** [s.rolling(window).agg()]: the cell of row [i] aggregates the [window]
    cells that end at row [i]; it is NaN while there are fewer rows, and
    when a cell of the window is NaN. *)
Definition rolling (window : nat) (agg : list Q -> Q) (s : Series) : Series :=
  imap (fun i _ =>
          if Nat.leb window (S i)
          then option_map agg (values (take window (drop (S i - window) s)))
          else None) s.

Definition sum (l : list Q) : Q := fold_right Qplus 0 l.

Definition mean (l : list Q) : Q := sum l / inject_Z (Z.of_nat (length l)).

Definition minimum (l : list Q) : Q :=
  match l with
  | [] => 0
  | x :: rest => fold_left (fun a y => if Py.ltb y a then y else a) rest x
  end.

Definition maximum (l : list Q) : Q :=
  match l with
  | [] => 0
  | x :: rest => fold_left (fun a y => if Py.ltb a y then y else a) rest x
  end.

(** [s.cumsum()]: a NaN cell stays NaN and is skipped by the running sum. *)
Fixpoint cumsum_from (acc : Q) (s : Pd.Series) : Pd.Series :=
  match s with
  | [] => []
  | Some x :: later => Some (acc + x) :: cumsum_from (acc + x) later
  | None :: later => None :: cumsum_from acc later
  end.

Definition cumsum (s : Pd.Series) : Pd.Series := cumsum_from 0 s.

End Pd.

Module TA.

(** [TA.rsi(close, period)], for [period >= 1] ([1 / period] raises
    [ZeroDivisionError] for 0). *)
Definition rsi (close : Pd.Series) (period : nat) : Pd.Series :=
  let delta := Pd.diff close in
  let gain := Pd.clip_lower 0 delta in
  let loss := Pd.clip_lower 0 (Pd.neg delta) in
  let alpha := 1 / inject_Z (Z.of_nat period) in
  let avg_gain := Pd.ewm_mean alpha period gain in
  let avg_loss := Pd.ewm_mean alpha period loss in
  let rs := zip_with Pd.fdiv avg_gain (Pd.replace 0 (1 # 10000000000) avg_loss) in
  map (fun r => Py.fsub (Some 100) (Pd.fdiv (Some 100) (Pd.fadd (Some 1) r))) rs.

(** [TA.sma(close, period)] *)
Definition sma (close : Pd.Series) (period : nat) : Pd.Series :=
  Pd.rolling period Pd.mean close.

(** [TA.ema(close, period)], for [period >= 1] (see [Pd.alpha_of_span]). *)
Definition ema (close : Pd.Series) (period : nat) : Pd.Series :=
  Pd.ewm_mean (Pd.alpha_of_span period) 0 close.

(** [TA.macd(close, fast, slow, signal)], for spans of at least 1 (see
    [Pd.alpha_of_span]): the MACD line, the signal line and the histogram. *)
Definition macd (close : Pd.Series) (fast slow signal : nat)
  : Pd.Series * Pd.Series * Pd.Series :=
  let ema_f := Pd.ewm_mean (Pd.alpha_of_span fast) 0 close in
  let ema_s := Pd.ewm_mean (Pd.alpha_of_span slow) 0 close in
  let macd_line := zip_with Py.fsub ema_f ema_s in
  let sig_line := Pd.ewm_mean (Pd.alpha_of_span signal) 0 macd_line in
  let hist := zip_with Py.fsub macd_line sig_line in
  (macd_line, sig_line, hist).

(** [TA.stochastic(df, k, d)]: [%K] and [%D].  The quotient is exact here; in
    the code its rounding can take [%K] a few units in the last place above
    100 (100.00000000000001 for a close at a window high of 9.67 over a
    window low of 9.0). *)
Definition stochastic (df : list Bar) (k d : nat) : Pd.Series * Pd.Series :=
  let low_k := Pd.rolling k Pd.minimum (map Low df) in
  let high_k := Pd.rolling k Pd.maximum (map High df) in
  let stoch_k :=
    zip_with Pd.fdiv
      (map (Py.fmul (Some 100)) (zip_with Py.fsub (map Close df) low_k))
      (Pd.replace 0 (1 # 10000000000) (zip_with Py.fsub high_k low_k)) in
  let stoch_d := Pd.rolling d Pd.mean stoch_k in
  (stoch_k, stoch_d).

(** [TA.vwap(df)].  The running sums and the quotient are exact here; in the
    code their rounding can take the VWAP a few units in the last place
    outside the range of the typical prices (10.039999999999997 for two bars
    at 10.04 with volumes 700 and 300). *)
Definition vwap (df : list Bar) : Pd.Series :=
  let tp := map (fun x => Pd.fdiv x (Some 3))
                (zip_with Pd.fadd (zip_with Pd.fadd (map High df) (map Low df))
                   (map Close df)) in
  let cum := Pd.cumsum (zip_with Py.fmul tp (map Volume df)) in
  let vol := Pd.replace 0 (1 # 10000000000) (Pd.cumsum (map Volume df)) in
  zip_with Pd.fdiv cum vol.

End TA.

(* ===================================================================== *)
(** * Part II: properties                                                  *)
(* ===================================================================== *)

(** ** Comparisons and rounding *)

Lemma leb_le (a b : Q) : Py.leb a b = true <-> a <= b.
Proof. unfold Py.leb. apply Qle_bool_iff. Qed.

Lemma leb_gt (a b : Q) : Py.leb a b = false <-> b < a.
Proof.
  unfold Py.leb. split; intros H.
  - apply Qnot_le_lt. intros Hle. apply Qle_bool_iff in Hle. congruence.
  - destruct (Qle_bool a b) eqn:E; [|reflexivity].
    apply Qle_bool_iff in E. lra.
Qed.

Lemma ltb_lt (a b : Q) : Py.ltb a b = true <-> a < b.
Proof.
  unfold Py.ltb. rewrite negb_true_iff. apply (leb_gt b a).
Qed.

Lemma ltb_ge (a b : Q) : Py.ltb a b = false <-> b <= a.
Proof.
  unfold Py.ltb. rewrite negb_false_iff. apply (leb_le b a).
Qed.

(** [round] gives equal results on equal numbers. *)
Lemma round_half_even_comp (x y : Q) :
  x == y -> Py.round_half_even x = Py.round_half_even y.
Proof.
  intros H. unfold Py.round_half_even.
  rewrite (Qfloor_comp x y H).
  assert (E : x - inject_Z (Qfloor y) == y - inject_Z (Qfloor y)) by (rewrite H; reflexivity).
  now rewrite (Qcompare_comp _ _ E (1 # 2) (1 # 2) (Qeq_refl _)).
Qed.

Lemma round_comp (x y : Q) (nd : nat) : x == y -> Py.round x nd = Py.round y nd.
Proof.
  intros H. unfold Py.round, Py.scaled.
  rewrite (round_half_even_comp (x * inject_Z (10 ^ Z.of_nat nd))
                                (y * inject_Z (10 ^ Z.of_nat nd))); [reflexivity|].
  now rewrite H.
Qed.

(** Decide the float comparisons of the goal from the linear facts at
    hand. *)
Ltac cmp :=
  repeat match goal with
  | |- context [Py.ltb ?a ?b] =>
      first [ rewrite (proj2 (ltb_lt a b)) by (simpl; lra)
            | rewrite (proj2 (ltb_ge a b)) by (simpl; lra) ]
  | |- context [Py.leb ?a ?b] =>
      first [ rewrite (proj2 (leb_le a b)) by (simpl; lra)
            | rewrite (proj2 (leb_gt a b)) by (simpl; lra) ]
  end.

(** ** The TTL cache *)

Section CacheFacts.

Context {V : Type}.

Implicit Types (c : TTLCache.t V) (s : gmap string (Q * V)).

Lemma sweep_lookup_Some s now key entry :
  TTLCache.sweep now s !! key = Some entry -> s !! key = Some entry.
Proof.
  unfold TTLCache.sweep. intros H.
  apply map_lookup_filter_Some in H. tauto.
Qed.

Lemma get_store_lookup c key now k entry :
  TTLCache._store (snd (TTLCache.get c key now)) !! k = Some entry ->
  TTLCache._store c !! k = Some entry.
Proof.
  unfold TTLCache.get.
  destruct (TTLCache._store c !! key) as [e|]; [|auto].
  destruct (Py.leb (fst e) now); simpl; [|auto].
  intros H. apply lookup_delete_Some in H. tauto.
Qed.

Lemma set_store_lookup c key value ttl t1 t2 k entry :
  TTLCache._store (TTLCache.set c key value ttl t1 t2) !! k = Some entry ->
  (k = key /\ entry = (t2 + ttl, value)) \/
  (k <> key /\ TTLCache._store c !! k = Some entry).
Proof.
  unfold TTLCache.set. simpl.
  destruct (decide (key = k)) as [->|Hne].
  - rewrite lookup_insert_eq. intros [= <-]. left. auto.
  - rewrite lookup_insert_ne by assumption. intros H. right. split; [congruence|].
    destruct (Nat.leb _ _); [eapply sweep_lookup_Some|]; eassumption.
Qed.

(** Whatever the cache holds under a key after a sequence of uses is the
    entry written by the most recent [set] under that key. *)
Lemma run_latest (ops : list (TTLCache.op V)) :
  forall c acc key entry,
    (forall e, TTLCache._store c !! key = Some e -> acc = Some e) ->
    TTLCache._store (TTLCache.run ops c) !! key = Some entry ->
    TTLCache.latest_from acc key ops = Some entry.
Proof.
  induction ops as [|o ops IH]; intros c acc key entry Hinv Hlook.
  - simpl in *. auto.
  - simpl in *. eapply IH; [|exact Hlook].
    intros e He. destruct o as [k now|k value ttl t1 t2]; simpl in He.
    + apply Hinv. eapply get_store_lookup. exact He.
    + apply set_store_lookup in He as [[-> ->]|[Hne He]].
      * rewrite String.eqb_refl. reflexivity.
      * destruct (String.eqb_spec k key) as [->|_]; [congruence|]. auto.
Qed.

(** C3.  [TTLCache.get(key)]: when the entry's [expires_at] is at or before
    [now] the result is absent and the entry is deleted; when the entry
    exists and [now] is before [expires_at] the result is the stored value
    and the cache is unchanged; and after any sequence of [get] and [set]
    on a fresh cache, a value returned for [key] is the value of the most
    recent [set] under [key] itself, never one stored under another key. *)
Theorem ttlcache_get_spec (c : TTLCache.t V) (key : string) (now : Q) :
  (forall e v, TTLCache._store c !! key = Some (e, v) -> e <= now ->
     TTLCache.get c key now
       = (None, TTLCache.mk (delete key (TTLCache._store c)) (TTLCache._max c))
     /\ TTLCache._store (snd (TTLCache.get c key now)) !! key = None) /\
  (forall e v, TTLCache._store c !! key = Some (e, v) -> now < e ->
     TTLCache.get c key now = (Some v, c)) /\
  (forall max_size ops v,
     c = TTLCache.run ops (TTLCache.init max_size) ->
     fst (TTLCache.get c key now) = Some v ->
     exists e, TTLCache.latest_set key ops = Some (e, v) /\ now < e).
Proof.
  repeat split.
  - unfold TTLCache.get. rewrite H. simpl. now cmp.
  - unfold TTLCache.get. rewrite H. simpl. cmp. simpl. apply lookup_delete_eq.
  - intros e v H Hlt. unfold TTLCache.get. rewrite H. simpl. now cmp.
  - intros max_size ops v -> Hget. unfold TTLCache.get in Hget.
    destruct (TTLCache._store _ !! key) as [[e v']|] eqn:Hlook; [|discriminate].
    simpl in Hget. destruct (Py.leb e now) eqn:Hcmp; [discriminate|].
    simpl in Hget. injection Hget as ->. exists e. split.
    + eapply run_latest; [|exact Hlook].
      intros e0. simpl. rewrite lookup_empty. discriminate.
    + now apply leb_gt.
Qed.

End CacheFacts.

(** A fresh cache after one [set] at time 100 with a 60 second TTL: a [get]
    at time 160 finds the entry expired, a [get] at time 130 returns it. *)
Lemma ttlcache_get_spec_witness :
  let ops := [TTLCache.OpSet "quote:AAPL" 7%nat 60 100 100] in
  let c := TTLCache.run ops (TTLCache.init 300) in
  (fst (TTLCache.get c "quote:AAPL" 160) = None /\
   TTLCache._store (snd (TTLCache.get c "quote:AAPL" 160)) !! "quote:AAPL" = None) /\
  TTLCache.get c "quote:AAPL" 130 = (Some 7%nat, c) /\
  (exists e, TTLCache.latest_set "quote:AAPL" ops = Some (e, 7%nat) /\ 130 < e).
Proof.
  intros ops c.
  assert (Hc : TTLCache._store c !! "quote:AAPL" = Some (100 + 60, 7%nat))
    by (vm_compute; reflexivity).
  split; [|split].
  - destruct (ttlcache_get_spec c "quote:AAPL" 160) as [H _].
    destruct (H (100 + 60) 7%nat Hc ltac:(lra)) as [H1 H2].
    rewrite H1. split; [reflexivity|]. rewrite H1 in H2. exact H2.
  - destruct (ttlcache_get_spec c "quote:AAPL" 130) as (_ & H & _).
    apply (H (100 + 60)); [exact Hc | lra].
  - destruct (ttlcache_get_spec c "quote:AAPL" 130) as (_ & _ & H).
    apply (H 300%nat ops 7%nat); [reflexivity | vm_compute; reflexivity].
Defined.

(** ** The rate limiter *)

Section RateLimiterFacts.

Import RateLimiter.

Lemma recent_In r client now t :
  In t (recent r client now) <->
  In t (default [] (_hits r !! client)) /\ now - _window r < t.
Proof.
  unfold recent. rewrite filter_In. rewrite ltb_lt. reflexivity.
Qed.

Lemma recent_insert h lim w client l now :
  recent (mk (<[client := l]> h) lim w) client now
  = List.filter (fun t => Py.ltb (now - w) t) l.
Proof. unfold recent. simpl. now rewrite lookup_insert_eq. Qed.

Lemma allow_accept r client now :
  (Z.of_nat (length (recent r client now)) < _limit r)%Z ->
  allow r client now
  = (true, mk (<[client := recent r client now ++ [now]]> (_hits r))
              (_limit r) (_window r)).
Proof.
  intros H. unfold allow.
  destruct (Z.leb_spec (_limit r) (Z.of_nat (length (recent r client now)))); [lia|].
  reflexivity.
Qed.

Lemma allow_reject r client now :
  (_limit r <= Z.of_nat (length (recent r client now)))%Z ->
  allow r client now
  = (false, mk (<[client := recent r client now]> (_hits r)) (_limit r) (_window r)).
Proof.
  intros H. unfold allow.
  destruct (Z.leb_spec (_limit r) (Z.of_nat (length (recent r client now)))); [|lia].
  reflexivity.
Qed.

Lemma calls_accept r client now rest :
  (Z.of_nat (length (recent r client now)) < _limit r)%Z ->
  calls r client (now :: rest)
  = true :: calls (mk (<[client := recent r client now ++ [now]]> (_hits r))
                      (_limit r) (_window r)) client rest.
Proof. intros H. cbn [calls]. now rewrite allow_accept. Qed.

Lemma calls_reject r client now rest :
  (_limit r <= Z.of_nat (length (recent r client now)))%Z ->
  calls r client (now :: rest)
  = false :: calls (mk (<[client := recent r client now]> (_hits r))
                       (_limit r) (_window r)) client rest.
Proof. intros H. cbn [calls]. now rewrite allow_reject. Qed.

Ltac rl_step :=
  rewrite ?recent_insert;
  cbn [List.filter RateLimiter._hits RateLimiter._limit RateLimiter._window];
  cmp; cbn [app]; rewrite ?insert_insert_eq.

(** With [limit = 3] and [window = 60], a client with no recorded request
    is accepted three times within a window, rejected the fourth time in
    that window, and accepted again once the window of the first request
    has elapsed. *)
Lemma three_then_reject_then_accept (r : t) client t1 t2 t3 t4 t5 :
  _limit r = 3%Z -> _window r == 60 -> default [] (_hits r !! client) = [] ->
  t1 <= t2 -> t2 <= t3 -> t3 <= t4 -> t4 < t1 + 60 -> t1 + 60 <= t5 ->
  calls r client [t1; t2; t3; t4; t5] = [true; true; true; false; true].
Proof.
  intros Hl Hw Hh H12 H23 H34 H41 H15.
  assert (R1 : recent r client t1 = []) by (unfold recent; now rewrite Hh).
  rewrite calls_accept by (rewrite R1, Hl; simpl; lia).
  rewrite R1. cbn [app].
  rewrite calls_accept; rl_step; [|rewrite Hl; simpl; lia].
  rewrite calls_accept; rl_step; [|rewrite Hl; simpl; lia].
  rewrite calls_reject; rl_step; [|rewrite Hl; simpl; lia].
  rewrite calls_accept; rl_step; [reflexivity|].
  rewrite Hl. destruct (Py.ltb _ t2), (Py.ltb _ t3); simpl; lia.
Qed.

(** C4.  [RateLimiter.allow(client)]: the timestamps of the client older
    than [now - window] are dropped (those kept are exactly the recorded ones
    after [now - window]); if the number kept is at least [limit] the call
    returns false and records nothing, otherwise it appends [now] and returns
    true; the lists of the other clients are untouched.  With [limit = 3] and
    [window = 60], three calls within a window succeed, a fourth one in that
    window is rejected, and a call after the window has elapsed succeeds. *)
Theorem ratelimiter_allow_spec (r : RateLimiter.t) (client : string) (now : Q) :
  let hits := default [] (_hits r !! client) in
  let kept := recent r client now in
  (forall t, In t hits -> t < now - _window r -> ~ In t kept) /\
  (forall t, In t kept <-> In t hits /\ now - _window r < t) /\
  ((_limit r <= Z.of_nat (length kept))%Z ->
     allow r client now
     = (false, mk (<[client := kept]> (_hits r)) (_limit r) (_window r))) /\
  ((Z.of_nat (length kept) < _limit r)%Z ->
     allow r client now
     = (true, mk (<[client := kept ++ [now]]> (_hits r)) (_limit r) (_window r))) /\
  (forall other, other <> client ->
     _hits (snd (allow r client now)) !! other = _hits r !! other) /\
  (forall t1 t2 t3 t4 t5,
     _limit r = 3%Z -> _window r == 60 -> hits = [] ->
     t1 <= t2 -> t2 <= t3 -> t3 <= t4 -> t4 < t1 + 60 -> t1 + 60 <= t5 ->
     calls r client [t1; t2; t3; t4; t5] = [true; true; true; false; true]).
Proof.
  intros hits kept. repeat apply conj.
  - intros t _ Hold Hin. apply recent_In in Hin. lra.
  - intros t. apply recent_In.
  - apply allow_reject.
  - apply allow_accept.
  - intros other Hne. unfold allow. fold kept.
    destruct (_limit r <=? _)%Z; simpl; now rewrite lookup_insert_ne.
  - intros. now apply three_then_reject_then_accept.
Qed.

End RateLimiterFacts.

(** A fresh [RateLimiter(3, 60)] and one client calling at the seconds 0,
    10, 20, 30 and 60. *)
Lemma ratelimiter_allow_spec_witness :
  RateLimiter.calls (RateLimiter.init 3 60) "10.0.0.7" [0; 10; 20; 30; 60]
  = [true; true; true; false; true].
Proof.
  apply (ratelimiter_allow_spec (RateLimiter.init 3 60) "10.0.0.7" 0);
    first [reflexivity | lra].
Defined.

(** ** The signal engine *)

Section SignalFacts.

Import SignalEngine.

Lemma rsi_rule_indicator cur s : In s (rsi_rule cur) -> indicator s = "RSI"%string.
Proof.
  unfold rsi_rule. destruct (safe cur "rsi_14") as [rsi|]; [|intros []].
  destruct (Py.ltb rsi 30); [|destruct (Py.ltb 70 rsi)];
    (intros [<-|[]]; reflexivity).
Qed.

Lemma macd_rule_indicator cur prev s : In s (macd_rule cur prev) -> indicator s = "MACD"%string.
Proof.
  unfold macd_rule.
  destruct (safe cur "macd") as [m|]; [|intros []].
  destruct (safe cur "macd_signal") as [ms_|]; [|intros []].
  destruct (row_get prev "macd") as [[pm|]|]; try (intros []).
  destruct (row_get prev "macd_signal") as [[ps|]|]; try (intros []).
  destruct (_ && _); [|destruct (_ && _)]; (intros [<-|[]]; reflexivity).
Qed.

Lemma bollinger_rule_indicator cur s :
  In s (bollinger_rule cur) -> indicator s = "Bollinger"%string.
Proof.
  unfold bollinger_rule.
  destruct (safe cur "bb_upper") as [u|]; [|intros []].
  destruct (safe cur "bb_lower") as [l|]; [|intros []].
  destruct (_ && _); [|intros []].
  destruct (Py.fge _ _); [|destruct (Py.fle _ _)]; (intros [<-|[]]; reflexivity).
Qed.

Lemma stochastic_rule_indicator cur s :
  In s (stochastic_rule cur) -> indicator s = "Stochastic"%string.
Proof.
  unfold stochastic_rule. destruct (safe cur "stoch_k") as [sk|]; [|intros []].
  destruct (Py.ltb sk 20); [|destruct (Py.ltb 80 sk)];
    (intros [<-|[]]; reflexivity).
Qed.

Lemma vwap_rule_indicator cur s : In s (vwap_rule cur) -> indicator s = "VWAP"%string.
Proof.
  unfold vwap_rule. destruct (safe cur "vwap") as [vw|]; [|intros []].
  destruct (Py.truthy vw); [|intros []].
  intros [<-|[]]; reflexivity.
Qed.

Lemma of_indicator_all name sigs :
  (forall s, In s sigs -> indicator s = name) -> of_indicator name sigs = sigs.
Proof.
  intros H. unfold of_indicator. induction sigs as [|s sigs IH]; [reflexivity|].
  simpl. rewrite (H s) by (left; reflexivity). rewrite String.eqb_refl.
  f_equal. apply IH. intros s' Hs'. apply H. right. exact Hs'.
Qed.

Lemma of_indicator_none name sigs :
  (forall s, In s sigs -> indicator s <> name) -> of_indicator name sigs = [].
Proof.
  intros H. unfold of_indicator. induction sigs as [|s sigs IH]; [reflexivity|].
  simpl. destruct (String.eqb_spec (indicator s) name) as [E|_].
  - exfalso. apply (H s); [left; reflexivity | exact E].
  - apply IH. intros s' Hs'. apply H. right. exact Hs'.
Qed.

Lemma of_indicator_app name a b :
  of_indicator name (a ++ b) = of_indicator name a ++ of_indicator name b.
Proof. unfold of_indicator. apply List.filter_app. Qed.

Lemma evaluate_two (rest : list Row) prev cur :
  evaluate (rest ++ [prev; cur])
  = rsi_rule cur ++ macd_rule cur prev ++ bollinger_rule cur ++
    stochastic_rule cur ++ vwap_rule cur.
Proof.
  unfold evaluate.
  assert (Hlen : Nat.ltb (length (rest ++ [prev; cur])) 2 = false).
  { apply Nat.ltb_ge. rewrite length_app. simpl. lia. }
  rewrite Hlen. rewrite rev_app_distr. reflexivity.
Qed.

Lemma evaluate_macd rest prev cur :
  of_indicator "MACD" (evaluate (rest ++ [prev; cur])) = macd_rule cur prev.
Proof.
  rewrite evaluate_two. rewrite !of_indicator_app.
  rewrite (of_indicator_none _ (rsi_rule cur)).
  2:{ intros s Hs. rewrite (rsi_rule_indicator _ _ Hs). discriminate. }
  rewrite (of_indicator_none _ (bollinger_rule cur)).
  2:{ intros s Hs. rewrite (bollinger_rule_indicator _ _ Hs). discriminate. }
  rewrite (of_indicator_none _ (stochastic_rule cur)).
  2:{ intros s Hs. rewrite (stochastic_rule_indicator _ _ Hs). discriminate. }
  rewrite (of_indicator_none _ (vwap_rule cur)).
  2:{ intros s Hs. rewrite (vwap_rule_indicator _ _ Hs). discriminate. }
  rewrite (of_indicator_all _ (macd_rule cur prev)).
  2:{ intros s Hs. apply (macd_rule_indicator _ _ _ Hs). }
  simpl. now rewrite app_nil_r.
Qed.


(** C5.  The MACD rule of [SignalEngine.evaluate] on a series of at least
    two bars.  When the current and previous MACD and signal values are all
    defined, exactly one MACD signal is emitted: BUY with detail "Bullish
    crossover" iff previous MACD <= previous signal and current MACD >
    current signal; SELL with detail "Bearish crossover" iff previous MACD >=
    previous signal and current MACD < current signal; otherwise BUY ("MACD
    above signal") if current MACD > current signal and SELL ("MACD below
    signal") if not; it is never NEUTRAL.  When one of the four values is
    undefined, no MACD signal is emitted. *)
Theorem macd_rule_spec (rest : list Row) (prev cur : Row) :
  (forall m ms_ pm ps,
     row_get cur "macd" = Some (Some m) ->
     row_get cur "macd_signal" = Some (Some ms_) ->
     row_get prev "macd" = Some (Some pm) ->
     row_get prev "macd_signal" = Some (Some ps) ->
     exists s,
       of_indicator "MACD" (evaluate (rest ++ [prev; cur])) = [s] /\
       ((signal s = BUY /\ detail s = "Bullish crossover"%string) <->
          (pm <= ps /\ ms_ < m)) /\
       ((signal s = SELL /\ detail s = "Bearish crossover"%string) <->
          (ps <= pm /\ m < ms_)) /\
       (~ (pm <= ps /\ ms_ < m) -> ~ (ps <= pm /\ m < ms_) ->
          (ms_ < m -> signal s = BUY /\ detail s = "MACD above signal"%string) /\
          (m <= ms_ -> signal s = SELL /\ detail s = "MACD below signal"%string)) /\
       signal s <> NEUTRAL /\
       value s = Some (Py.round m 4)) /\
  (notnull (row_get cur "macd") && notnull (row_get cur "macd_signal") &&
   notnull (row_get prev "macd") && notnull (row_get prev "macd_signal") = false ->
     of_indicator "MACD" (evaluate (rest ++ [prev; cur])) = []).
Proof.
  rewrite evaluate_macd. split.
  - intros m ms_ pm ps Hm Hms Hpm Hps.
    unfold macd_rule, safe. rewrite Hm, Hms, Hpm, Hps.
    destruct (Py.leb pm ps) eqn:E1; destruct (Py.ltb ms_ m) eqn:E2;
      destruct (Py.leb ps pm) eqn:E3; destruct (Py.ltb m ms_) eqn:E4;
      cbn [andb];
      repeat match goal with
      | H : Py.leb _ _ = true |- _ => apply leb_le in H
      | H : Py.leb _ _ = false |- _ => apply leb_gt in H
      | H : Py.ltb _ _ = true |- _ => apply ltb_lt in H
      | H : Py.ltb _ _ = false |- _ => apply ltb_ge in H
      end;
      try (exfalso; lra);
      (eexists; split; [reflexivity|]; cbn;
       repeat split; intros; try discriminate; try lra;
       repeat match goal with H : _ /\ _ |- _ => destruct H end;
       try discriminate; try lra; try tauto).
  - intros Hnull. unfold macd_rule, safe.
    destruct (row_get cur "macd") as [[m|]|]; try reflexivity.
    destruct (row_get cur "macd_signal") as [[ms_|]|]; try reflexivity.
    destruct (row_get prev "macd") as [[pm|]|]; try reflexivity.
    destruct (row_get prev "macd_signal") as [[ps|]|]; try reflexivity.
    discriminate Hnull.
Qed.


Lemma truthy_nonzero (x : Q) : ~ x == 0 -> Py.truthy x = true.
Proof.
  intros H. unfold Py.truthy. destruct (Qeq_bool x 0) eqn:E; [|reflexivity].
  apply Qeq_bool_iff in E. contradiction.
Qed.

Lemma truthy_zero (x : Q) : x == 0 -> Py.truthy x = false.
Proof.
  intros H. unfold Py.truthy. apply Qeq_bool_iff in H. now rewrite H.
Qed.

(** Away from zero bands the Bollinger block does what its three branches
    say, boundaries included. *)
Lemma bollinger_rule_nonzero (cur : Row) (u l : Q) :
  safe cur "bb_upper" = Some u -> safe cur "bb_lower" = Some l ->
  ~ u == 0 -> ~ l == 0 ->
  bollinger_rule cur =
    if Py.fge (Close (bar cur)) u
    then [mkSignal "Bollinger" SELL None "Price at upper band"]
    else if Py.fle (Close (bar cur)) l
    then [mkSignal "Bollinger" BUY None "Price at lower band"]
    else [mkSignal "Bollinger" NEUTRAL None "Price inside bands"].
Proof.
  intros Hu Hl Hu0 Hl0. unfold bollinger_rule. rewrite Hu, Hl.
  now rewrite (truthy_nonzero u Hu0), (truthy_nonzero l Hl0).
Qed.

(** A band that is defined and equal to [0.0] silences the block. *)
Lemma bollinger_rule_zero (cur : Row) (u l : Q) :
  safe cur "bb_upper" = Some u -> safe cur "bb_lower" = Some l ->
  u == 0 \/ l == 0 ->
  bollinger_rule cur = [].
Proof.
  intros Hu Hl [H0|H0]; unfold bollinger_rule; rewrite Hu, Hl;
    rewrite (truthy_zero _ H0); [reflexivity|].
  now rewrite andb_false_r.
Qed.

Lemma evaluate_bollinger rest prev cur :
  of_indicator "Bollinger" (evaluate (rest ++ [prev; cur])) = bollinger_rule cur.
Proof.
  rewrite evaluate_two. rewrite !of_indicator_app.
  rewrite (of_indicator_none _ (rsi_rule cur)).
  2:{ intros s Hs. rewrite (rsi_rule_indicator _ _ Hs). discriminate. }
  rewrite (of_indicator_none _ (macd_rule cur prev)).
  2:{ intros s Hs. rewrite (macd_rule_indicator _ _ _ Hs). discriminate. }
  rewrite (of_indicator_none _ (stochastic_rule cur)).
  2:{ intros s Hs. rewrite (stochastic_rule_indicator _ _ Hs). discriminate. }
  rewrite (of_indicator_none _ (vwap_rule cur)).
  2:{ intros s Hs. rewrite (vwap_rule_indicator _ _ Hs). discriminate. }
  rewrite (of_indicator_all _ (bollinger_rule cur)).
  2:{ intros s Hs. apply (bollinger_rule_indicator _ _ Hs). }
  simpl. now rewrite app_nil_r.
Qed.

(** C6.  On a series of at least two bars whose current bar has both
    Bollinger bands defined, one of them equal to [0.0], the Bollinger block of
    [SignalEngine.evaluate] emits no signal at all, whatever the close:
    neither SELL at or above the upper band, nor BUY at or below the lower
    band, nor NEUTRAL in between. *)
Theorem bollinger_zero_band_skipped (rest : list Row) (prev cur : Row) (u l : Q) :
  row_get cur "bb_upper" = Some (Some u) ->
  row_get cur "bb_lower" = Some (Some l) ->
  u == 0 \/ l == 0 ->
  of_indicator "Bollinger" (evaluate (rest ++ [prev; cur])) = [].
Proof.
  intros Hu Hl Hzero. rewrite evaluate_bollinger.
  apply (bollinger_rule_zero cur u l); unfold safe; try rewrite Hu; try rewrite Hl; auto.
Qed.

End SignalFacts.

(** Both bands defined, the lower one at [0.0] and the close between them
    (close 20, bands 40 and 0, as for twenty closes of mean 20 and standard
    deviation 10), where NEUTRAL is expected; and a series flat at [0.0],
    whose bands and close are all [0.0], where SELL is expected, the close
    being at the upper band.  No Bollinger signal is emitted. *)
Lemma bollinger_zero_band_skipped_witness :
  let flat := fun c => mkBar (Some c) (Some c) (Some c) (Some c) (Some 1000) in
  let bands := fun (u l : Q) =>
    <["bb_upper"%string := Some u]> (<["bb_lower"%string := Some l]> ∅) in
  let cur1 := mkRow (flat 20) (bands 40 0) in
  let cur2 := mkRow (flat 0) (bands 0 0) in
  (notnull (row_get cur1 "bb_upper") = true /\
   notnull (row_get cur1 "bb_lower") = true /\
   SignalEngine.of_indicator "Bollinger"
     (SignalEngine.evaluate [mkRow (flat 20) ∅; cur1]) = []) /\
  (notnull (row_get cur2 "bb_upper") = true /\
   notnull (row_get cur2 "bb_lower") = true /\
   Py.fge (Close (bar cur2)) 0 = true /\
   SignalEngine.of_indicator "Bollinger"
     (SignalEngine.evaluate [mkRow (flat 0) ∅; cur2]) = []).
Proof.
  intros flat bands cur1 cur2. split.
  - split; [reflexivity|]. split; [reflexivity|].
    apply (bollinger_zero_band_skipped [] (mkRow (flat 20) ∅) cur1 40 0);
      [reflexivity | reflexivity | right; reflexivity].
  - split; [reflexivity|]. split; [reflexivity|]. split; [reflexivity|].
    apply (bollinger_zero_band_skipped [] (mkRow (flat 0) ∅) cur2 0 0);
      [reflexivity | reflexivity | left; reflexivity].
Defined.

(** A series that crosses from below to above: the previous bar has MACD -1
    under a signal line at 0, the current bar has MACD 1 above it. *)
Lemma macd_rule_spec_witness :
  let b := mkBar (Some 10) (Some 11) (Some 9) (Some 10) (Some 1000) in
  let cols := fun (m s : Q) =>
    <["macd"%string := Some m]> (<["macd_signal"%string := Some s]> ∅) in
  exists s,
    SignalEngine.of_indicator "MACD"
      (SignalEngine.evaluate [mkRow b (cols (-1) 0); mkRow b (cols 1 0)]) = [s] /\
    SignalEngine.signal s = SignalEngine.BUY /\
    SignalEngine.detail s = "Bullish crossover"%string.
Proof.
  intros b cols.
  destruct (macd_rule_spec [] (mkRow b (cols (-1) 0)) (mkRow b (cols 1 0))) as [H _].
  destruct (H 1 0 (-1) 0 eq_refl eq_refl eq_refl eq_refl) as (s & Hs & Hbuy & _).
  exists s. split; [exact Hs|]. apply Hbuy. split; lra.
Defined.

(** ** The aggregate judgment *)

Section AggregateFacts.

Import SignalEngine Endpoints.

Lemma count_signal_cons j s sigs :
  count_signal j (s :: sigs)
  = ((match signal s, j with
      | BUY, BUY | SELL, SELL | NEUTRAL, NEUTRAL => 1
      | _, _ => 0
      end) + count_signal j sigs)%nat.
Proof.
  unfold count_signal. simpl. destruct (signal s), j; reflexivity.
Qed.

Lemma count_signal_total sigs :
  (count_signal BUY sigs + count_signal SELL sigs + count_signal NEUTRAL sigs
   = length sigs)%nat.
Proof.
  induction sigs as [|s sigs IH]; [reflexivity|].
  rewrite !count_signal_cons. simpl length. destruct (signal s); lia.
Qed.

Lemma overall_of_spec (b s : nat) :
  (overall_of b s = BUY <-> (s < b)%nat) /\
  (overall_of b s = SELL <-> (b < s)%nat) /\
  (overall_of b s = NEUTRAL <-> b = s).
Proof.
  unfold overall_of.
  destruct (Nat.ltb_spec s b); [|destruct (Nat.ltb_spec b s)];
    repeat split; intros; try discriminate; try lia; reflexivity.
Qed.

(** C7.  The aggregate judgment of [get_signals]: with [buys] and [sells]
    the numbers of BUY and SELL signals, the overall result is BUY iff
    [buys > sells], SELL iff [sells > buys], and NEUTRAL iff they are equal,
    in particular for no signal at all; the three counts add up to the
    number of signals; and the body returned by [get_signals] carries this
    judgment and these counts for the signals it lists. *)
Theorem overall_spec (sigs : list Signal) :
  let buys := count_signal BUY sigs in
  let sells := count_signal SELL sigs in
  (overall sigs = BUY <-> (sells < buys)%nat) /\
  (overall sigs = SELL <-> (buys < sells)%nat) /\
  (overall sigs = NEUTRAL <-> buys = sells) /\
  overall [] = NEUTRAL /\
  (buys + sells + count_signal NEUTRAL sigs = length sigs)%nat /\
  (forall env enrich ticker period interval w body w',
     get_signals env enrich ticker period interval w = (Ok body, w') ->
     s_signals body = sigs ->
     s_overall body = overall sigs /\
     s_buy_count body = buys /\ s_sell_count body = sells /\
     s_neutral_count body = count_signal NEUTRAL sigs).
Proof.
  intros buys sells.
  destruct (overall_of_spec buys sells) as (HB & HS & HN).
  split; [exact HB|]. split; [exact HS|]. split; [exact HN|].
  split; [reflexivity|]. split; [apply count_signal_total|].
  intros env enrich ticker period interval w body w' Hrun Hsigs.
  unfold get_signals, http_guard, try_except in Hrun.
  unfold mbind, M_bind in Hrun.
  destruct (Fetcher.fetch_enriched _ _ _ _ _ w) as [[v|e] w1].
  2:{ destruct e; discriminate Hrun. }
  destruct v as [df|q]; simpl in Hrun; [|discriminate Hrun].
  injection Hrun as <- _. simpl in Hsigs. subst sigs. simpl. auto.
Qed.

End AggregateFacts.

(** Two BUY signals against one SELL give BUY; one against one gives
    NEUTRAL. *)
Lemma overall_spec_witness :
  let sg := fun j => SignalEngine.mkSignal "RSI" j None "" in
  Endpoints.overall [sg SignalEngine.BUY; sg SignalEngine.NEUTRAL;
                     sg SignalEngine.SELL; sg SignalEngine.BUY] = SignalEngine.BUY /\
  Endpoints.overall [sg SignalEngine.BUY; sg SignalEngine.SELL] = SignalEngine.NEUTRAL.
Proof.
  intros sg. split.
  - destruct (overall_spec [sg SignalEngine.BUY; sg SignalEngine.NEUTRAL;
                            sg SignalEngine.SELL; sg SignalEngine.BUY]) as (HB & _).
    apply HB. vm_compute. lia.
  - destruct (overall_spec [sg SignalEngine.BUY; sg SignalEngine.SELL])
      as (_ & _ & HN & _).
    apply HN. reflexivity.
Defined.

(** ** The Fibonacci endpoint *)

Section FibonacciFacts.

Import Endpoints.

Lemma level_ok (k : string) (x y want : Q) :
  x == y -> Py.round y 2 == want ->
  (fun (g : string * Py.float) (w : string * Q) =>
     fst g = fst w /\ exists v, snd g = Some v /\ v == snd w)
    (k, Py.fround (Some x) 2) (k, want).
Proof.
  intros Hxy Hw. split; [reflexivity|]. exists (Py.round x 2).
  split; [reflexivity|]. simpl. now rewrite (round_comp x y 2 Hxy).
Qed.

Lemma level_round (k : string) (x y : Q) :
  x == y ->
  (fun (g : string * Py.float) (w : string * Q) =>
     fst g = fst w /\ exists v, snd g = Some v /\ v == snd w)
    (k, Py.fround (Some x) 2) (k, Py.round y 2).
Proof. intros H. now apply (level_ok k x y). Qed.

Lemma fibonacci_levels_rounded (hi lo : Q) :
  same_levels (fibonacci_levels (Some hi) (Some lo))
    (map (fun kv => (fst kv, Py.round (snd kv) 2)) (formula_levels hi lo)).
Proof.
  unfold same_levels, fibonacci_levels, formula_levels.
  cbn [map fst snd Py.fsub Py.fmul].
  repeat (constructor; [apply level_round; ring|]).
  constructor.
Qed.









End FibonacciFacts.


(** ** The WebSocket manager *)

Section WSFacts.

Import WSManager.

Implicit Types (pool : gmap string (list nat)) (l dead : list nat) (ws : nat).

Lemma remove_first_perm ws l : ws ∈ l -> l ≡ₚ ws :: list_remove_first ws l.
Proof.
  induction l as [|x l IH]; intros Hin.
  - inversion Hin.
  - simpl. destruct (Nat.eqb_spec x ws) as [->|Hne]; [reflexivity|].
    apply elem_of_cons in Hin as [->|Hin]; [congruence|].
    rewrite (IH Hin) at 1. apply Permutation_swap.
Qed.

Lemma remove_first_sublist ws l : sublist (list_remove_first ws l) l.
Proof.
  induction l as [|x l IH]; simpl; [constructor|].
  destruct (Nat.eqb x ws); [by apply sublist_cons | by apply sublist_skip].
Qed.

Lemma remove_all_perm dead : forall l, dead ⊆+ l -> dead ++ remove_all l dead ≡ₚ l.
Proof.
  induction dead as [|ws dead IH]; intros l Hsub; [reflexivity|].
  assert (Hin : ws ∈ l).
  { eapply elem_of_submseteq; [|exact Hsub]. left. }
  unfold remove_all. simpl. unfold mem. rewrite (bool_decide_eq_true_2 _ Hin).
  fold (remove_all (list_remove_first ws l) dead).
  rewrite (remove_first_perm ws l Hin) at 2.
  constructor. apply IH.
  apply (submseteq_app_inv_l _ _ [ws]). simpl.
  now rewrite <- (remove_first_perm ws l Hin).
Qed.

Lemma remove_all_sublist dead : forall l, sublist (remove_all l dead) l.
Proof.
  induction dead as [|ws dead IH]; intros l; [reflexivity|].
  unfold remove_all. simpl. destruct (mem ws l).
  - etransitivity; [apply IH | apply remove_first_sublist].
  - apply IH.
Qed.

Lemma dead_of_sublist raises k l : sublist (dead_of raises k l) l.
Proof.
  revert k. induction l as [|ws l IH]; intros k; simpl; [constructor|].
  destruct (raises k); [by apply sublist_skip | by apply sublist_cons].
Qed.

Lemma elem_of_dead_of raises k l ws :
  ws ∈ dead_of raises k l <-> exists i, l !! i = Some ws /\ raises (k + i)%nat = true.
Proof.
  revert k. induction l as [|x l IH]; intros k; simpl.
  - split; [intros H; inversion H | intros (i & H & _); discriminate H].
  - split.
    + destruct (raises k) eqn:E.
      * intros H. apply elem_of_cons in H as [->|H].
        -- exists 0%nat. rewrite Nat.add_0_r. auto.
        -- apply IH in H as (i & Hi & Hr). exists (S i).
           rewrite <- Nat.add_succ_comm. auto.
      * intros H. apply IH in H as (i & Hi & Hr). exists (S i).
        rewrite <- Nat.add_succ_comm. auto.
    + intros ([|i] & Hi & Hr).
      * rewrite Nat.add_0_r in Hr. rewrite Hr. simpl in Hi. injection Hi as ->. left.
      * assert (ws ∈ dead_of raises (S k) l).
        { apply IH. exists i. rewrite Nat.add_succ_comm. auto. }
        destruct (raises k); [right|]; assumption.
Qed.

Lemma remove_if_present_other ticker pool ws other :
  other <> ticker -> remove_if_present ticker pool ws !! other = pool !! other.
Proof.
  intros Hne. unfold remove_if_present.
  destruct (mem _ _); [|reflexivity]. now rewrite lookup_insert_ne.
Qed.

Lemma remove_if_present_same ticker pool ws :
  remove_if_present ticker pool ws !! ticker
  = (fun l => if mem ws l then list_remove_first ws l else l) <$> pool !! ticker.
Proof.
  unfold remove_if_present, pool_get.
  destruct (pool !! ticker) as [l|] eqn:E; simpl.
  - destruct (mem ws l); [apply lookup_insert_eq | now rewrite E].
  - now rewrite E.
Qed.

Lemma fold_remove_other ticker dead : forall pool other,
  other <> ticker ->
  fold_left (remove_if_present ticker) dead pool !! other = pool !! other.
Proof.
  induction dead as [|ws dead IH]; intros pool other Hne; simpl; [reflexivity|].
  rewrite IH by assumption. now apply remove_if_present_other.
Qed.

Lemma fold_remove_same ticker dead : forall pool,
  fold_left (remove_if_present ticker) dead pool !! ticker
  = (fun l => remove_all l dead) <$> pool !! ticker.
Proof.
  induction dead as [|ws dead IH]; intros pool; simpl.
  - now destruct (pool !! ticker).
  - rewrite IH, remove_if_present_same. now destruct (pool !! ticker).
Qed.


Lemma dead_of_all raises l : forall k,
  (forall i, (i < length l)%nat -> raises (k + i)%nat = true) ->
  dead_of raises k l = l.
Proof.
  induction l as [|ws l IH]; intros k H; simpl; [reflexivity|].
  rewrite <- (Nat.add_0_r k) at 1. rewrite (H 0%nat) by (simpl; lia).
  f_equal. apply IH. intros i Hi. rewrite Nat.add_succ_comm. apply H. simpl. lia.
Qed.

Lemma broadcast_lookup raises pool ticker :
  broadcast raises pool ticker !! ticker
  = (fun l => remove_all l (dead_of raises 0 (pool_get pool ticker))) <$> pool !! ticker.
Proof. unfold broadcast. apply fold_remove_same. Qed.

Lemma broadcast_pool_get raises pool ticker :
  pool_get (broadcast raises pool ticker) ticker
  = remove_all (pool_get pool ticker) (dead_of raises 0 (pool_get pool ticker)).
Proof.
  unfold pool_get at 1. rewrite broadcast_lookup. unfold pool_get.
  destruct (pool !! ticker) as [l|]; reflexivity.
Qed.

(** C9.  [WSManager.broadcast(ticker, payload)], with [raises i] telling
    whether the [i]-th send raises: the subscriber lists of the other
    tickers are unchanged; no key of the pool is deleted or created; the
    ticker's list loses exactly the connections whose send failed (the failed
    ones together with those left are the old list, in the old order; a
    connection is among the failed ones iff one of the sends to it raised;
    and when no connection is listed twice, the ones left are the ones none of
    whose sends failed); the ticker's entry stays, with an empty list, when
    every send fails; whereas [disconnect] of the only subscriber deletes the
    entry. *)
Theorem broadcast_spec (raises : nat -> bool) (pool : gmap string (list nat))
    (ticker : string) :
  let subs := pool_get pool ticker in
  let dead := dead_of raises 0 subs in
  let pool' := broadcast raises pool ticker in
  (forall other, other <> ticker -> pool' !! other = pool !! other) /\
  (forall t, is_Some (pool' !! t) <-> is_Some (pool !! t)) /\
  dead ++ pool_get pool' ticker ≡ₚ subs /\
  sublist (pool_get pool' ticker) subs /\
  (forall ws, ws ∈ dead <-> exists i, subs !! i = Some ws /\ raises i = true) /\
  (NoDup subs -> forall ws, ws ∈ pool_get pool' ticker <-> ws ∈ subs /\ ws ∉ dead) /\
  (is_Some (pool !! ticker) ->
   (forall i, (i < length subs)%nat -> raises i = true) ->
   pool' !! ticker = Some []) /\
  (forall ws, pool !! ticker = Some [ws] -> disconnect pool ticker ws !! ticker = None).
Proof.
  intros subs dead pool'.
  assert (Hperm : dead ++ pool_get pool' ticker ≡ₚ subs).
  { unfold pool'. rewrite broadcast_pool_get. apply remove_all_perm.
    apply sublist_submseteq, dead_of_sublist. }
  split; [|split; [|split; [|split; [|split; [|split; [|split]]]]]].
  - intros other Hne. unfold pool', broadcast. now apply fold_remove_other.
  - intros t. destruct (decide (t = ticker)) as [->|Hne].
    + unfold pool'. rewrite broadcast_lookup. apply fmap_is_Some.
    + unfold pool', broadcast. now rewrite fold_remove_other.
  - exact Hperm.
  - unfold pool'. rewrite broadcast_pool_get. apply remove_all_sublist.
  - intros ws. apply (elem_of_dead_of raises 0).
  - intros Hnd ws.
    assert (Hnd' : NoDup (dead ++ pool_get pool' ticker)) by now rewrite Hperm.
    apply NoDup_app in Hnd' as (_ & Hdisj & _).
    rewrite <- Hperm. rewrite elem_of_app. split.
    + intros Hin. split; [now right|]. intros Hd. exact (Hdisj ws Hd Hin).
    + intros [[Hd|Hin] Hnd']; [contradiction|exact Hin].
  - intros [l Hl] Hall.
    assert (Hdead : dead = subs) by (apply (dead_of_all raises subs 0); exact Hall).
    unfold pool'. rewrite broadcast_lookup, Hl. simpl. f_equal.
    assert (Hlen : length (dead ++ pool_get pool' ticker) = length subs)
      by now rewrite Hperm.
    rewrite Hdead, length_app in Hlen.
    unfold pool' in Hlen. rewrite broadcast_pool_get in Hlen.
    unfold subs, pool_get in Hlen. rewrite Hl in Hlen. simpl in Hlen.
    fold (pool_get pool ticker).
    unfold pool_get. rewrite Hl. simpl.
    apply length_zero_iff_nil. lia.
  - intros ws Hl. unfold disconnect.
    rewrite remove_if_present_same, Hl. simpl.
    unfold mem. rewrite bool_decide_eq_true_2 by left.
    simpl. rewrite Nat.eqb_refl. apply lookup_delete_eq.
Qed.

End WSFacts.

(** Three subscribers of AAPL, the second of which is dead; and a single
    subscriber whose send fails. *)
Lemma broadcast_spec_witness :
  let pool : gmap string (list nat) :=
    <["AAPL"%string := [1; 2; 3]%nat]> (<["MSFT"%string := [4]%nat]> ∅) in
  let second := fun i => Nat.eqb i 1 in
  (forall ws, ws ∈ WSManager.pool_get (WSManager.broadcast second pool "AAPL") "AAPL"
              <-> ws ∈ [1; 3]%nat) /\
  WSManager.broadcast (fun _ => true) pool "MSFT" !! "MSFT"%string = Some [] /\
  WSManager.disconnect pool "MSFT" 4%nat !! "MSFT"%string = None.
Proof.
  intros pool second. split; [|split].
  - intros ws.
    destruct (broadcast_spec second pool "AAPL") as (_ & _ & _ & _ & _ & H & _).
    assert (Hnd : NoDup (WSManager.pool_get pool "AAPL"))
      by (vm_compute; repeat (apply NoDup_cons_2; [rewrite ?elem_of_cons, ?elem_of_nil; lia|]);
          apply NoDup_nil_2).
    rewrite (H Hnd ws).
    vm_compute WSManager.pool_get. vm_compute WSManager.dead_of.
    rewrite !elem_of_cons, !elem_of_nil. lia.
  - destruct (broadcast_spec (fun _ => true) pool "MSFT") as (_ & _ & _ & _ & _ & _ & H & _).
    apply H; [now exists [4%nat] | reflexivity].
  - destruct (broadcast_spec (fun _ => true) pool "MSFT") as (_ & _ & _ & _ & _ & _ & _ & H).
    apply H. reflexivity.
Defined.

(** ** The throttle *)

Section ThrottleFacts.

Import Fetcher Endpoints Server.

Variable env : Env.
Variable enrich : list Bar -> list Row.

Lemma quiet_preserves {A} (m : M A) : quiet m -> preserves throttle_inv m.
Proof.
  intros Hq w [Hs Hl]. destruct (Hq w) as [E1 E2].
  unfold throttle_inv. rewrite E1, E2. auto.
Qed.

Lemma preserves_ret P {A} (a : A) : preserves P (mret a).
Proof. intros w H. exact H. Qed.

Lemma preserves_raise P {A} (e : exn) : preserves P (@raise A e).
Proof. intros w H. exact H. Qed.

Lemma preserves_bind P {A B} (m : M A) (k : A -> M B) :
  preserves P m -> (forall a, preserves P (k a)) -> preserves P (m ≫= k).
Proof.
  intros Hm Hk w H. unfold mbind, M_bind.
  specialize (Hm w H). destruct (m w) as [[a|e] w1]; simpl in *.
  - now apply Hk.
  - exact Hm.
Qed.

Lemma preserves_try_except P {A} (m : M A) (h : exn -> M A) :
  preserves P m -> (forall e, preserves P (h e)) -> preserves P (try_except m h).
Proof.
  intros Hm Hh w H. unfold try_except.
  specialize (Hm w H). destruct (m w) as [[a|e] w1]; simpl in *.
  - exact Hm.
  - now apply Hh.
Qed.

Lemma quiet_get_world : quiet get_world.
Proof. intros w. split; reflexivity. Qed.

Lemma quiet_put_cache c : quiet (put_cache c).
Proof. intros w. split; reflexivity. Qed.

Lemma quiet_time_time : quiet (time_time env).
Proof. intros w. split; reflexivity. Qed.

Lemma quiet_time_sleep d : quiet (time_sleep d).
Proof. intros w. split; reflexivity. Qed.

Lemma quiet_yf_history t p i : quiet (yf_history env t p i).
Proof.
  intros w. unfold yf_history. destruct (outcome _); split; reflexivity.
Qed.

Lemma quiet_yf_info t : quiet (yf_info env t).
Proof. intros w. split; reflexivity. Qed.

Lemma quiet_idle d : quiet (idle d).
Proof. intros w. split; reflexivity. Qed.

(** What [yahoo_throttle] does to the world. *)
Lemma yahoo_throttle_run (w : World) :
  let now := clock w + lag env (nreads w) in
  let wait := YAHOO_MIN_GAP - (now - _last_yahoo_call w) in
  let t := (if Py.ltb 0 wait then now + wait else now) + lag env (S (nreads w)) in
  yahoo_throttle env w
  = (Ok tt, mkWorld t t (cache w) (S (S (nreads w))) (ncalls w)
              (Acquired t :: (if Py.ltb 0 wait then [Slept wait] else []) ++ trace w)).
Proof.
  intros now wait t. unfold yahoo_throttle, mbind, M_bind. simpl.
  fold now. fold wait. unfold t. destruct (Py.ltb 0 wait); reflexivity.
Qed.

Hypothesis lag_nonneg : forall n, 0 <= lag env n.

Lemma yahoo_throttle_gap (w : World) :
  _last_yahoo_call w + YAHOO_MIN_GAP <= _last_yahoo_call (snd (yahoo_throttle env w)).
Proof.
  rewrite yahoo_throttle_run. cbn [snd _last_yahoo_call].
  pose proof (lag_nonneg (nreads w)) as L1.
  pose proof (lag_nonneg (S (nreads w))) as L2.
  set (wait := YAHOO_MIN_GAP - (clock w + lag env (nreads w) - _last_yahoo_call w)).
  destruct (Py.ltb 0 wait) eqn:E.
  - unfold wait. lra.
  - apply ltb_ge in E. unfold wait in E. lra.
Qed.

Lemma acquired_times_app tr1 tr2 :
  acquired_times (tr1 ++ tr2) = acquired_times tr1 ++ acquired_times tr2.
Proof.
  induction tr1 as [|[t|t|t|d] tr1 IH]; simpl; congruence.
Qed.

Lemma preserves_yahoo_throttle : preserves throttle_inv (yahoo_throttle env).
Proof.
  intros w [Hs Hl]. pose proof (yahoo_throttle_gap w) as Hgap.
  rewrite yahoo_throttle_run in *. cbn [snd _last_yahoo_call trace] in *.
  unfold throttle_inv. cbn [trace _last_yahoo_call acquired_times].
  rewrite acquired_times_app.
  assert (E : acquired_times
                (if Py.ltb 0 (YAHOO_MIN_GAP -
                     (clock w + lag env (nreads w) - _last_yahoo_call w))
                 then [Slept (YAHOO_MIN_GAP -
                     (clock w + lag env (nreads w) - _last_yahoo_call w))]
                 else []) = []) by (destruct (Py.ltb _ _); reflexivity).
  rewrite E. cbn [app]. split; [|lra].
  cbn [spaced]. split; [|exact Hs].
  destruct (acquired_times (trace w)) as [|t1 ts]; [exact I|]. lra.
Qed.


Ltac pres :=
  repeat first
    [ apply preserves_ret
    | apply preserves_raise
    | apply preserves_yahoo_throttle
    | apply quiet_preserves;
      first [ apply quiet_get_world | apply quiet_put_cache | apply quiet_time_time
            | apply quiet_time_sleep | apply quiet_yf_history | apply quiet_yf_info
            | apply quiet_idle ]
    | apply preserves_bind; [|intros ?]
    | apply preserves_try_except; [|intros ?]
    | progress lazy zeta
    | match goal with
      | |- preserves _ (match ?x with _ => _ end) => destruct x
      | |- preserves _ (if ?b then _ else _) => destruct b
      end ].

Lemma preserves_cache_get key : preserves throttle_inv (cache_get env key).
Proof. unfold cache_get. pres. Qed.

Lemma preserves_cache_set key v ttl : preserves throttle_inv (cache_set env key v ttl).
Proof. unfold cache_set. pres. Qed.

Lemma preserves_safe_history t p i : preserves throttle_inv (safe_history env t p i).
Proof. unfold safe_history. pres. Qed.

Lemma preserves_fetch_enriched t p i :
  preserves throttle_inv (fetch_enriched env enrich t p i).
Proof.
  unfold fetch_enriched. pres;
    first [apply preserves_cache_get | apply preserves_safe_history
          | apply preserves_cache_set].
Qed.

Lemma preserves_fetch_quote_data t : preserves throttle_inv (fetch_quote_data env t).
Proof.
  unfold fetch_quote_data, quote_locals, fdiv, int_of_float.
  repeat (pres; first [apply preserves_cache_get | apply preserves_cache_set]).
Qed.

Lemma preserves_get_signals t p i :
  preserves throttle_inv (get_signals env enrich t p i).
Proof.
  unfold get_signals, http_guard, as_frame.
  repeat (pres; try apply preserves_fetch_enriched).
Qed.

Lemma preserves_get_fibonacci t p :
  preserves throttle_inv (get_fibonacci env enrich t p).
Proof.
  unfold get_fibonacci, http_guard, as_frame.
  repeat (pres; try apply preserves_fetch_enriched).
Qed.

Lemma serve_inv (r : request) (w : World) :
  throttle_inv w -> throttle_inv (serve env enrich r w).
Proof.
  destruct r; simpl.
  - apply (quiet_preserves _ (quiet_idle d)).
  - apply preserves_yahoo_throttle.
  - apply preserves_safe_history.
  - apply preserves_fetch_enriched.
  - apply preserves_fetch_quote_data.
  - apply preserves_get_signals.
  - apply preserves_get_fibonacci.
Qed.

Lemma run_inv (rs : list request) : forall w,
  throttle_inv w -> throttle_inv (run env enrich rs w).
Proof.
  induction rs as [|r rs IH]; intros w H; simpl; [exact H|].
  apply IH. now apply serve_inv.
Qed.

End ThrottleFacts.

(** C1 (amended).  In every sequential run, whatever the upstream answers and
    however long it takes, provided time does not run backwards between two
    clock readings: [yahoo_throttle] returns normally, at least
    [YAHOO_MIN_GAP] seconds after the time recorded in [_last_yahoo_call]
    (the previous return of [yahoo_throttle], for whatever ticker), and
    records its own return time there; hence over any sequence of requests
    served from boot, consecutive returns of [yahoo_throttle] are at least
    [YAHOO_MIN_GAP] apart. *)
Theorem throttle_min_gap (env : Env) (enrich : list Bar -> list Row) :
  (forall n, 0 <= lag env n) ->
  (forall w,
     let w' := snd (Fetcher.yahoo_throttle env w) in
     fst (Fetcher.yahoo_throttle env w) = Ok tt /\
     _last_yahoo_call w + YAHOO_MIN_GAP <= _last_yahoo_call w' /\
     clock w' = _last_yahoo_call w' /\
     exists tr, trace w' = Acquired (_last_yahoo_call w') :: tr ++ trace w /\
                Server.acquired_times tr = []) /\
  (forall rs t0,
     Server.spaced (Server.acquired_times (trace (Server.run env enrich rs (boot t0))))).
Proof.
  intros Hlag. split.
  - intros w w'. split; [|split; [|split]].
    + now rewrite yahoo_throttle_run.
    + now apply yahoo_throttle_gap.
    + unfold w'. now rewrite yahoo_throttle_run.
    + unfold w'. rewrite yahoo_throttle_run. cbn [snd trace _last_yahoo_call].
      eexists. split; [reflexivity|]. now destruct (Py.ltb _ _).
  - intros rs t0.
    apply (run_inv env enrich Hlag rs (boot t0)). split; exact I.
Qed.

(** An upstream that answers every call in one second, and three requests
    in a row. *)
Lemma throttle_min_gap_witness :
  let b := mkBar (Some 10) (Some 11) (Some 9) (Some 10) (Some 1000) in
  let env := mkEnv (fun _ => 0) (fun _ _ _ _ => mkResponse 1 (inr [b; b]))
                   (fun _ _ => mkInfo 1 None) (fun _ => "2026-01-01T00:00:00"%string) in
  let rs := [Server.FetchQuote "AAPL"; Server.SafeHistory "MSFT" "1mo" (Some "1d"%string);
             Server.Throttle] in
  Server.spaced (Server.acquired_times
                   (trace (Server.run env (map (fun x => mkRow x ∅)) rs (boot 100)))).
Proof.
  intros b env rs.
  apply (throttle_min_gap env (map (fun x => mkRow x ∅))).
  intros n. simpl. lra.
Defined.

(** C1 as stated fails: the first upstream call takes five seconds, so the
    next [yahoo_throttle] does not wait at all and returns zero seconds after
    that call returned; and the second call returns one second after the
    first one did. *)
Lemma throttle_gap_after_return_fails :
  let b := mkBar (Some 10) (Some 11) (Some 9) (Some 10) (Some 1000) in
  let env := mkEnv (fun _ => 0)
                   (fun n _ _ _ => mkResponse (if Nat.eqb n 0 then 5 else 1) (inr [b; b]))
                   (fun _ _ => mkInfo 0 None) (fun _ => "2026-01-01T00:00:00"%string) in
  let rs := [Server.SafeHistory "AAPL" "1mo" (Some "1d"%string);
             Server.SafeHistory "MSFT" "1mo" (Some "1d"%string)] in
  let w := Server.run env (map (fun x => mkRow x ∅)) rs (boot 100) in
  rev (trace w) = [Acquired 100; CallStart 100; CallEnd 105;
                   Acquired 105; CallStart 105; CallEnd 106] /\
  ~ Server.gap_after_return None (rev (trace w)) /\
  ~ Server.spaced (Server.call_end_times (trace w)).
Proof.
  intros b env rs w. split; [|split].
  - vm_compute. reflexivity.
  - vm_compute. intros (_ & H & _). apply H. reflexivity.
  - vm_compute. intros (H & _). apply H. reflexivity.
Qed.

(** ** The fetchers *)

Section FetcherFacts.

Import Fetcher.

Variable env : Env.

Lemma yahoo_throttle_ncalls w : ncalls (snd (yahoo_throttle env w)) = ncalls w.
Proof. now rewrite yahoo_throttle_run. Qed.

Lemma bind_ok {A B} (m : M A) (k : A -> M B) w a w1 :
  m w = (Ok a, w1) -> (m ≫= k) w = k a w1.
Proof. intros E. unfold mbind, M_bind. now rewrite E. Qed.

Lemma bind_raise {A B} (m : M A) (k : A -> M B) w e w1 :
  m w = (Raise e, w1) -> (m ≫= k) w = (Raise e, w1).
Proof. intros E. unfold mbind, M_bind. now rewrite E. Qed.

Lemma bind_ret {A B} (a : A) (k : A -> M B) w : ((mret a : M A) ≫= k) w = k a w.
Proof. reflexivity. Qed.

Lemma bind_raise_now {A B} (e : exn) (k : A -> M B) w :
  ((raise e : M A) ≫= k) w = (Raise e, w).
Proof. reflexivity. Qed.

Lemma cache_get_total key w :
  exists v w0, cache_get env key w = (Ok v, w0) /\ ncalls w0 = ncalls w.
Proof.
  unfold cache_get, mbind, M_bind, get_world.
  destruct (TTLCache._store (cache w) !! key); eexists; eexists; split; reflexivity.
Qed.

Lemma cache_set_total key v ttl w :
  exists w', cache_set env key v ttl w = (Ok tt, w').
Proof.
  unfold cache_set, mbind, M_bind, get_world.
  destruct (Nat.leb _ _); eexists; reflexivity.
Qed.

Lemma yahoo_throttle_total w :
  exists w1, yahoo_throttle env w = (Ok tt, w1) /\ ncalls w1 = ncalls w.
Proof. rewrite yahoo_throttle_run. eexists. split; reflexivity. Qed.

Lemma yf_history_returns t p i w rows :
  outcome (history env (ncalls w) t p i) = inr rows ->
  exists w1, yf_history env t p i w = (Ok rows, w1) /\ ncalls w1 = S (ncalls w).
Proof.
  intros H. unfold yf_history. rewrite H. eexists. split; reflexivity.
Qed.

Lemma yf_history_raises t p i w msg :
  outcome (history env (ncalls w) t p i) = inl msg ->
  exists w1, yf_history env t p i w = (Raise (UpstreamError msg), w1) /\
             ncalls w1 = S (ncalls w).
Proof.
  intros H. unfold yf_history. rewrite H. eexists. split; reflexivity.
Qed.

(** A rate-limit error of the first upstream call makes [safe_history]
    sleep 30 seconds and call once more; the outcome of that second call,
    value or exception, is the outcome of [safe_history]. *)
Lemma safe_history_rate_limited t p i w msg :
  let r1 := history env (ncalls w) t p i in
  let r2 := history env (S (ncalls w)) t p i in
  outcome r1 = inl msg ->
  Py.contains "Too Many Requests" msg || Py.contains "Rate" msg = true ->
  exists w1 w',
    yahoo_throttle env w = (Ok tt, w1) /\
    safe_history env t p i w
    = (match outcome r2 with inl m => Raise (UpstreamError m) | inr rows => Ok rows end,
       w') /\
    ncalls w' = S (S (ncalls w)) /\
    trace w' = [CallEnd (clock w1 + took r1 + 30 + took r2);
                CallStart (clock w1 + took r1 + 30);
                Slept 30; CallEnd (clock w1 + took r1); CallStart (clock w1)] ++ trace w1.
Proof.
  intros r1 r2 Hout Hmsg.
  destruct (yahoo_throttle_total w) as (w1 & E1 & Hn1).
  exists w1. unfold safe_history. rewrite (bind_ok _ _ _ _ _ E1).
  unfold try_except. unfold yf_history at 1. rewrite Hn1. fold r1. rewrite Hout.
  cbn [str]. rewrite Hmsg.
  unfold mbind, M_bind, time_sleep, yf_history. cbn [ncalls clock trace].
  rewrite ?Hn1. fold r2.
  destruct (outcome r2); eexists; (split; [exact E1|]); repeat split;
    cbn [ncalls]; rewrite ?Hn1; reflexivity.
Qed.

(** Any other exception of the first call leaves [safe_history] at once. *)
Lemma safe_history_other_error t p i w msg :
  outcome (history env (ncalls w) t p i) = inl msg ->
  Py.contains "Too Many Requests" msg || Py.contains "Rate" msg = false ->
  exists w', safe_history env t p i w = (Raise (UpstreamError msg), w') /\
             ncalls w' = S (ncalls w).
Proof.
  intros Hout Hmsg.
  destruct (yahoo_throttle_total w) as (w1 & E1 & Hn1).
  unfold safe_history. rewrite (bind_ok _ _ _ _ _ E1).
  unfold try_except. unfold yf_history at 1. rewrite Hn1, Hout.
  cbn [str]. rewrite Hmsg. eexists. split; reflexivity.
Qed.

Lemma yf_info_total t w :
  exists w1, yf_info env t w
             = (Ok (default ∅ (info_outcome (info env (ncalls w) t))), w1).
Proof. eexists. reflexivity. Qed.

Lemma time_time_total w : exists t w1, time_time env w = (Ok t, w1).
Proof. eexists. eexists. reflexivity. Qed.

(** C2.  [fetch_quote_data], when the cache has no live quote and its
    upstream history call raises (a rate-limit error or any other): after the
    throttle it makes that one call and raises the exception at once; there is
    no cooldown and no second call. *)
Theorem quote_fetch_has_no_retry (ticker : string) (w : World) (msg : string) :
  fst (cache_get env ("quote:" +:+ ticker) w) = Ok None ->
  outcome (history env (ncalls w) ticker "5d" None) = inl msg ->
  exists w1 w',
    yahoo_throttle env (snd (cache_get env ("quote:" +:+ ticker) w)) = (Ok tt, w1) /\
    fetch_quote_data env ticker w = (Raise (UpstreamError msg), w') /\
    ncalls w' = S (ncalls w) /\
    trace w' = [CallEnd (clock w1 + took (history env (ncalls w) ticker "5d" None));
                CallStart (clock w1)] ++ trace w1.
Proof.
  intros Hmiss Hout.
  destruct (cache_get_total ("quote:" +:+ ticker) w) as (v & w0 & E & Hn).
  rewrite E in Hmiss. injection Hmiss as ->. rewrite E. cbn [snd].
  destruct (yahoo_throttle_total w0) as (w1 & E1 & Hn1).
  exists w1. unfold fetch_quote_data. rewrite (bind_ok _ _ _ _ _ E). cbn iota.
  rewrite (bind_ok _ _ _ _ _ E1).
  unfold mbind, M_bind, yf_history. rewrite Hn1, Hn, Hout.
  eexists. repeat split. exact E1.
Qed.

(** The locals for a history of exactly one bar: the percentage is not
    computed by a division. *)
Lemma quote_locals_one_bar b w :
  quote_locals b [] w
  = (Ok (mkQuoteLocals (Some 0) (Close b) (Py.fsub (Close b) (Some 0)) (Some 0)), w).
Proof. reflexivity. Qed.

(** Whatever the history, the guard on [prev_close] keeps the division
    from raising. *)
Lemma quote_locals_total last_row before w :
  exists l, quote_locals last_row before w = (Ok l, w).
Proof.
  unfold quote_locals.
  destruct before as [|prev_row rest].
  - eexists. reflexivity.
  - destruct (Close prev_row) as [y|]; simpl.
    + unfold Py.truthy, fdiv. destruct (Qeq_bool y 0); eexists; reflexivity.
    + eexists. reflexivity.
Qed.

(** The quote built from a history of exactly one bar. *)
Lemma fetch_quote_data_one_bar ticker w b :
  fst (cache_get env ("quote:" +:+ ticker) w) = Ok None ->
  outcome (history env (ncalls w) ticker "5d" None) = inr [b] ->
  match Volume b with
  | Some v =>
      exists ts w',
        fetch_quote_data env ticker w
        = (Ok (QuoteDict
                 (mkQuote ticker (Py.fround (Close b) 2)
                    (Py.fround (Py.fsub (Close b) (Some 0)) 2) (Py.fround (Some 0) 2)
                    (Py.fround (Open b) 2) (Py.fround (High b) 2) (Py.fround (Low b) 2)
                    (Py.fround (Some 0) 2) (Py.trunc v)
                    (default ∅ (info_outcome (info env (S (ncalls w)) ticker)) !! "marketCap")
                    (default ∅ (info_outcome (info env (S (ncalls w)) ticker)) !! "trailingPE")
                    (default ∅ (info_outcome (info env (S (ncalls w)) ticker))
                       !! "fiftyTwoWeekHigh")
                    (default ∅ (info_outcome (info env (S (ncalls w)) ticker))
                       !! "fiftyTwoWeekLow")
                    ts)), w')
  | None =>
      exists w', fetch_quote_data env ticker w
                 = (Raise (ValueError "cannot convert float NaN to integer"), w')
  end.
Proof.
  intros Hmiss Hout.
  destruct (cache_get_total ("quote:" +:+ ticker) w) as (v & w0 & E & Hn).
  rewrite E in Hmiss. injection Hmiss as ->.
  destruct (yahoo_throttle_total w0) as (w1 & E1 & Hn1).
  rewrite <- Hn, <- Hn1 in Hout.
  destruct (yf_history_returns _ _ _ _ _ Hout) as (w2 & E2 & Hn2).
  destruct (yf_info_total ticker w2) as (w3 & E3).
  rewrite Hn2, Hn1, Hn in E3.
  unfold fetch_quote_data. rewrite (bind_ok _ _ _ _ _ E). cbn iota.
  rewrite (bind_ok _ _ _ _ _ E1). rewrite (bind_ok _ _ _ _ _ E2).
  cbn [rev app]. cbn iota.
  rewrite (bind_ok _ _ _ _ _ (quote_locals_one_bar b w2)).
  cbn [prev_close price change pct].
  rewrite (bind_ok _ _ _ _ _ E3).
  unfold int_of_float. destruct (Volume b) as [vol|].
  - rewrite bind_ret.
    destruct (time_time_total w3) as (t & w4 & E4).
    rewrite (bind_ok _ _ _ _ _ E4).
    match goal with
    | |- context [cache_set env ?k ?v ?ttl] =>
        destruct (cache_set_total k v ttl w4) as (w5 & E5);
        rewrite (bind_ok _ _ _ _ _ E5)
    end.
    eexists. eexists. reflexivity.
  - rewrite bind_raise_now. eexists. reflexivity.
Qed.


(** C10.  [fetch_quote_data] on a history of exactly one bar (the cache
    holding no live quote for the ticker): the locals are [prev_close = 0],
    [change] equal to the last price and [pct = 0], computed without a
    division; no [ZeroDivisionError] is raised; when the bar's volume is a
    number the quote is returned with [prev_close] 0, [change] equal to the
    (rounded) last price and [change_percent] 0; the only failure left is
    the [ValueError] of [int(NaN)] on a missing volume. *)
Theorem fetch_quote_data_single_bar (ticker : string) (w : World) (b : Bar) :
  fst (cache_get env ("quote:" +:+ ticker) w) = Ok None ->
  outcome (history env (ncalls w) ticker "5d" None) = inr [b] ->
  (forall w0, exists l,
     quote_locals b [] w0 = (Ok l, w0) /\
     prev_close l = Some 0 /\ pct l = Some 0 /\ price l = Close b /\
     match Close b with
     | Some p => exists c, change l = Some c /\ c == p
     | None => change l = None
     end) /\
  (forall msg, fst (fetch_quote_data env ticker w) <> Raise (ZeroDivisionError msg)) /\
  (forall v, Volume b = Some v ->
     exists q, fst (fetch_quote_data env ticker w) = Ok (QuoteDict q) /\
               q_prev_close q = Some 0 /\
               q_change q = q_price q /\
               q_change_percent q = Some 0 /\
               q_price q = Py.fround (Close b) 2) /\
  (Volume b = None ->
     exists msg, fst (fetch_quote_data env ticker w) = Raise (ValueError msg)).
Proof.
  intros Hmiss Hout.
  pose proof (fetch_quote_data_one_bar ticker w b Hmiss Hout) as H.
  split; [|split; [|split]].
  - intros w0. eexists. split; [apply quote_locals_one_bar|].
    cbn [prev_close pct price change]. repeat split.
    destruct (Close b) as [p|]; [|reflexivity].
    eexists. split; [reflexivity|]. ring.
  - intros msg. destruct (Volume b).
    + destruct H as (ts & w' & ->). discriminate.
    + destruct H as (w' & ->). discriminate.
  - intros v Hv. rewrite Hv in H. destruct H as (ts & w' & ->).
    eexists. split; [reflexivity|]. cbn [q_prev_close q_change q_price q_change_percent].
    repeat split.
    destruct (Close b) as [p|]; [|reflexivity].
    cbn [Py.fsub Py.fround option_map]. f_equal. apply round_comp. ring.
  - intros Hv. rewrite Hv in H. destruct H as (w' & ->). eexists. reflexivity.
Qed.

End FetcherFacts.

(** A first request for the quote of AAPL, one second after boot time 1000,
    answered by a single bar that closed at 187.44. *)
Lemma fetch_quote_data_single_bar_witness :
  let b := mkBar (Some 186.5) (Some 188) (Some 186) (Some 187.44) (Some 52000) in
  let env := mkEnv (fun _ => 0) (fun _ _ _ _ => mkResponse 1 (inr [b]))
                   (fun _ _ => mkInfo 1 None) (fun _ => "2026-01-01T00:00:00"%string) in
  exists q, fst (Fetcher.fetch_quote_data env "AAPL" (boot 1000)) = Ok (QuoteDict q) /\
            q_prev_close q = Some 0 /\
            q_change q = q_price q /\
            q_change_percent q = Some 0 /\
            exists p, q_price q = Some p /\ p == 187.44.
Proof.
  intros b env.
  destruct (fetch_quote_data_single_bar env "AAPL" (boot 1000) b eq_refl eq_refl)
    as (_ & _ & H & _).
  destruct (H 52000 eq_refl) as (q & Hq & H1 & H2 & H3 & H4).
  exists q. repeat split; try assumption.
  rewrite H4. eexists. split; [reflexivity|]. vm_compute. reflexivity.
Defined.

(** The upstream answers the first call with a rate-limit error and every
    later call with data: [safe_history] (the history fetch of
    [fetch_enriched]) sleeps 30 seconds, calls a second time and returns the
    data; [fetch_quote_data] makes its one call, does not sleep, does not call
    again, and raises the rate-limit error. *)
Lemma quote_fetch_has_no_retry_witness :
  let b := mkBar (Some 10) (Some 11) (Some 9) (Some 10) (Some 1000) in
  let msg := "Too Many Requests. Rate limited. Try after a while."%string in
  let env := mkEnv (fun _ => 0)
                   (fun n _ _ _ =>
                      if Nat.eqb n 0 then mkResponse 1 (inl msg)
                      else mkResponse 1 (inr [b; b]))
                   (fun _ _ => mkInfo 1 None) (fun _ => "2026-01-01T00:00:00"%string) in
  let h := Fetcher.safe_history env "AAPL" "1mo" (Some "1d"%string) (boot 1000) in
  let q := Fetcher.fetch_quote_data env "AAPL" (boot 1000) in
  (fst h = Ok [b; b] /\ ncalls (snd h) = 2%nat /\
   rev (trace (snd h)) = [Acquired 1000; CallStart 1000; CallEnd 1001; Slept 30;
                          CallStart 1031; CallEnd 1032]) /\
  (fst q = Raise (UpstreamError msg) /\ ncalls (snd q) = 1%nat /\
   rev (trace (snd q)) = [Acquired 1000; CallStart 1000; CallEnd 1001]).
Proof.
  intros b msg env h q. split.
  - repeat split; vm_compute; reflexivity.
  - destruct (quote_fetch_has_no_retry env "AAPL" (boot 1000) msg eq_refl eq_refl)
      as (w1 & w' & Hthr & Hrun & Hn & Htr).
    unfold q. rewrite Hrun. cbn [fst snd]. split; [reflexivity|]. split; [exact Hn|].
    rewrite Htr. injection Hthr as <-. vm_compute. reflexivity.
Defined.
(* ===================================================================== *)
(** * Part III: further properties of the code                             *)
(* ===================================================================== *)

(** ** The TTL cache: [set] *)

Section CacheSetFacts.

Context {V : Type}.

Implicit Types (c : TTLCache.t V).

Lemma set_lookup_key c key value ttl t1 t2 :
  TTLCache._store (TTLCache.set c key value ttl t1 t2) !! key = Some (t2 + ttl, value).
Proof. unfold TTLCache.set. simpl. apply lookup_insert_eq. Qed.

(** X1.  A value written by [set] is what [get] returns under the same key until
    its time to live has run out, whatever the cache held before and whether
    or not the store was at capacity; from then on [get] finds nothing and
    removes the entry. *)
Theorem ttlcache_set_then_get c (key : string) (value : V) (ttl t1 t2 now : Q) :
  let c' := TTLCache.set c key value ttl t1 t2 in
  (now < t2 + ttl -> TTLCache.get c' key now = (Some value, c')) /\
  (t2 + ttl <= now ->
     fst (TTLCache.get c' key now) = None /\
     TTLCache._store (snd (TTLCache.get c' key now)) !! key = None).
Proof.
  intros c'. pose proof (set_lookup_key c key value ttl t1 t2) as Hk. fold c' in Hk.
  split; intros Hnow; unfold TTLCache.get; rewrite Hk; cbn [fst snd]; cmp.
  - reflexivity.
  - split; [reflexivity|]. simpl. apply lookup_delete_eq.
Qed.

(** X2.  What [set] does to the entries under the other keys: below capacity it
    touches none of them; at capacity it drops exactly those that have
    expired at the time of the sweep and keeps every live one.  The write is
    never refused, and the store grows by at most one entry. *)
Theorem ttlcache_set_other_keys c (key : string) (value : V) (ttl t1 t2 : Q)
    (k : string) :
  k <> key ->
  let s := TTLCache._store c in
  let s' := TTLCache._store (TTLCache.set c key value ttl t1 t2) in
  ((size s < TTLCache._max c)%nat -> s' !! k = s !! k) /\
  ((TTLCache._max c <= size s)%nat ->
     forall entry, s' !! k = Some entry <-> s !! k = Some entry /\ t1 < fst entry) /\
  is_Some (s' !! key) /\
  (size s' <= S (size s))%nat.
Proof.
  intros Hne s s'. subst s s'. unfold TTLCache.set. cbn [TTLCache._store].
  split; [|split; [|split]].
  - intros Hlt. apply Nat.leb_gt in Hlt. rewrite Hlt.
    now rewrite lookup_insert_ne by congruence.
  - intros Hge. apply Nat.leb_le in Hge. rewrite Hge. intros entry.
    rewrite lookup_insert_ne by congruence.
    unfold TTLCache.sweep. rewrite map_lookup_filter_Some.
    unfold TTLCache.live. cbn [snd]. rewrite Is_true_true. rewrite ltb_lt. reflexivity.
  - rewrite lookup_insert_eq. eauto.
  - rewrite map_size_insert.
    assert (Hs : (size (if Nat.leb (TTLCache._max c) (size (TTLCache._store c))
                        then TTLCache.sweep t1 (TTLCache._store c)
                        else TTLCache._store c) <= size (TTLCache._store c))%nat).
    { destruct (Nat.leb _ _); [|reflexivity].
      apply map_subseteq_size. apply map_filter_subseteq. }
    destruct (_ !! key); unfold id; lia.
Qed.

End CacheSetFacts.

Lemma ttlcache_set_then_get_witness :
  let c := TTLCache.set (TTLCache.init 1) "df:AAPL:1d:5m" 1%nat 30 0 0 in
  let c' := TTLCache.set c "quote:AAPL" 2%nat 60 100 100 in
  TTLCache.get c' "quote:AAPL" 159 = (Some 2%nat, c') /\
  fst (TTLCache.get c' "quote:AAPL" 160) = None.
Proof.
  intros c c'. split.
  - apply (ttlcache_set_then_get c "quote:AAPL" 2%nat 60 100 100 159). lra.
  - apply (ttlcache_set_then_get c "quote:AAPL" 2%nat 60 100 100 160). lra.
Defined.

Lemma ttlcache_set_other_keys_witness :
  let c := TTLCache.set (TTLCache.init 1) "df:AAPL:1d:5m" 1%nat 30 0 0 in
  let c' := TTLCache.set c "quote:AAPL" 2%nat 60 100 100 in
  let c'' := TTLCache.set c "quote:AAPL" 2%nat 60 10 10 in
  TTLCache._store c' !! "df:AAPL:1d:5m" = None /\
  TTLCache._store c'' !! "df:AAPL:1d:5m" = Some (0 + 30, 1%nat).
Proof.
  intros c c' c''. split.
  - destruct (ttlcache_set_other_keys c "quote:AAPL" 2%nat 60 100 100 "df:AAPL:1d:5m")
      as (_ & H & _); [discriminate|].
    specialize (H ltac:(vm_compute; lia)).
    destruct (TTLCache._store c' !! "df:AAPL:1d:5m") as [e|] eqn:E; [|reflexivity].
    apply H in E as [E1 E2]. vm_compute in E1. injection E1 as <-. simpl in E2. lra.
  - destruct (ttlcache_set_other_keys c "quote:AAPL" 2%nat 60 10 10 "df:AAPL:1d:5m")
      as (_ & H & _); [discriminate|].
    apply (H ltac:(vm_compute; lia)). split; [reflexivity|]. simpl. lra.
Defined.

(** ** The rate limiter: the sliding window *)

Section RateLimiterWindow.

Import RateLimiter.

Lemma filter_filter_cutoff (c1 c2 : Q) (l : list Q) :
  c1 <= c2 ->
  List.filter (fun t => Py.ltb c2 t) (List.filter (fun t => Py.ltb c1 t) l)
  = List.filter (fun t => Py.ltb c2 t) l.
Proof.
  intros Hc. induction l as [|x l IH]; [reflexivity|].
  cbn [List.filter]. destruct (Py.ltb c1 x) eqn:E1.
  - cbn [List.filter]. now rewrite IH.
  - rewrite IH. apply ltb_ge in E1.
    now rewrite (proj2 (ltb_ge c2 x)) by lra.
Qed.

(** The answers of [allow] depend on the limiter only through its limit,
    its window and what it holds for the client. *)
Lemma calls_ext (r1 r2 : t) client times :
  _limit r1 = _limit r2 -> _window r1 = _window r2 ->
  default [] (_hits r1 !! client) = default [] (_hits r2 !! client) ->
  calls r1 client times = calls r2 client times.
Proof.
  revert r1 r2. induction times as [|now rest IH]; intros r1 r2 Hl Hw Hh; [reflexivity|].
  cbn [calls]. unfold allow, recent. rewrite Hl, Hw, Hh.
  destruct (_ <=? _)%Z; cbn [fst snd]; f_equal; apply IH; cbn;
    rewrite ?lookup_insert_eq; reflexivity.
Qed.

(** The pruning of [allow] loses nothing as long as the clock does not run
    backwards: what the limiter holds for a client is the accepted timestamps
    that are still inside the window of the latest call. *)
Lemma calls_window_from (r : t) client (accepted_before : list Q) (last : Q) times :
  0 < _window r ->
  default [] (_hits r !! client)
    = List.filter (fun u => Py.ltb (last - _window r) u) accepted_before ->
  Sorted Qle (last :: times) ->
  calls r client times = window_answers (_limit r) (_window r) accepted_before times.
Proof.
  intros Hw. revert r Hw accepted_before last.
  induction times as [|now rest IH]; intros r Hw acc last Hh Hs; [reflexivity|].
  assert (Hlast : last <= now).
  { apply Sorted_inv in Hs as [_ Hhd]. now inversion Hhd. }
  assert (Hs' : Sorted Qle (now :: rest)) by (now apply Sorted_inv in Hs).
  assert (Hkept : recent r client now
                  = List.filter (fun u => Py.ltb (now - _window r) u) acc).
  { unfold recent. rewrite Hh. apply filter_filter_cutoff. lra. }
  cbn [calls window_answers]. unfold allow. rewrite Hkept.
  destruct (_ <=? _)%Z; cbn [fst snd]; f_equal.
  - apply (IH (mk _ (_limit r) (_window r)) Hw acc now); [|exact Hs'].
    cbn. now rewrite lookup_insert_eq.
  - apply (IH (mk _ (_limit r) (_window r)) Hw (acc ++ [now]) now); [|exact Hs'].
    cbn. rewrite lookup_insert_eq. cbn. rewrite List.filter_app. cbn [List.filter].
    now rewrite (proj2 (ltb_lt (now - _window r) now)) by lra.
Qed.

(** X3.  For a client the limiter holds nothing for, calling at times that do
    not decrease, [allow] with a positive window is the sliding-window rule
    itself: a call is accepted exactly when fewer than [limit] of the earlier
    accepted calls lie less than [window] seconds back. *)
Theorem ratelimiter_sliding_window (r : t) (client : string) (times : list Q) :
  0 < _window r ->
  default [] (_hits r !! client) = [] ->
  Sorted Qle times ->
  calls r client times = window_answers (_limit r) (_window r) [] times.
Proof.
  intros Hw Hh Hs. destruct times as [|t0 rest]; [reflexivity|].
  apply (calls_window_from r client [] t0 (t0 :: rest) Hw).
  - now rewrite Hh.
  - constructor; [exact Hs|]. constructor. apply Qle_refl.
Qed.

(** X4.  The limiter's lists stay short: if no client has more than [limit]
    timestamps on record, that is still so after any call of [allow]. *)
Theorem ratelimiter_hits_bounded (r : t) (client : string) (now : Q) :
  (0 <= _limit r)%Z ->
  (forall c l, _hits r !! c = Some l -> (Z.of_nat (length l) <= _limit r)%Z) ->
  forall c l, _hits (snd (allow r client now)) !! c = Some l ->
              (Z.of_nat (length l) <= _limit r)%Z.
Proof.
  intros Hlim Hinv c l.
  assert (Hkept : (Z.of_nat (length (recent r client now)) <= _limit r)%Z).
  { unfold recent. destruct (_hits r !! client) as [old|] eqn:E; simpl default.
    - specialize (Hinv client old E).
      pose proof (List.filter_length_le
                    (fun t => Py.ltb (now - _window r) t) old). lia.
    - simpl. lia. }
  unfold allow. destruct (Z.leb_spec (_limit r) (Z.of_nat (length (recent r client now))));
    cbn [snd _hits]; destruct (decide (client = c)) as [->|Hne];
    rewrite ?lookup_insert_eq, ?lookup_insert_ne by assumption;
    try (apply Hinv).
  - intros [= <-]. exact Hkept.
  - intros [= <-]. rewrite length_app. simpl. lia.
Qed.

End RateLimiterWindow.

Lemma ratelimiter_sliding_window_witness :
  RateLimiter.calls (RateLimiter.init 2 60) "10.0.0.7" [0; 30; 59; 60; 61; 90]
  = RateLimiter.window_answers 2 60 [] [0; 30; 59; 60; 61; 90].
Proof.
  apply (ratelimiter_sliding_window (RateLimiter.init 2 60) "10.0.0.7").
  - reflexivity.
  - reflexivity.
  - repeat (constructor; try (vm_compute; discriminate)).
Defined.

Lemma ratelimiter_hits_bounded_witness :
  exists l,
    RateLimiter._hits (snd (RateLimiter.allow (RateLimiter.init 2 60) "10.0.0.7" 5))
      !! "10.0.0.7"%string = Some l /\
    (Z.of_nat (length l) <= 2)%Z.
Proof.
  exists [5]. split; [vm_compute; reflexivity|].
  apply (ratelimiter_hits_bounded (RateLimiter.init 2 60) "10.0.0.7" 5 ltac:(simpl; lia))
    with (c := "10.0.0.7"%string).
  - intros c l H. simpl in H. rewrite lookup_empty in H. discriminate.
  - vm_compute. reflexivity.
Defined.

(** ** The signal engine: the other rules and the shape of the result *)

Section SignalRules.

Import SignalEngine.

Ltac only_rule :=
  rewrite evaluate_two; rewrite !of_indicator_app;
  repeat match goal with
  | |- context [of_indicator ?n (rsi_rule ?c)] =>
      first [ rewrite (of_indicator_all n (rsi_rule c))
                by (intros ? Hs; apply (rsi_rule_indicator _ _ Hs))
            | rewrite (of_indicator_none n (rsi_rule c))
                by (intros ? Hs; rewrite (rsi_rule_indicator _ _ Hs); discriminate) ]
  | |- context [of_indicator ?n (macd_rule ?c ?p)] =>
      rewrite (of_indicator_none n (macd_rule c p))
        by (intros ? Hs; rewrite (macd_rule_indicator _ _ _ Hs); discriminate)
  | |- context [of_indicator ?n (bollinger_rule ?c)] =>
      first [ rewrite (of_indicator_all n (bollinger_rule c))
                by (intros ? Hs; apply (bollinger_rule_indicator _ _ Hs))
            | rewrite (of_indicator_none n (bollinger_rule c))
                by (intros ? Hs; rewrite (bollinger_rule_indicator _ _ Hs); discriminate) ]
  | |- context [of_indicator ?n (stochastic_rule ?c)] =>
      first [ rewrite (of_indicator_all n (stochastic_rule c))
                by (intros ? Hs; apply (stochastic_rule_indicator _ _ Hs))
            | rewrite (of_indicator_none n (stochastic_rule c))
                by (intros ? Hs; rewrite (stochastic_rule_indicator _ _ Hs); discriminate) ]
  | |- context [of_indicator ?n (vwap_rule ?c)] =>
      first [ rewrite (of_indicator_all n (vwap_rule c))
                by (intros ? Hs; apply (vwap_rule_indicator _ _ Hs))
            | rewrite (of_indicator_none n (vwap_rule c))
                by (intros ? Hs; rewrite (vwap_rule_indicator _ _ Hs); discriminate) ]
  end;
  rewrite ?app_nil_r; cbn [app].

Lemma evaluate_rsi rest prev cur :
  of_indicator "RSI" (evaluate (rest ++ [prev; cur])) = rsi_rule cur.
Proof. now only_rule. Qed.

Lemma evaluate_stochastic rest prev cur :
  of_indicator "Stochastic" (evaluate (rest ++ [prev; cur])) = stochastic_rule cur.
Proof. now only_rule. Qed.

Lemma evaluate_vwap rest prev cur :
  of_indicator "VWAP" (evaluate (rest ++ [prev; cur])) = vwap_rule cur.
Proof. now only_rule. Qed.

Ltac q_facts :=
  repeat match goal with
  | H : Py.leb _ _ = true |- _ => apply leb_le in H
  | H : Py.leb _ _ = false |- _ => apply leb_gt in H
  | H : Py.ltb _ _ = true |- _ => apply ltb_lt in H
  | H : Py.ltb _ _ = false |- _ => apply ltb_ge in H
  end.

(** X5.  The RSI rule of [evaluate] on a series of at least two bars: a defined
    RSI gives exactly one RSI signal, BUY iff it is below 30, SELL iff it is
    above 70 and NEUTRAL in between (30 and 70 included), carrying the RSI
    rounded to one decimal; an undefined RSI gives none. *)
Theorem rsi_rule_spec (rest : list Row) (prev cur : Row) :
  (forall rsi, row_get cur "rsi_14" = Some (Some rsi) ->
     exists s, of_indicator "RSI" (evaluate (rest ++ [prev; cur])) = [s] /\
               (signal s = BUY <-> rsi < 30) /\
               (signal s = SELL <-> 70 < rsi) /\
               (signal s = NEUTRAL <-> 30 <= rsi /\ rsi <= 70) /\
               value s = Some (Py.round rsi 1)) /\
  (notnull (row_get cur "rsi_14") = false ->
     of_indicator "RSI" (evaluate (rest ++ [prev; cur])) = []).
Proof.
  rewrite evaluate_rsi. unfold rsi_rule, safe. split.
  - intros rsi Hr. rewrite Hr.
    destruct (Py.ltb rsi 30) eqn:E1; [|destruct (Py.ltb 70 rsi) eqn:E2]; q_facts;
      (eexists; split; [reflexivity|]; cbn [signal value];
       repeat split; intros; try discriminate; try lra; try reflexivity;
       repeat match goal with H : _ /\ _ |- _ => destruct H end; try lra).
  - intros Hn. destruct (row_get cur "rsi_14") as [[x|]|]; [discriminate| |]; reflexivity.
Qed.

(** X6.  The Stochastic rule of [evaluate]: a defined %K gives exactly one
    signal, BUY iff it is below 20, SELL iff it is above 80 and NEUTRAL in
    between; an undefined %K gives none. *)
Theorem stochastic_rule_spec (rest : list Row) (prev cur : Row) :
  (forall sk, row_get cur "stoch_k" = Some (Some sk) ->
     exists s, of_indicator "Stochastic" (evaluate (rest ++ [prev; cur])) = [s] /\
               (signal s = BUY <-> sk < 20) /\
               (signal s = SELL <-> 80 < sk) /\
               (signal s = NEUTRAL <-> 20 <= sk /\ sk <= 80) /\
               value s = Some (Py.round sk 1)) /\
  (notnull (row_get cur "stoch_k") = false ->
     of_indicator "Stochastic" (evaluate (rest ++ [prev; cur])) = []).
Proof.
  rewrite evaluate_stochastic. unfold stochastic_rule, safe. split.
  - intros sk Hr. rewrite Hr.
    destruct (Py.ltb sk 20) eqn:E1; [|destruct (Py.ltb 80 sk) eqn:E2]; q_facts;
      (eexists; split; [reflexivity|]; cbn [signal value];
       repeat split; intros; try discriminate; try lra; try reflexivity;
       repeat match goal with H : _ /\ _ |- _ => destruct H end; try lra).
  - intros Hn. destruct (row_get cur "stoch_k") as [[x|]|]; [discriminate| |]; reflexivity.
Qed.

(** X7.  The VWAP rule of [evaluate]: a VWAP that is defined and not zero gives
    exactly one signal, BUY iff the close is a number above the VWAP and SELL
    in every other case (a close at or below it, or no close), never NEUTRAL;
    a VWAP that is undefined or equal to zero gives none. *)
Theorem vwap_rule_spec (rest : list Row) (prev cur : Row) :
  (forall vw, row_get cur "vwap" = Some (Some vw) -> ~ vw == 0 ->
     exists s, of_indicator "VWAP" (evaluate (rest ++ [prev; cur])) = [s] /\
               (signal s = BUY <-> exists p, Close (bar cur) = Some p /\ vw < p) /\
               (signal s = SELL <-> ~ exists p, Close (bar cur) = Some p /\ vw < p) /\
               signal s <> NEUTRAL /\
               value s = Some (Py.round vw 2)) /\
  (forall vw, row_get cur "vwap" = Some (Some vw) -> vw == 0 ->
     of_indicator "VWAP" (evaluate (rest ++ [prev; cur])) = []) /\
  (notnull (row_get cur "vwap") = false ->
     of_indicator "VWAP" (evaluate (rest ++ [prev; cur])) = []).
Proof.
  rewrite evaluate_vwap. unfold vwap_rule, safe. split; [|split].
  - intros vw Hv Hnz. rewrite Hv, (truthy_nonzero vw Hnz).
    eexists. split; [reflexivity|]. cbn [signal value].
    destruct (Close (bar cur)) as [p|]; cbn [Py.fgt].
    + assert (A : (exists p', Some p = Some p' /\ vw < p') <-> vw < p).
      { split; [intros (p' & [= <-] & Hlt); exact Hlt | intros Hlt; eauto]. }
      rewrite A.
      destruct (Py.ltb vw p) eqn:E; q_facts;
        (split; [|split; [|split]]; [split| split | | reflexivity];
         intros; try discriminate; try reflexivity; try lra).
    + assert (A : (exists p', @None Q = Some p' /\ vw < p') <-> False).
      { split; [intros (p' & Hp & _); discriminate | tauto]. }
      rewrite A.
      split; [|split; [|split]]; [split| split | | reflexivity];
        intros; try discriminate; try reflexivity; tauto.
  - intros vw Hv Hz. now rewrite Hv, (truthy_zero vw Hz).
  - intros Hn. destruct (row_get cur "vwap") as [[x|]|]; [discriminate| |]; reflexivity.
Qed.

(** X8.  The Bollinger rule of [evaluate] when both bands are defined and
    neither is zero: exactly one signal, SELL iff the close is at or above
    the upper band, BUY iff it is below the upper band and at or below the
    lower one, NEUTRAL iff it lies strictly between the bands or is no
    number; the signal carries no value. *)
Theorem bollinger_rule_spec (rest : list Row) (prev cur : Row) (u l : Q) :
  row_get cur "bb_upper" = Some (Some u) ->
  row_get cur "bb_lower" = Some (Some l) ->
  ~ u == 0 -> ~ l == 0 ->
  exists s, of_indicator "Bollinger" (evaluate (rest ++ [prev; cur])) = [s] /\
            value s = None /\
            match Close (bar cur) with
            | Some p =>
                (signal s = SELL <-> u <= p) /\
                (signal s = BUY <-> p < u /\ p <= l) /\
                (signal s = NEUTRAL <-> p < u /\ l < p)
            | None => signal s = NEUTRAL
            end.
Proof.
  intros Hu Hl Hu0 Hl0. rewrite evaluate_bollinger.
  rewrite (bollinger_rule_nonzero cur u l); unfold safe; rewrite ?Hu, ?Hl; auto.
  destruct (Close (bar cur)) as [p|]; cbn [Py.fge Py.fle].
  - destruct (Py.leb u p) eqn:E1; [|destruct (Py.leb p l) eqn:E2]; q_facts;
      (eexists; split; [reflexivity|]; cbn [signal value]; split; [reflexivity|];
       repeat split; intros; try discriminate; try lra; try reflexivity;
       repeat match goal with H : _ /\ _ |- _ => destruct H end; try lra).
  - eexists. split; [reflexivity|]. split; reflexivity.
Qed.

Lemma rule_names_rsi cur :
  map indicator (rsi_rule cur) = [] \/ map indicator (rsi_rule cur) = ["RSI"%string].
Proof.
  unfold rsi_rule. destruct (safe cur "rsi_14"); [|now left].
  destruct (Py.ltb _ _); [|destruct (Py.ltb _ _)]; now right.
Qed.

Lemma rule_names_macd cur prev :
  map indicator (macd_rule cur prev) = [] \/
  map indicator (macd_rule cur prev) = ["MACD"%string].
Proof.
  unfold macd_rule.
  destruct (safe cur "macd"); [|now left].
  destruct (safe cur "macd_signal"); [|now left].
  destruct (row_get prev "macd") as [[?|]|]; try now left.
  destruct (row_get prev "macd_signal") as [[?|]|]; try now left.
  destruct (_ && _); [|destruct (_ && _)]; now right.
Qed.

Lemma rule_names_bollinger cur :
  map indicator (bollinger_rule cur) = [] \/
  map indicator (bollinger_rule cur) = ["Bollinger"%string].
Proof.
  unfold bollinger_rule.
  destruct (safe cur "bb_upper"); [|now left].
  destruct (safe cur "bb_lower"); [|now left].
  destruct (_ && _); [|now left].
  destruct (Py.fge _ _); [|destruct (Py.fle _ _)]; now right.
Qed.

Lemma rule_names_stochastic cur :
  map indicator (stochastic_rule cur) = [] \/
  map indicator (stochastic_rule cur) = ["Stochastic"%string].
Proof.
  unfold stochastic_rule. destruct (safe cur "stoch_k"); [|now left].
  destruct (Py.ltb _ _); [|destruct (Py.ltb _ _)]; now right.
Qed.

Lemma rule_names_vwap cur :
  map indicator (vwap_rule cur) = [] \/ map indicator (vwap_rule cur) = ["VWAP"%string].
Proof.
  unfold vwap_rule. destruct (safe cur "vwap"); [|now left].
  destruct (Py.truthy _); [now right | now left].
Qed.

(** X9.  The shape of what [evaluate] returns: nothing for a series of fewer
    than two bars; otherwise at most one signal per indicator, in the fixed
    order RSI, MACD, Bollinger, Stochastic, VWAP, so never more than five. *)
Theorem evaluate_shape (df : list Row) :
  ((length df < 2)%nat -> evaluate df = []) /\
  map indicator (evaluate df)
    `sublist_of` ["RSI"; "MACD"; "Bollinger"; "Stochastic"; "VWAP"]%string /\
  (length (evaluate df) <= 5)%nat.
Proof.
  assert (Hshort : (length df < 2)%nat -> evaluate df = []).
  { intros H. unfold evaluate. apply Nat.ltb_lt in H. now rewrite H. }
  assert (Hsub : map indicator (evaluate df)
                   `sublist_of` ["RSI"; "MACD"; "Bollinger"; "Stochastic"; "VWAP"]%string).
  { destruct (Nat.lt_ge_cases (length df) 2) as [H|H].
    - rewrite (Hshort H). apply sublist_nil_l.
    - destruct (rev df) as [|cur [|prev rest]] eqn:E;
        apply (f_equal (@rev Row)) in E; rewrite rev_involutive in E; subst df;
        try (simpl in H; lia).
      assert (E : rev (cur :: prev :: rest) = rev rest ++ [prev; cur])
        by (simpl; now rewrite <- app_assoc).
      rewrite E, evaluate_two, !map_app.
      destruct (rule_names_rsi cur) as [-> | ->];
        destruct (rule_names_macd cur prev) as [-> | ->];
        destruct (rule_names_bollinger cur) as [-> | ->];
        destruct (rule_names_stochastic cur) as [-> | ->];
        destruct (rule_names_vwap cur) as [-> | ->];
        cbn [app];
        repeat first [ apply sublist_nil_l | apply sublist_skip | apply sublist_cons ]. }
  split; [exact Hshort|]. split; [exact Hsub|].
  apply sublist_length in Hsub. now rewrite length_map in Hsub.
Qed.

End SignalRules.

(** A current bar with RSI 25.3, %K 85, VWAP 9.5 and a close of 10 between
    the bands 12 and 8. *)
Lemma rsi_rule_spec_witness :
  let b := mkBar (Some 10) (Some 11) (Some 9) (Some 10) (Some 1000) in
  let cur := mkRow b (<["rsi_14"%string := Some 25.3]> ∅) in
  exists s, SignalEngine.of_indicator "RSI" (SignalEngine.evaluate [mkRow b ∅; cur]) = [s] /\
            SignalEngine.signal s = SignalEngine.BUY.
Proof.
  intros b cur.
  destruct (rsi_rule_spec [] (mkRow b ∅) cur) as [H _].
  destruct (H 25.3 eq_refl) as (s & Hs & Hbuy & _).
  exists s. split; [exact Hs|]. apply Hbuy. lra.
Defined.

Lemma stochastic_rule_spec_witness :
  let b := mkBar (Some 10) (Some 11) (Some 9) (Some 10) (Some 1000) in
  let cur := mkRow b (<["stoch_k"%string := Some 85]> ∅) in
  exists s, SignalEngine.of_indicator "Stochastic"
              (SignalEngine.evaluate [mkRow b ∅; cur]) = [s] /\
            SignalEngine.signal s = SignalEngine.SELL.
Proof.
  intros b cur.
  destruct (stochastic_rule_spec [] (mkRow b ∅) cur) as [H _].
  destruct (H 85 eq_refl) as (s & Hs & _ & Hsell & _).
  exists s. split; [exact Hs|]. apply Hsell. lra.
Defined.

Lemma vwap_rule_spec_witness :
  let b := mkBar (Some 10) (Some 11) (Some 9) (Some 10) (Some 1000) in
  let cur := mkRow b (<["vwap"%string := Some 9.5]> ∅) in
  exists s, SignalEngine.of_indicator "VWAP" (SignalEngine.evaluate [mkRow b ∅; cur]) = [s] /\
            SignalEngine.signal s = SignalEngine.BUY.
Proof.
  intros b cur.
  destruct (vwap_rule_spec [] (mkRow b ∅) cur) as [H _].
  destruct (H 9.5 eq_refl ltac:(intros E; vm_compute in E; discriminate E))
    as (s & Hs & Hbuy & _).
  exists s. split; [exact Hs|]. apply Hbuy. exists 10. split; [reflexivity | lra].
Defined.

Lemma bollinger_rule_spec_witness :
  let b := mkBar (Some 10) (Some 11) (Some 9) (Some 10) (Some 1000) in
  let cur := mkRow b (<["bb_upper"%string := Some 12]> (<["bb_lower"%string := Some 8]> ∅)) in
  exists s, SignalEngine.of_indicator "Bollinger"
              (SignalEngine.evaluate [mkRow b ∅; cur]) = [s] /\
            SignalEngine.signal s = SignalEngine.NEUTRAL.
Proof.
  intros b cur.
  destruct (bollinger_rule_spec [] (mkRow b ∅) cur 12 8 eq_refl eq_refl
              ltac:(intros E; vm_compute in E; discriminate E)
              ltac:(intros E; vm_compute in E; discriminate E))
    as (s & Hs & _ & Hc).
  exists s. split; [exact Hs|]. cbn in Hc. apply Hc. split; lra.
Defined.

(** ** The WebSocket manager: [connect], [disconnect] and [count] *)

Section WSConnectFacts.

Import WSManager.

Implicit Types (pool : gmap string (list nat)) (l : list nat) (ws : nat).

Lemma count_delete_Some pool ticker l :
  pool !! ticker = Some l -> count pool = (length l + count (delete ticker pool))%nat.
Proof.
  intros H. unfold count.
  apply (map_fold_delete_L (fun _ v acc => (length v + acc)%nat)); [|exact H].
  intros. lia.
Qed.

Lemma count_insert_None pool ticker l :
  pool !! ticker = None -> count (<[ticker := l]> pool) = (length l + count pool)%nat.
Proof.
  intros H. unfold count.
  apply (map_fold_insert_L (fun _ v acc => (length v + acc)%nat)); [|exact H].
  intros. lia.
Qed.

Lemma count_insert pool ticker l :
  (count (<[ticker := l]> pool) + length (pool_get pool ticker)
   = count pool + length l)%nat.
Proof.
  unfold pool_get. destruct (pool !! ticker) as [old|] eqn:E; cbn [default].
  - rewrite (count_delete_Some pool ticker old E).
    rewrite <- (insert_delete_eq pool).
    rewrite count_insert_None by apply lookup_delete_eq. simpl. lia.
  - rewrite (count_insert_None pool ticker l E). simpl. lia.
Qed.

Lemma remove_first_not_in ws l : ws ∉ l -> list_remove_first ws l = l.
Proof.
  induction l as [|x l IH]; intros H; [reflexivity|].
  apply not_elem_of_cons in H as [Hne Hin]. simpl.
  destruct (Nat.eqb_spec x ws); [congruence|]. now rewrite IH.
Qed.

Lemma remove_first_app_last ws l : ws ∉ l -> list_remove_first ws (l ++ [ws]) = l.
Proof.
  induction l as [|x l IH]; intros H; simpl.
  - now rewrite Nat.eqb_refl.
  - apply not_elem_of_cons in H as [Hne Hin].
    destruct (Nat.eqb_spec x ws); [congruence|]. now rewrite IH.
Qed.

Lemma remove_first_length ws l :
  ws ∈ l -> S (length (list_remove_first ws l)) = length l.
Proof.
  intros H. now rewrite (remove_first_perm ws l H) at 2.
Qed.

(** X10.  [connect] appends the connection to the ticker's list (creating it when
    the ticker is new), leaves every other ticker alone and raises the
    connection count by one. *)
Theorem connect_spec pool (ticker : string) (ws : nat) :
  connect pool ticker ws !! ticker = Some (pool_get pool ticker ++ [ws]) /\
  (forall other, other <> ticker -> connect pool ticker ws !! other = pool !! other) /\
  count (connect pool ticker ws) = S (count pool).
Proof.
  unfold connect. split; [apply lookup_insert_eq|]. split.
  - intros other Hne. now rewrite lookup_insert_ne.
  - pose proof (count_insert pool ticker (pool_get pool ticker ++ [ws])) as H.
    rewrite length_app in H. simpl in H. lia.
Qed.

(** X11.  [disconnect] removes one occurrence of the connection from the ticker's
    list when it is there, drops the ticker's entry when its list is then
    empty (also when the connection was not in an already empty list), never
    leaves an empty list behind, and leaves every other ticker alone. *)
Theorem disconnect_spec pool (ticker : string) (ws : nat) :
  let l := pool_get pool ticker in
  let l' := if mem ws l then list_remove_first ws l else l in
  disconnect pool ticker ws !! ticker
    = (if bool_decide (pool !! ticker = None) then None
       else match l' with [] => None | _ :: _ => Some l' end) /\
  disconnect pool ticker ws !! ticker <> Some [] /\
  (forall other, other <> ticker -> disconnect pool ticker ws !! other = pool !! other) /\
  (ws ∈ l -> S (count (disconnect pool ticker ws)) = count pool) /\
  (ws ∉ l -> count (disconnect pool ticker ws) = count pool).
Proof.
  intros l l'.
  assert (Hlook : remove_if_present ticker pool ws !! ticker
                  = (fun _ => l') <$> pool !! ticker).
  { rewrite remove_if_present_same. unfold l', l, pool_get.
    now destruct (pool !! ticker). }
  assert (H1 : disconnect pool ticker ws !! ticker
               = (if bool_decide (pool !! ticker = None) then None
                  else match l' with [] => None | _ :: _ => Some l' end)).
  { unfold disconnect. rewrite Hlook.
    destruct (pool !! ticker) as [old|] eqn:E; cbn [fmap option_fmap option_map].
    - rewrite bool_decide_eq_false_2 by discriminate.
      destruct l' as [|x r]; [apply lookup_delete_eq|]. rewrite Hlook. reflexivity.
    - rewrite bool_decide_eq_true_2 by reflexivity. rewrite Hlook. reflexivity. }
  assert (Hother : forall other, other <> ticker ->
                     disconnect pool ticker ws !! other = pool !! other).
  { intros other Hne. unfold disconnect.
    destruct (remove_if_present ticker pool ws !! ticker) as [[|x r]|];
      rewrite ?lookup_delete_ne by congruence;
      now apply remove_if_present_other. }
  assert (Hcount : (count (disconnect pool ticker ws) + length l
                    = count pool + length l')%nat).
  { unfold disconnect. rewrite Hlook.
    destruct (pool !! ticker) as [old|] eqn:E; cbn [fmap option_fmap option_map].
    - assert (Hrem : (count (remove_if_present ticker pool ws) + length l
                      = count pool + length l')%nat).
      { unfold remove_if_present. fold l. unfold l'.
        destruct (mem ws l); [apply count_insert | reflexivity]. }
      destruct l' as [|x r] eqn:El'; [|exact Hrem].
      rewrite (count_delete_Some (remove_if_present ticker pool ws) ticker [])
        in Hrem by (rewrite Hlook; reflexivity).
      exact Hrem.
    - assert (l = []) as Hl by (unfold l, pool_get; now rewrite E).
      unfold l'. rewrite Hl. cbn.
      unfold remove_if_present, pool_get. rewrite E. cbn. reflexivity. }
  split; [exact H1|]. split; [|split; [exact Hother|split]].
  - rewrite H1. destruct (bool_decide _); [discriminate|].
    destruct l'; discriminate.
  - intros Hin. unfold l', mem in Hcount. rewrite (bool_decide_eq_true_2 _ Hin) in Hcount.
    pose proof (remove_first_length ws l Hin). lia.
  - intros Hnin. unfold l', mem in Hcount. rewrite (bool_decide_eq_false_2 _ Hnin) in Hcount.
    lia.
Qed.

(** X12.  Connecting a new connection and disconnecting it again gives the pool
    back, provided the ticker was not left with an empty list (as
    [broadcast] may leave it). *)
Theorem connect_disconnect_roundtrip pool (ticker : string) (ws : nat) :
  ws ∉ pool_get pool ticker ->
  pool !! ticker <> Some [] ->
  disconnect (connect pool ticker ws) ticker ws = pool.
Proof.
  intros Hnin Hne.
  assert (Hc : pool_get (connect pool ticker ws) ticker = pool_get pool ticker ++ [ws]).
  { unfold connect, pool_get at 1. now rewrite lookup_insert_eq. }
  unfold disconnect, remove_if_present. rewrite Hc.
  unfold mem. rewrite bool_decide_eq_true_2 by (apply elem_of_app; right; left).
  rewrite (remove_first_app_last ws _ Hnin). unfold connect.
  rewrite insert_insert_eq, lookup_insert_eq.
  unfold pool_get in *. destruct (pool !! ticker) as [[|x r]|] eqn:E; cbn [default] in *.
  - congruence.
  - now apply insert_id.
  - rewrite delete_insert_eq. now apply delete_id.
Qed.

(** X13.  A broadcast lowers the connection count by the number of sends that
    failed. *)
Theorem broadcast_count (raises : nat -> bool) pool (ticker : string) :
  (count (broadcast raises pool ticker)
   + length (dead_of raises 0 (pool_get pool ticker)) = count pool)%nat.
Proof.
  set (l := pool_get pool ticker). set (dead := dead_of raises 0 l).
  assert (Hperm : dead ++ remove_all l dead ≡ₚ l).
  { apply remove_all_perm. apply sublist_submseteq, dead_of_sublist. }
  assert (Hlen : (length dead + length (remove_all l dead) = length l)%nat).
  { rewrite <- length_app. now rewrite Hperm. }
  destruct (pool !! ticker) as [old|] eqn:E.
  - assert (Hb : broadcast raises pool ticker = <[ticker := remove_all l dead]> pool).
    { apply map_eq. intros k. destruct (decide (k = ticker)) as [->|Hne].
      - rewrite broadcast_lookup, E, lookup_insert_eq.
        unfold dead, l, pool_get. rewrite E. reflexivity.
      - rewrite lookup_insert_ne by congruence.
        unfold broadcast. now apply fold_remove_other. }
    rewrite Hb. pose proof (count_insert pool ticker (remove_all l dead)) as H.
    fold l in H. lia.
  - assert (Hb : broadcast raises pool ticker = pool).
    { apply map_eq. intros k. destruct (decide (k = ticker)) as [->|Hne].
      - rewrite broadcast_lookup, E. reflexivity.
      - unfold broadcast. now apply fold_remove_other. }
    rewrite Hb. assert (l = []) as Hl by (unfold l, pool_get; now rewrite E).
    unfold dead. rewrite Hl. simpl. lia.
Qed.

End WSConnectFacts.

Lemma connect_disconnect_roundtrip_witness :
  let pool : gmap string (list nat) := <["AAPL"%string := [1; 2]%nat]> ∅ in
  WSManager.disconnect (WSManager.connect pool "AAPL" 3%nat) "AAPL" 3%nat = pool /\
  WSManager.disconnect (WSManager.connect pool "MSFT" 3%nat) "MSFT" 3%nat = pool.
Proof.
  intros pool. split.
  - apply (connect_disconnect_roundtrip pool "AAPL" 3%nat).
    + change (3%nat ∉ [1; 2]%nat). rewrite !elem_of_cons, elem_of_nil. lia.
    + discriminate.
  - apply (connect_disconnect_roundtrip pool "MSFT" 3%nat).
    + change (3%nat ∉ @nil nat). apply not_elem_of_nil.
    + discriminate.
Defined.

(** ** The throttle and the fetchers: when they wait, call and cache *)

Section FetcherCalls.

Import Fetcher.

Variable env : Env.
Variable enrich : list Bar -> list Row.

(** X14.  [yahoo_throttle] delays its caller no longer than needed: with [now] its
    first clock reading, it does not sleep when [YAHOO_MIN_GAP] seconds have
    passed since [_last_yahoo_call], and otherwise sleeps exactly until
    [_last_yahoo_call + YAHOO_MIN_GAP]; it makes no upstream call and leaves
    the cache alone. *)
Theorem yahoo_throttle_return_time (w : World) :
  let now := clock w + lag env (nreads w) in
  let w' := snd (yahoo_throttle env w) in
  (_last_yahoo_call w + YAHOO_MIN_GAP <= now ->
     clock w' = now + lag env (S (nreads w)) /\
     trace w' = Acquired (clock w') :: trace w) /\
  (now < _last_yahoo_call w + YAHOO_MIN_GAP ->
     clock w' == _last_yahoo_call w + YAHOO_MIN_GAP + lag env (S (nreads w)) /\
     trace w' = Acquired (clock w')
                :: Slept (YAHOO_MIN_GAP - (now - _last_yahoo_call w)) :: trace w) /\
  ncalls w' = ncalls w /\ cache w' = cache w.
Proof.
  intros now w'. unfold w'. rewrite yahoo_throttle_run. cbn [snd clock trace ncalls cache].
  fold now. split; [|split; [|split; reflexivity]].
  - intros H. rewrite (proj2 (ltb_ge 0 (YAHOO_MIN_GAP - (now - _last_yahoo_call w))))
      by lra.
    split; reflexivity.
  - intros H. rewrite (proj2 (ltb_lt 0 (YAHOO_MIN_GAP - (now - _last_yahoo_call w))))
      by lra.
    split; [ring | reflexivity].
Qed.

(** X15.  [safe_history] calls the upstream once when that call returns or raises
    anything but a rate-limit error, whose result is then its own; after a
    rate-limit error (a message containing "Too Many Requests" or "Rate") it
    sleeps 30 seconds and calls a second and last time, and the second
    call's result, value or exception, is its own. *)
Theorem safe_history_spec (t p : string) (i : option string) (w : World) :
  let r1 := history env (ncalls w) t p i in
  let r2 := history env (S (ncalls w)) t p i in
  let res := fst (safe_history env t p i w) in
  let w' := snd (safe_history env t p i w) in
  (forall rows, outcome r1 = inr rows ->
     res = Ok rows /\ ncalls w' = S (ncalls w) /\ ~ In (Slept 30) (firstn 2 (trace w'))) /\
  (forall msg, outcome r1 = inl msg ->
     Py.contains "Too Many Requests" msg || Py.contains "Rate" msg = false ->
     res = Raise (UpstreamError msg) /\ ncalls w' = S (ncalls w)) /\
  (forall msg, outcome r1 = inl msg ->
     Py.contains "Too Many Requests" msg || Py.contains "Rate" msg = true ->
     res = match outcome r2 with
           | inl m => Raise (UpstreamError m)
           | inr rows => Ok rows
           end /\
     ncalls w' = S (S (ncalls w)) /\
     exists t1 t2 t3 t4 tr,
       trace w' = CallEnd t4 :: CallStart t3 :: Slept 30 :: CallEnd t2 :: CallStart t1 :: tr /\
       t3 = t2 + 30).
Proof.
  intros r1 r2 res w'. unfold res, w'. split; [|split].
  - intros rows Hout.
    destruct (yahoo_throttle_total env w) as (w1 & E1 & Hn1).
    unfold safe_history. rewrite (bind_ok _ _ _ _ _ E1).
    unfold try_except, yf_history. rewrite Hn1. fold r1. rewrite Hout.
    cbn [fst snd ncalls trace firstn]. rewrite ?Hn1. split; [reflexivity|].
    split; [reflexivity|]. intros [H|[H|[]]]; discriminate.
  - intros msg Hout Hmsg.
    destruct (safe_history_other_error env t p i w msg Hout Hmsg) as (w2 & -> & Hn).
    split; [reflexivity | exact Hn].
  - intros msg Hout Hmsg.
    destruct (safe_history_rate_limited env t p i w msg Hout Hmsg)
      as (w1 & w2 & _ & -> & Hn & Htr).
    split; [reflexivity|]. split; [exact Hn|].
    cbn [snd]. rewrite Htr. do 5 eexists. split; reflexivity.
Qed.

(** The time to live of an enriched frame, by interval. *)
Lemma enriched_ttl_cases (interval : string) :
  enriched_ttl interval = 30 /\ (interval = "1m" \/ interval = "5m")%string \/
  enriched_ttl interval = 90 /\ (interval = "15m" \/ interval = "30m")%string \/
  enriched_ttl interval = 180 /\
    interval <> "1m"%string /\ interval <> "5m"%string /\
    interval <> "15m"%string /\ interval <> "30m"%string.
Proof.
  unfold enriched_ttl, among. cbn [existsb].
  destruct (String.eqb_spec interval "1m"); [left; cbn; auto|].
  destruct (String.eqb_spec interval "5m"); [left; cbn; auto|].
  destruct (String.eqb_spec interval "15m"); [right; left; cbn; auto|].
  destruct (String.eqb_spec interval "30m"); [right; left; cbn; auto|].
  right. right. cbn. auto.
Qed.

Lemma cache_get_miss key w w0 :
  cache_get env key w = (Ok None, w0) ->
  TTLCache._store (cache w0) !! key = None /\
  ncalls w0 = ncalls w /\ trace w0 = trace w /\
  _last_yahoo_call w0 = _last_yahoo_call w.
Proof.
  unfold cache_get, mbind, M_bind, get_world.
  destruct (TTLCache._store (cache w) !! key) as [entry|] eqn:E.
  - unfold time_time, put_cache, TTLCache.get. cbn [cache]. rewrite E.
    destruct (Py.leb _ _); cbn; intros H; [|discriminate H]. injection H as <-.
    cbn. rewrite lookup_delete_eq. auto.
  - cbn. intros [= <-]. auto.
Qed.

Lemma cache_get_hit key w expires v :
  TTLCache._store (cache w) !! key = Some (expires, v) ->
  clock w + lag env (nreads w) < expires ->
  exists w', cache_get env key w = (Ok (Some v), w') /\
             cache w' = cache w /\ ncalls w' = ncalls w /\ trace w' = trace w /\
             _last_yahoo_call w' = _last_yahoo_call w.
Proof.
  intros E Hlt. unfold cache_get, mbind, M_bind, get_world. rewrite E.
  unfold time_time, put_cache, TTLCache.get. cbn [cache]. rewrite E. cbn [fst snd].
  rewrite (proj2 (leb_gt expires (clock w + lag env (nreads w)))) by exact Hlt.
  eexists. split; [reflexivity|]. cbn. destruct (cache w). auto.
Qed.

Lemma cache_set_stored key v ttl w :
  exists w', cache_set env key v ttl w = (Ok tt, w') /\
             TTLCache._store (cache w') !! key = Some (clock w' + ttl, v) /\
             ncalls w' = ncalls w /\ trace w' = trace w /\
             _last_yahoo_call w' = _last_yahoo_call w.
Proof.
  unfold cache_set, mbind, M_bind, get_world.
  destruct (Nat.leb _ _); eexists; (split; [reflexivity|]); cbn;
    rewrite lookup_insert_eq; auto.
Qed.


Lemma safe_history_cache t p i w :
  cache (snd (safe_history env t p i w)) = cache w.
Proof.
  destruct (yahoo_throttle_total env w) as (w1 & E1 & Hn1).
  assert (Hc : cache w1 = cache w).
  { rewrite yahoo_throttle_run in E1. now injection E1 as <-. }
  unfold safe_history. rewrite (bind_ok _ _ _ _ _ E1).
  unfold try_except, yf_history at 1.
  destruct (outcome (history env (ncalls w1) t p i)); cbn [str snd]; [|exact Hc].
  destruct (_ || _); [|exact Hc].
  unfold mbind, M_bind, time_sleep, yf_history. cbn [ncalls].
  destruct (outcome _); exact Hc.
Qed.

(** X16.  [fetch_enriched] when the cache has no live frame under its key and the
    upstream gives a non-empty history: the enriched frame is returned and
    cached; a second call for the same ticker, period and interval that reads
    the clock before the time to live has run out (30 seconds for the 1m and
    5m intervals, 90 for 15m and 30m, 180 otherwise) returns the same frame
    without calling the upstream, without waiting and without touching the
    cache; once the time to live has run out the cache misses again. *)
Theorem fetch_enriched_caches (t p i : string) (w w0 w1 : World) (b : Bar)
    (rows : list Bar) :
  cache_get env (enriched_key t p i) w = (Ok None, w0) ->
  safe_history env t p (Some i) w0 = (Ok (b :: rows), w1) ->
  exists w',
    fetch_enriched env enrich t p i w = (Ok (Frame (enrich (b :: rows))), w') /\
    ncalls w' = ncalls w1 /\
    (forall w2, cache w2 = cache w' ->
       clock w2 + lag env (nreads w2) < clock w' + enriched_ttl i ->
       exists w3,
         fetch_enriched env enrich t p i w2 = (Ok (Frame (enrich (b :: rows))), w3) /\
         ncalls w3 = ncalls w2 /\ trace w3 = trace w2 /\ cache w3 = cache w2) /\
    (forall w2, cache w2 = cache w' ->
       clock w' + enriched_ttl i <= clock w2 + lag env (nreads w2) ->
       fst (cache_get env (enriched_key t p i) w2) = Ok None).
Proof.
  intros Hmiss Hhist.
  destruct (cache_set_stored (enriched_key t p i) (Frame (enrich (b :: rows)))
              (enriched_ttl i) w1) as (w' & Eset & Hstore & Hn & _).
  exists w'. split; [|split; [exact Hn|split]].
  - unfold fetch_enriched. fold (enriched_key t p i).
    rewrite (bind_ok _ _ _ _ _ Hmiss). cbn iota.
    rewrite (bind_ok _ _ _ _ _ Hhist). cbn iota zeta.
    fold (enriched_ttl i). rewrite (bind_ok _ _ _ _ _ Eset). reflexivity.
  - intros w2 Hc Hlt. rewrite <- Hc in Hstore.
    destruct (cache_get_hit _ _ _ _ Hstore Hlt) as (w3 & Eget & Hc3 & Hn3 & Ht3 & _).
    exists w3. unfold fetch_enriched. fold (enriched_key t p i).
    rewrite (bind_ok _ _ _ _ _ Eget). cbn iota. auto.
  - intros w2 Hc Hge. rewrite <- Hc in Hstore.
    unfold cache_get, mbind, M_bind, get_world. rewrite Hstore.
    unfold time_time, put_cache, TTLCache.get. cbn [cache]. rewrite Hstore. cbn [fst snd].
    now rewrite (proj2 (leb_le (clock w' + enriched_ttl i) (clock w2 + lag env (nreads w2))))
      by exact Hge.
Qed.

(** X17.  [fetch_enriched] on an empty history: it raises [HTTPException(404)]
    and caches nothing, so the next call for the same key goes to the
    upstream again. *)
Theorem fetch_enriched_not_found (t p i : string) (w w0 w1 : World) :
  cache_get env (enriched_key t p i) w = (Ok None, w0) ->
  safe_history env t p (Some i) w0 = (Ok [], w1) ->
  fetch_enriched env enrich t p i w
    = (Raise (HTTPException 404 ("No data for " +:+ t)), w1) /\
  TTLCache._store (cache w1) !! enriched_key t p i = None.
Proof.
  intros Hmiss Hhist. split.
  - unfold fetch_enriched. fold (enriched_key t p i).
    rewrite (bind_ok _ _ _ _ _ Hmiss). cbn iota.
    now rewrite (bind_ok _ _ _ _ _ Hhist).
  - pose proof (safe_history_cache t p (Some i) w0) as Hc. rewrite Hhist in Hc.
    cbn [snd] in Hc. rewrite Hc. now apply (cache_get_miss _ _ _ Hmiss).
Qed.

(** X18.  [fetch_quote_data] when the cache has no live quote and the call
    returns a quote: it has acquired the throttle once and called the
    upstream twice (the history, then the unthrottled [stock.info]), and the
    quote is cached for 60 seconds: a second call for the same ticker that
    reads the clock before then returns the same quote without calling the
    upstream and without waiting. *)
Theorem fetch_quote_data_caches (ticker : string) (w w0 w' : World) (q : Quote) :
  cache_get env ("quote:" +:+ ticker) w = (Ok None, w0) ->
  fetch_quote_data env ticker w = (Ok (QuoteDict q), w') ->
  ncalls w' = S (S (ncalls w)) /\
  (exists t, Server.acquired_times (trace w') = t :: Server.acquired_times (trace w)) /\
  (forall w2, cache w2 = cache w' ->
     clock w2 + lag env (nreads w2) < clock w' + 60 ->
     exists w3,
       fetch_quote_data env ticker w2 = (Ok (QuoteDict q), w3) /\
       ncalls w3 = ncalls w2 /\ trace w3 = trace w2 /\ cache w3 = cache w2).
Proof.
  intros Hmiss.
  destruct (cache_get_miss _ _ _ Hmiss) as (_ & Hn0 & Ht0 & _).
  unfold fetch_quote_data. rewrite (bind_ok _ _ _ _ _ Hmiss). cbn iota.
  pose proof (yahoo_throttle_run env w0) as E1. cbv zeta in E1.
  set (w1 := mkWorld _ _ _ _ _ _) in E1.
  rewrite (bind_ok _ _ _ _ _ E1).
  destruct (outcome (history env (ncalls w1) ticker "5d" None)) as [msg|hist] eqn:Hout.
  { destruct (yf_history_raises env _ _ _ _ _ Hout) as (w2 & E2 & _).
    rewrite (bind_raise _ _ _ _ _ E2). discriminate. }
  assert (E2 : yf_history env ticker "5d" None w1
               = (Ok hist, mkWorld (clock w1 + took (history env (ncalls w1) ticker "5d" None))
                             (_last_yahoo_call w1) (cache w1) (nreads w1) (S (ncalls w1))
                             (CallEnd (clock w1 + took (history env (ncalls w1) ticker "5d" None))
                                :: CallStart (clock w1) :: trace w1))).
  { unfold yf_history. now rewrite Hout. }
  set (w2 := mkWorld _ _ _ _ (S (ncalls w1)) _) in E2.
  rewrite (bind_ok _ _ _ _ _ E2).
  destruct (rev hist) as [|last_row before]; [discriminate|].
  destruct (quote_locals_total last_row before w2) as (l & E3).
  rewrite (bind_ok _ _ _ _ _ E3).
  assert (E4 : yf_info env ticker w2
               = (Ok (default ∅ (info_outcome (info env (ncalls w2) ticker))),
                  mkWorld (clock w2 + info_took (info env (ncalls w2) ticker))
                    (_last_yahoo_call w2) (cache w2) (nreads w2) (S (ncalls w2))
                    (CallEnd (clock w2 + info_took (info env (ncalls w2) ticker))
                       :: CallStart (clock w2) :: trace w2))) by reflexivity.
  set (w3 := mkWorld _ _ _ _ (S (ncalls w2)) _) in E4.
  rewrite (bind_ok _ _ _ _ _ E4).
  destruct (Volume last_row) as [v|]; [|discriminate].
  cbn [int_of_float]. rewrite bind_ret.
  assert (E5 : time_time env w3
               = (Ok (clock w3 + lag env (nreads w3)),
                  mkWorld (clock w3 + lag env (nreads w3)) (_last_yahoo_call w3) (cache w3)
                    (S (nreads w3)) (ncalls w3) (trace w3))) by reflexivity.
  set (w4 := mkWorld _ _ _ (S (nreads w3)) _ _) in E5.
  rewrite (bind_ok _ _ _ _ _ E5). cbv zeta.
  match goal with
  | |- (cache_set _ ?k ?v ?ttl ≫= _) _ = _ -> _ =>
      destruct (cache_set_stored k v ttl w4) as (w5 & E6 & Hstore & Hn5 & Ht5 & _);
      rewrite (bind_ok _ _ _ _ _ E6)
  end.
  intros H. injection H as Hq <-. split; [|split].
  - rewrite Hn5. cbn. now rewrite Hn0.
  - rewrite Ht5. cbn [w4 w3 w2 w1 trace Server.acquired_times]. rewrite <- Ht0.
    destruct (Py.ltb _ _); cbn; eexists; reflexivity.
  - intros wa Hc Hlt. rewrite <- Hc in Hstore.
    destruct (cache_get_hit _ _ _ _ Hstore Hlt) as (wb & Eget & Hcb & Hnb & Htb & _).
    exists wb. rewrite (bind_ok _ _ _ _ _ Eget). cbn iota. rewrite <- Hq. auto.
Qed.

(** X19.  [fetch_quote_data] on an empty history: after one acquisition of the
    throttle and one upstream call it raises [HTTPException(404)]; nothing
    is cached. *)
Theorem fetch_quote_data_not_found (ticker : string) (w w0 : World) :
  cache_get env ("quote:" +:+ ticker) w = (Ok None, w0) ->
  outcome (history env (ncalls w) ticker "5d" None) = inr [] ->
  exists w',
    fetch_quote_data env ticker w
      = (Raise (HTTPException 404 ("No data for " +:+ ticker)), w') /\
    ncalls w' = S (ncalls w) /\
    TTLCache._store (cache w') !! ("quote:" +:+ ticker) = None.
Proof.
  intros Hmiss Hout.
  destruct (cache_get_miss _ _ _ Hmiss) as (Hk & Hn0 & _).
  unfold fetch_quote_data. rewrite (bind_ok _ _ _ _ _ Hmiss). cbn iota.
  pose proof (yahoo_throttle_run env w0) as E1. cbv zeta in E1.
  set (w1 := mkWorld _ _ _ _ _ _) in E1.
  rewrite (bind_ok _ _ _ _ _ E1).
  assert (Hout1 : outcome (history env (ncalls w1) ticker "5d" None) = inr []).
  { cbn [w1 ncalls]. now rewrite Hn0. }
  eexists. split; [|split].
  - unfold mbind at 1, M_bind at 1. unfold yf_history. rewrite Hout1. cbn [rev]. reflexivity.
  - cbn. now rewrite Hn0.
  - cbn. exact Hk.
Qed.

End FetcherCalls.

(** A first request for the daily frame of AAPL at boot time 1000, answered
    by one bar: the frame is cached, and a request five seconds later is
    served from the cache. *)
Lemma fetch_enriched_caches_witness :
  let b := mkBar (Some 186.5) (Some 188) (Some 186) (Some 187.44) (Some 52000) in
  let env := mkEnv (fun _ => 0) (fun _ _ _ _ => mkResponse 1 (inr [b]))
                   (fun _ _ => mkInfo 1 None) (fun _ => "2026-01-01T00:00:00"%string) in
  let enrich := map (fun b => mkRow b ∅) in
  exists w' w3,
    Fetcher.fetch_enriched env enrich "AAPL" "1mo" "1d" (boot 1000)
      = (Ok (Frame (enrich [b])), w') /\
    ncalls w' = 1%nat /\
    Fetcher.fetch_enriched env enrich "AAPL" "1mo" "1d" (snd (Server.idle 5 w'))
      = (Ok (Frame (enrich [b])), w3) /\
    ncalls w3 = 1%nat.
Proof.
  intros b env enrich.
  destruct (fetch_enriched_caches env enrich "AAPL" "1mo" "1d" (boot 1000)
              (snd (Fetcher.cache_get env (Fetcher.enriched_key "AAPL" "1mo" "1d") (boot 1000)))
              (snd (Fetcher.safe_history env "AAPL" "1mo" (Some "1d"%string) (boot 1000)))
              b [] eq_refl eq_refl) as (w' & H & Hn & Hhit & _).
  destruct (Hhit (snd (Server.idle 5 w')) eq_refl) as (w3 & H3 & Hn3 & _).
  { cbn [Server.idle snd clock nreads lag env]. change (Fetcher.enriched_ttl "1d") with 180.
    lra. }
  exists w', w3. split; [exact H|]. split; [exact Hn|]. split; [exact H3|].
  rewrite Hn3. exact Hn.
Defined.

(** A request for an unknown ticker, answered by an empty history. *)
Lemma fetch_enriched_not_found_witness :
  let env := mkEnv (fun _ => 0) (fun _ _ _ _ => mkResponse 1 (inr []))
                   (fun _ _ => mkInfo 1 None) (fun _ => "2026-01-01T00:00:00"%string) in
  let enrich := map (fun b => mkRow b ∅) in
  fst (Fetcher.fetch_enriched env enrich "NOPE" "1mo" "1d" (boot 1000))
    = Raise (HTTPException 404 "No data for NOPE").
Proof.
  intros env enrich.
  destruct (fetch_enriched_not_found env enrich "NOPE" "1mo" "1d" (boot 1000)
              (snd (Fetcher.cache_get env (Fetcher.enriched_key "NOPE" "1mo" "1d") (boot 1000)))
              (snd (Fetcher.safe_history env "NOPE" "1mo" (Some "1d"%string) (boot 1000)))
              eq_refl eq_refl) as (H & _).
  rewrite H. reflexivity.
Defined.

(** A first request for the quote of AAPL at boot time 1000, answered by two
    bars: two upstream calls, and a second request ten seconds later makes
    none. *)
Lemma fetch_quote_data_caches_witness :
  let b1 := mkBar (Some 185) (Some 187) (Some 184) (Some 186) (Some 48000) in
  let b2 := mkBar (Some 186.5) (Some 188) (Some 186) (Some 187.44) (Some 52000) in
  let env := mkEnv (fun _ => 0) (fun _ _ _ _ => mkResponse 1 (inr [b1; b2]))
                   (fun _ _ => mkInfo 1 None) (fun _ => "2026-01-01T00:00:00"%string) in
  let r := Fetcher.fetch_quote_data env "AAPL" (boot 1000) in
  ncalls (snd r) = 2%nat /\
  exists w3, Fetcher.fetch_quote_data env "AAPL" (snd (Server.idle 10 (snd r)))
             = (fst r, w3) /\ ncalls w3 = 2%nat.
Proof.
  intros b1 b2 env r.
  pose (q := match fst r with
             | Ok (QuoteDict q) => q
             | _ => mkQuote "AAPL" None None None None None None None 0
                      None None None None "AAPL"
             end).
  assert (E : r = (Ok (QuoteDict q), snd r)) by (vm_compute; reflexivity).
  assert (E0 : Fetcher.cache_get env "quote:AAPL" (boot 1000) = (Ok None, boot 1000))
    by (vm_compute; reflexivity).
  destruct (fetch_quote_data_caches env "AAPL" (boot 1000) (boot 1000) (snd r) q E0 E)
    as (Hn & _ & Hhit).
  split; [exact Hn|].
  assert (Hc : cache (snd (Server.idle 10 (snd r))) = cache (snd r)) by reflexivity.
  assert (Hlt : clock (snd (Server.idle 10 (snd r)))
                + lag env (nreads (snd (Server.idle 10 (snd r)))) < clock (snd r) + 60)
    by (vm_compute; reflexivity).
  destruct (Hhit (snd (Server.idle 10 (snd r))) Hc Hlt) as (w3 & H3 & Hn3 & _).
  exists w3. split.
  - rewrite H3. rewrite E. reflexivity.
  - rewrite Hn3. exact Hn.
Defined.

(** A request for the quote of an unknown ticker, answered by an empty
    history. *)
Lemma fetch_quote_data_not_found_witness :
  let env := mkEnv (fun _ => 0) (fun _ _ _ _ => mkResponse 1 (inr []))
                   (fun _ _ => mkInfo 1 None) (fun _ => "2026-01-01T00:00:00"%string) in
  exists w', Fetcher.fetch_quote_data env "NOPE" (boot 1000)
             = (Raise (HTTPException 404 "No data for NOPE"), w') /\
             ncalls w' = 1%nat.
Proof.
  intros env.
  destruct (fetch_quote_data_not_found env "NOPE" (boot 1000)
              (snd (Fetcher.cache_get env "quote:NOPE" (boot 1000))) eq_refl eq_refl)
    as (w' & H & Hn & _).
  exists w'. split; [exact H | exact Hn].
Defined.

(** ** The endpoints: period extremes, level order and error statuses *)

Section EndpointFacts.

Import Endpoints.

(** The running maximum of [Series.max()]. *)
Lemma fold_max_spec (col : list Py.float) (acc : Py.float) :
  let step := fun (acc c : Py.float) =>
                match acc, c with
                | Some a, Some x => Some (if Py.ltb a x then x else a)
                | None, _ => c
                | _, None => acc
                end in
  match fold_left step col acc with
  | Some m => (acc = Some m \/ In (Some m) col) /\
              (forall x, acc = Some x \/ In (Some x) col -> x <= m)
  | None => acc = None /\ forall c, In c col -> c = None
  end.
Proof.
  intros step. revert acc. induction col as [|c col IH]; intros acc; cbn [fold_left].
  - destruct acc as [a|].
    + split; [now left|]. intros x [[= ->]|[]]. lra.
    + split; [reflexivity|]. intros c [].
  - specialize (IH (step acc c)). destruct (fold_left step col (step acc c)) as [m|].
    + destruct IH as [Hin Hub]. split.
      * destruct Hin as [Hs|Hin]; [|right; now right].
        destruct acc as [a|], c as [x|]; cbn in Hs; try (right; left; exact Hs);
          try (left; exact Hs).
        destruct (Py.ltb a x); [right; left; exact Hs | left; exact Hs].
      * intros x [Hx|[Hx|Hx]].
        -- subst acc. destruct c as [y|]; cbn in Hub.
           ++ destruct (Py.ltb x y) eqn:E.
              ** apply ltb_lt in E. specialize (Hub y (or_introl eq_refl)). lra.
              ** apply (Hub x). now left.
           ++ apply (Hub x). now left.
        -- subst c. destruct acc as [a|]; cbn in Hub.
           ++ destruct (Py.ltb a x) eqn:E.
              ** apply (Hub x). now left.
              ** apply ltb_ge in E. specialize (Hub a (or_introl eq_refl)). lra.
           ++ apply (Hub x). now left.
        -- apply (Hub x). now right.
    + destruct IH as [Hs Hall]. destruct acc as [a|], c as [x|]; cbn in Hs; try discriminate.
      split; [reflexivity|]. intros c [<-|Hc]; [reflexivity | now apply Hall].
Qed.

Lemma fold_min_spec (col : list Py.float) (acc : Py.float) :
  let step := fun (acc c : Py.float) =>
                match acc, c with
                | Some a, Some x => Some (if Py.ltb x a then x else a)
                | None, _ => c
                | _, None => acc
                end in
  match fold_left step col acc with
  | Some m => (acc = Some m \/ In (Some m) col) /\
              (forall x, acc = Some x \/ In (Some x) col -> m <= x)
  | None => acc = None /\ forall c, In c col -> c = None
  end.
Proof.
  intros step. revert acc. induction col as [|c col IH]; intros acc; cbn [fold_left].
  - destruct acc as [a|].
    + split; [now left|]. intros x [[= ->]|[]]. lra.
    + split; [reflexivity|]. intros c [].
  - specialize (IH (step acc c)). destruct (fold_left step col (step acc c)) as [m|].
    + destruct IH as [Hin Hub]. split.
      * destruct Hin as [Hs|Hin]; [|right; now right].
        destruct acc as [a|], c as [x|]; cbn in Hs; try (right; left; exact Hs);
          try (left; exact Hs).
        destruct (Py.ltb x a); [right; left; exact Hs | left; exact Hs].
      * intros x [Hx|[Hx|Hx]].
        -- subst acc. destruct c as [y|]; cbn in Hub.
           ++ destruct (Py.ltb y x) eqn:E.
              ** apply ltb_lt in E. specialize (Hub y (or_introl eq_refl)). lra.
              ** apply (Hub x). now left.
           ++ apply (Hub x). now left.
        -- subst c. destruct acc as [a|]; cbn in Hub.
           ++ destruct (Py.ltb x a) eqn:E.
              ** apply (Hub x). now left.
              ** apply ltb_ge in E. specialize (Hub a (or_introl eq_refl)). lra.
           ++ apply (Hub x). now left.
        -- apply (Hub x). now right.
    + destruct IH as [Hs Hall]. destruct acc as [a|], c as [x|]; cbn in Hs; try discriminate.
      split; [reflexivity|]. intros c [<-|Hc]; [reflexivity | now apply Hall].
Qed.

Lemma col_max_bound (col : list Py.float) (m : Q) :
  col_max col = Some m -> In (Some m) col /\ forall x, In (Some x) col -> x <= m.
Proof.
  pose proof (fold_max_spec col None) as Hmax. cbv zeta in Hmax.
  change (fold_left _ col None) with (col_max col) in Hmax.
  intros E. rewrite E in Hmax. destruct Hmax as [[H|H] Hub]; [discriminate|].
  split; [exact H|]. intros x Hx. apply Hub. now right.
Qed.

Lemma col_min_bound (col : list Py.float) (m : Q) :
  col_min col = Some m -> In (Some m) col /\ forall x, In (Some x) col -> m <= x.
Proof.
  pose proof (fold_min_spec col None) as Hmin. cbv zeta in Hmin.
  change (fold_left _ col None) with (col_min col) in Hmin.
  intros E. rewrite E in Hmin. destruct Hmin as [[H|H] Hub]; [discriminate|].
  split; [exact H|]. intros x Hx. apply Hub. now right.
Qed.

Lemma col_max_nan (col : list Py.float) :
  col_max col = None <-> forall c, In c col -> c = None.
Proof.
  pose proof (fold_max_spec col None) as Hmax. cbv zeta in Hmax.
  change (fold_left _ col None) with (col_max col) in Hmax.
  destruct (col_max col) as [m|].
  - destruct Hmax as [[H|H] _]; [discriminate|].
    split; [discriminate|]. intros Hall. now apply Hall in H.
  - destruct Hmax as [_ Hall]. split; [intros _; exact Hall | reflexivity].
Qed.

Lemma col_min_nan (col : list Py.float) :
  col_min col = None <-> forall c, In c col -> c = None.
Proof.
  pose proof (fold_min_spec col None) as Hmin. cbv zeta in Hmin.
  change (fold_left _ col None) with (col_min col) in Hmin.
  destruct (col_min col) as [m|].
  - destruct Hmin as [[H|H] _]; [discriminate|].
    split; [discriminate|]. intros Hall. now apply Hall in H.
  - destruct Hmin as [_ Hall]. split; [intros _; exact Hall | reflexivity].
Qed.

(** X20.  [col_max] and [col_min], the [Series.max()] and [Series.min()] of
    [get_fibonacci]: the result is a cell of the column that bounds every cell
    holding a value, and it is NaN exactly when no cell holds a value. *)
Theorem col_max_min_spec (col : list Py.float) :
  (forall m, col_max col = Some m ->
     In (Some m) col /\ forall x, In (Some x) col -> x <= m) /\
  (forall m, col_min col = Some m ->
     In (Some m) col /\ forall x, In (Some x) col -> m <= x) /\
  (col_max col = None <-> forall c, In c col -> c = None) /\
  (col_min col = None <-> forall c, In c col -> c = None).
Proof.
  split; [|split; [|split]].
  - apply col_max_bound.
  - apply col_min_bound.
  - apply col_max_nan.
  - apply col_min_nan.
Qed.

(** Rounding keeps the order. *)
Lemma round_half_even_mono (x y : Q) :
  x <= y -> (Py.round_half_even x <= Py.round_half_even y)%Z.
Proof.
  intros Hxy. unfold Py.round_half_even. cbv zeta.
  pose proof (Qfloor_resp_le x y Hxy) as Hf.
  pose proof (Qfloor_le x) as Hx1. pose proof (Qlt_floor x) as Hx2.
  pose proof (Qfloor_le y) as Hy1. pose proof (Qlt_floor y) as Hy2.
  destruct (Z.eq_dec (Qfloor x) (Qfloor y)) as [E|N].
  - rewrite <- E in *.
    destruct (Qcompare_spec (x - inject_Z (Qfloor x)) (1 # 2)) as [Hx|Hx|Hx];
      destruct (Qcompare_spec (y - inject_Z (Qfloor x)) (1 # 2)) as [Hy|Hy|Hy];
      try lia; try lra; destruct (Z.even (Qfloor x)); lia.
  - assert (Qfloor x + 1 <= Qfloor y)%Z by lia.
    destruct (Qcompare (x - inject_Z (Qfloor x)) (1 # 2));
      destruct (Qcompare (y - inject_Z (Qfloor y)) (1 # 2));
      try destruct (Z.even (Qfloor x)); try destruct (Z.even (Qfloor y)); lia.
Qed.

Lemma round_mono (x y : Q) (nd : nat) : x <= y -> Py.round x nd <= Py.round y nd.
Proof.
  intros Hxy. unfold Py.round, Py.scaled. rewrite !Qred_correct.
  assert (Hp : (0 < 10 ^ Z.of_nat nd)%Z) by (apply Z.pow_pos_nonneg; lia).
  assert (Hs : x * inject_Z (10 ^ Z.of_nat nd) <= y * inject_Z (10 ^ Z.of_nat nd)).
  { apply Qmult_le_compat_r; [exact Hxy|]. unfold Qle. cbn. lia. }
  apply round_half_even_mono in Hs. unfold Qle. cbn [Qnum Qden].
  apply Z.mul_le_mono_nonneg_r; [lia | exact Hs].
Qed.

(** X21.  The levels of [get_fibonacci] run from the rounded period high down to
    the rounded period low: on a frame with at least one bar, whose bars all
    have a high and a low with [Low <= High], every level is a number and no
    level is above the one before it. *)
Theorem fibonacci_levels_descending (df : list Row) :
  df <> [] ->
  (forall r, In r df ->
     exists h l, High (bar r) = Some h /\ Low (bar r) = Some l /\ l <= h) ->
  exists hi lo vs,
    col_max (map (fun r => High (bar r)) df) = Some hi /\
    col_min (map (fun r => Low (bar r)) df) = Some lo /\
    lo <= hi /\
    map snd (fibonacci_of_frame df) = map Some vs /\
    hd_error vs = Some (Py.round hi 2) /\
    last vs = Some (Py.round lo 2) /\
    StronglySorted (fun a b => b <= a) vs.
Proof.
  intros Hne Hbars.
  destruct df as [|r0 rest]; [congruence|]. clear Hne.
  destruct (Hbars r0 (or_introl eq_refl)) as (h0 & l0 & Hh0 & Hl0 & Hlh0).
  pose proof (col_max_bound (map (fun r => High (bar r)) (r0 :: rest))) as Hmax.
  pose proof (col_max_nan (map (fun r => High (bar r)) (r0 :: rest))) as Hmaxn.
  pose proof (col_min_bound (map (fun r => Low (bar r)) (r0 :: rest))) as Hmin.
  pose proof (col_min_nan (map (fun r => Low (bar r)) (r0 :: rest))) as Hminn.
  destruct (col_max (map (fun r => High (bar r)) (r0 :: rest))) as [hi|] eqn:Ehi.
  2:{ assert (Some h0 = None) by (apply (proj1 Hmaxn eq_refl); left; now rewrite <- Hh0).
      discriminate. }
  destruct (col_min (map (fun r => Low (bar r)) (r0 :: rest))) as [lo|] eqn:Elo.
  2:{ assert (Some l0 = None) by (apply (proj1 Hminn eq_refl); left; now rewrite <- Hl0).
      discriminate. }
  destruct (Hmax hi eq_refl) as [_ Hub]. destruct (Hmin lo eq_refl) as [_ Hlb].
  assert (Hh : h0 <= hi) by (apply Hub; left; now rewrite <- Hh0).
  assert (Hl : lo <= l0) by (apply Hlb; left; now rewrite <- Hl0).
  assert (Hlohi : lo <= hi) by lra.
  exists hi, lo.
  exists [ Py.round hi 2;
           Py.round (hi - 0.236 * (hi - lo)) 2;
           Py.round (hi - 0.382 * (hi - lo)) 2;
           Py.round (hi - 0.500 * (hi - lo)) 2;
           Py.round (hi - 0.618 * (hi - lo)) 2;
           Py.round (hi - 0.786 * (hi - lo)) 2;
           Py.round lo 2 ].
  split; [reflexivity|]. split; [reflexivity|]. split; [exact Hlohi|].
  split; [unfold fibonacci_of_frame; rewrite Ehi, Elo; reflexivity|].
  split; [reflexivity|]. split; [reflexivity|].
  repeat (apply SSorted_cons;
          [|repeat (constructor; [apply round_mono; lra|]); constructor]).
  apply SSorted_nil.
Qed.

Section WithEnv.

Variable env : Env.
Variable enrich : list Bar -> list Row.

Lemma safe_history_raises t p i w e :
  fst (Fetcher.safe_history env t p i w) = Raise e ->
  exists msg,
    e = UpstreamError msg /\
    (outcome (history env (ncalls w) t p i) = inl msg /\
     Py.contains "Too Many Requests" msg || Py.contains "Rate" msg = false \/
     exists first,
       outcome (history env (ncalls w) t p i) = inl first /\
       Py.contains "Too Many Requests" first || Py.contains "Rate" first = true /\
       outcome (history env (S (ncalls w)) t p i) = inl msg).
Proof.
  destruct (outcome (history env (ncalls w) t p i)) as [msg|rows] eqn:Hout.
  - destruct (Py.contains "Too Many Requests" msg || Py.contains "Rate" msg) eqn:Hc.
    + destruct (safe_history_rate_limited env t p i w msg Hout Hc)
        as (w1 & w2 & _ & -> & _).
      destruct (outcome (history env (S (ncalls w)) t p i)) as [m|rows] eqn:Hout2;
        intros [= <-]. exists m. split; [reflexivity|]. right. exists msg. auto.
    + destruct (safe_history_other_error env t p i w msg Hout Hc) as (w2 & -> & _).
      intros [= <-]. exists msg. auto.
  - destruct (yahoo_throttle_total env w) as (w1 & E1 & Hn1).
    unfold Fetcher.safe_history. rewrite (bind_ok _ _ _ _ _ E1).
    unfold try_except, Fetcher.yf_history. rewrite Hn1, Hout. discriminate.
Qed.

(** What a cache hit returns was in the store. *)
Lemma cache_get_hit_stored key w v w0 :
  Fetcher.cache_get env key w = (Ok (Some v), w0) ->
  exists expires, TTLCache._store (cache w) !! key = Some (expires, v).
Proof.
  unfold Fetcher.cache_get, mbind, M_bind, Fetcher.get_world.
  destruct (TTLCache._store (cache w) !! key) as [[expires v']|] eqn:E.
  - unfold Fetcher.time_time, Fetcher.put_cache, TTLCache.get. cbn [cache]. rewrite E.
    cbn [fst snd]. destruct (Py.leb _ _); cbn; intros H; [discriminate H|].
    injection H as -> _. eauto.
  - cbn. discriminate.
Qed.

(** [fetch_enriched] either returns a frame, or raises the 404 of an empty
    history or the exception of its upstream history call (of the retry,
    when the first call was rate limited), provided the cache holds no
    other object under the frame's key. *)
Lemma fetch_enriched_outcome t p i w :
  (forall expires q,
     TTLCache._store (cache w) !! Fetcher.enriched_key t p i
     <> Some (expires, QuoteDict q)) ->
  match fst (Fetcher.fetch_enriched env enrich t p i w) with
  | Ok v => exists df, v = Frame df
  | Raise e =>
      e = HTTPException 404 ("No data for " +:+ t) \/
      exists msg,
        e = UpstreamError msg /\
        (outcome (history env (ncalls w) t p (Some i)) = inl msg /\
         Py.contains "Too Many Requests" msg || Py.contains "Rate" msg = false \/
         exists first,
           outcome (history env (ncalls w) t p (Some i)) = inl first /\
           Py.contains "Too Many Requests" first || Py.contains "Rate" first = true /\
           outcome (history env (S (ncalls w)) t p (Some i)) = inl msg)
  end.
Proof.
  intros Hframes. unfold Fetcher.fetch_enriched. fold (Fetcher.enriched_key t p i).
  destruct (cache_get_total env (Fetcher.enriched_key t p i) w) as (v & w0 & E0 & Hn0).
  rewrite (bind_ok _ _ _ _ _ E0). destruct v as [v|].
  - cbn. apply cache_get_hit_stored in E0. destruct E0 as (expires & E0).
    destruct v as [df|q]; [eauto|]. now apply Hframes in E0.
  - pose proof (safe_history_raises t p (Some i) w0) as Hr. rewrite Hn0 in Hr.
    destruct (Fetcher.safe_history env t p (Some i) w0) as [[rows|e'] w1] eqn:E1.
    + rewrite (bind_ok _ _ _ _ _ E1). destruct rows as [|b rows].
      * cbn. now left.
      * cbv zeta.
        match goal with
        | |- context [Fetcher.cache_set _ ?k ?v ?ttl] =>
            destruct (cache_set_total env k v ttl w1) as (w2 & E2);
            rewrite (bind_ok _ _ _ _ _ E2)
        end.
        cbn. eauto.
    + rewrite (bind_raise _ _ _ _ _ E1). cbn. right. now apply Hr.
Qed.

(** X22.  What [get_signals] and [get_fibonacci] raise, for a ticker of ASCII
    characters and a cache that holds nothing but frames under the frame
    keys (as [fetch_enriched] leaves it): an [HTTPException], either with
    status 404 and the detail "No data for " and the upper-cased ticker, or
    with status 500 and as its detail the message of the exception that the
    upstream history call of the request raised: the first call when its
    error is no rate-limit error, the one retry when it is. *)
Theorem endpoints_raise_http_only (ticker period interval : string) (w : World) (e : exn) :
  is_ascii ticker = true ->
  (forall i expires q,
     TTLCache._store (cache w) !! Fetcher.enriched_key (upper ticker) period i
     <> Some (expires, QuoteDict q)) ->
  (fst (get_signals env enrich ticker period interval w) = Raise e ->
   e = HTTPException 404 ("No data for " +:+ upper ticker) \/
   exists msg,
     e = HTTPException 500 msg /\
     (outcome (history env (ncalls w) (upper ticker) period (Some interval)) = inl msg /\
      Py.contains "Too Many Requests" msg || Py.contains "Rate" msg = false \/
      exists first,
        outcome (history env (ncalls w) (upper ticker) period (Some interval)) = inl first /\
        Py.contains "Too Many Requests" first || Py.contains "Rate" first = true /\
        outcome (history env (S (ncalls w)) (upper ticker) period (Some interval))
        = inl msg)) /\
  (fst (get_fibonacci env enrich ticker period w) = Raise e ->
   e = HTTPException 404 ("No data for " +:+ upper ticker) \/
   exists msg,
     e = HTTPException 500 msg /\
     (outcome (history env (ncalls w) (upper ticker) period (Some "1d"%string)) = inl msg /\
      Py.contains "Too Many Requests" msg || Py.contains "Rate" msg = false \/
      exists first,
        outcome (history env (ncalls w) (upper ticker) period (Some "1d"%string))
        = inl first /\
        Py.contains "Too Many Requests" first || Py.contains "Rate" first = true /\
        outcome (history env (S (ncalls w)) (upper ticker) period (Some "1d"%string))
        = inl msg)).
Proof.
  intros _ Hframes. split.
  - pose proof (fetch_enriched_outcome (upper ticker) period interval w
                  (Hframes interval)) as Hf.
    unfold get_signals, http_guard, try_except, mbind, M_bind.
    destruct (Fetcher.fetch_enriched env enrich (upper ticker) period interval w)
      as [[v|e0] w1]; cbn [fst] in Hf.
    + destruct Hf as (df & ->). cbn. discriminate.
    + destruct Hf as [->|(msg & -> & Hmsg)]; cbn; intros [= <-];
        [now left | right; eauto].
  - pose proof (fetch_enriched_outcome (upper ticker) period "1d" w
                  (Hframes "1d"%string)) as Hf.
    unfold get_fibonacci, http_guard, try_except, mbind, M_bind.
    destruct (Fetcher.fetch_enriched env enrich (upper ticker) period "1d" w)
      as [[v|e0] w1]; cbn [fst] in Hf.
    + destruct Hf as (df & ->). cbn. discriminate.
    + destruct Hf as [->|(msg & -> & Hmsg)]; cbn; intros [= <-];
        [now left | right; eauto].
Qed.

End WithEnv.

End EndpointFacts.

(** Three bars with highs 10, 12, 11 and lows 9, 8, 10: the period high is
    12 and the period low is 8. *)
Lemma col_max_min_spec_witness :
  Endpoints.col_max [Some 10; None; Some 12; Some 11] = Some 12 /\
  In (Some 12) [Some 10; None; Some 12; Some 11] /\ 11 <= 12.
Proof.
  destruct (col_max_min_spec [Some 10; None; Some 12; Some 11]) as (H & _).
  destruct (H 12 eq_refl) as [Hin Hub]. split; [reflexivity|]. split; [exact Hin|].
  apply Hub. do 3 right. left. reflexivity.
Defined.

Lemma fibonacci_levels_descending_witness :
  let r1 := mkRow (mkBar (Some 9.5) (Some 10) (Some 9) (Some 9.8) (Some 100)) ∅ in
  let r2 := mkRow (mkBar (Some 9.8) (Some 12) (Some 8) (Some 11) (Some 120)) ∅ in
  exists vs, map snd (Endpoints.fibonacci_of_frame [r1; r2]) = map Some vs /\
             StronglySorted (fun a b => b <= a) vs.
Proof.
  intros r1 r2.
  destruct (fibonacci_levels_descending [r1; r2]) as (hi & lo & vs & _ & _ & _ & H & _ & _ & S).
  - discriminate.
  - intros r [<-|[<-|[]]]; do 2 eexists; (split; [reflexivity|]); (split; [reflexivity|]);
      vm_compute; discriminate.
  - exists vs. split; [exact H | exact S].
Defined.

(** A signals request, in lower case, that the upstream answers with an
    error. *)
Lemma endpoints_raise_http_only_witness :
  let env := mkEnv (fun _ => 0) (fun _ _ _ _ => mkResponse 1 (inl "Connection reset"%string))
                   (fun _ _ => mkInfo 1 None) (fun _ => "2026-01-01T00:00:00"%string) in
  let enrich := map (fun b => mkRow b ∅) in
  fst (Endpoints.get_signals env enrich "aapl" "1mo" "1d" (boot 1000))
  = Raise (HTTPException 500 "Connection reset").
Proof.
  intros env enrich.
  assert (H : exists e, fst (Endpoints.get_signals env enrich "aapl" "1mo" "1d" (boot 1000))
                        = Raise e) by (eexists; reflexivity).
  destruct H as (e & H). rewrite H. f_equal.
  destruct (endpoints_raise_http_only env enrich "aapl" "1mo" "1d" (boot 1000) e eq_refl)
    as [Hs _].
  - intros i expires q. cbn. rewrite lookup_empty. discriminate.
  - destruct (Hs H) as [->|(msg & -> & [[Hout _]|(first & Hout & Hc & _)])].
    + rewrite H in *. vm_compute in H. discriminate H.
    + cbn in Hout. now injection Hout as <-.
    + cbn in Hout. injection Hout as <-. vm_compute in Hc. discriminate Hc.
Defined.

(** ** The polling loop of [live_stream] *)

Section LiveStreamFacts.

Import LiveStream.

Lemma backoff_values (c : nat) :
  (c < MAX_ERRORS)%nat ->
  backoff c = match c with
              | 0%nat => 60 | 1%nat => 120 | 2%nat => 240 | _ => 300
              end%Z.
Proof.
  unfold MAX_ERRORS. intros H.
  do 5 (destruct c as [|c]; [reflexivity|]). lia.
Qed.

Lemma pass_bounded (c : nat) (ok : bool) :
  (c < MAX_ERRORS)%nat ->
  (fst (pass c ok) < MAX_ERRORS)%nat /\
  (60 <= seconds (snd (pass c ok)) <= 300)%Z.
Proof.
  intros H. unfold pass. destruct ok.
  - cbn [fst snd seconds]. rewrite backoff_values; unfold MAX_ERRORS; lia.
  - cbv zeta. destruct (Nat.leb MAX_ERRORS (S c)) eqn:E; cbn [fst snd seconds].
    + unfold MAX_ERRORS. lia.
    + apply Nat.leb_gt in E. rewrite backoff_values by exact E.
      split; [exact E|]. destruct c as [|[|[|c]]]; lia.
Qed.

(** X23.  The loop of [live_stream] keeps [consecutive_errors] below [MAX_ERRORS]
    between passes, and every pass ends in an await of at least 60 and at
    most 300 seconds, whatever the outcomes of the fetches. *)
Theorem live_stream_awaits_bounded (c : nat) (oks : list bool) :
  (c < MAX_ERRORS)%nat ->
  (fst (passes c oks) < MAX_ERRORS)%nat /\
  length (snd (passes c oks)) = length oks /\
  Forall (fun a => (60 <= seconds a <= 300)%Z) (snd (passes c oks)).
Proof.
  revert c. induction oks as [|ok rest IH]; intros c Hc.
  - cbn. auto.
  - cbn [passes]. destruct (pass_bounded c ok Hc) as [Hc1 Hs].
    destruct (pass c ok) as [c1 a]. cbn [fst snd] in Hc1, Hs.
    specialize (IH c1 Hc1). destruct (passes c1 rest) as [c' l].
    cbn [fst snd length] in *. destruct IH as (H1 & H2 & H3).
    split; [exact H1|]. split; [now rewrite H2|]. now constructor.
Qed.

Lemma passes_snoc (c : nat) (oks : list bool) (ok : bool) :
  passes c (oks ++ [ok])
  = (fst (pass (fst (passes c oks)) ok),
     snd (passes c oks) ++ [snd (pass (fst (passes c oks)) ok)]).
Proof.
  revert c. induction oks as [|o rest IH]; intros c.
  - cbn. now destruct (pass c ok).
  - cbn [passes app]. destruct (pass c o) as [c1 a]. rewrite IH.
    destruct (passes c1 rest) as [c' l]. reflexivity.
Qed.

Lemma trailing_failures_snoc (oks : list bool) (ok : bool) :
  trailing_failures (oks ++ [ok]) = if ok then 0%nat else S (trailing_failures oks).
Proof.
  induction oks as [|o rest IH].
  - now destruct ok.
  - cbn [trailing_failures app]. rewrite forallb_app, length_app. cbn [forallb length].
    destruct ok; cbn [negb].
    + rewrite !andb_false_r. exact IH.
    + rewrite !andb_true_r. destruct (forallb negb rest); [lia | exact IH].
Qed.

(** X24.  From a fresh connection, [consecutive_errors] after any number of
    passes is the number of failures since the last success, modulo
    [MAX_ERRORS]; and a pass that fails as the [k]-th failure in a row waits
    [min(60 * 2**k, 300)] seconds for a message when [k] is not a multiple of
    [MAX_ERRORS] (120, 240, 300 and 300 seconds for the first four), and
    sleeps 120 seconds when it is. *)
Theorem live_stream_error_count (oks : list bool) :
  fst (passes 0 oks) = (trailing_failures oks mod MAX_ERRORS)%nat /\
  (forall k,
     k = S (trailing_failures oks) ->
     snd (passes 0 (oks ++ [false]))
     = snd (passes 0 oks)
       ++ [if (k mod MAX_ERRORS =? 0)%nat then Sleep 120
           else ReceiveText (backoff (k mod MAX_ERRORS))]) /\
  snd (passes 0 (oks ++ [true])) = snd (passes 0 oks) ++ [ReceiveText 60].
Proof.
  assert (Hcount : forall l, fst (passes 0 l) = (trailing_failures l mod MAX_ERRORS)%nat).
  { intros l. induction l as [|ok l IH] using rev_ind; [reflexivity|].
    rewrite passes_snoc, trailing_failures_snoc. cbn [fst]. rewrite IH.
    destruct ok; [reflexivity|].
    unfold pass, MAX_ERRORS.
    pose proof (Nat.mod_upper_bound (trailing_failures l) 5 ltac:(lia)) as Hb.
    set (t := trailing_failures l) in *.
    assert (Hs : (S t mod 5 = if (S (t mod 5) =? 5)%nat then 0 else S (t mod 5))%nat).
    { destruct (Nat.eqb_spec (S (t mod 5)) 5) as [E|N].
      - rewrite (Nat.div_mod_eq t 5) at 1.
        replace (S (5 * (t / 5) + t mod 5)) with ((t / 5 + 1) * 5)%nat by lia.
        apply Nat.Div0.mod_mul.
      - rewrite (Nat.div_mod_eq t 5) at 1.
        replace (S (5 * (t / 5) + t mod 5)) with (S (t mod 5) + (t / 5) * 5)%nat by lia.
        rewrite Nat.Div0.mod_add. apply Nat.mod_small. lia. }
    rewrite Hs. destruct (Nat.eqb_spec (S (t mod 5)) 5) as [E|N].
    - rewrite E. reflexivity.
    - destruct (Nat.leb_spec 5 (S (t mod 5))); [lia | reflexivity]. }
  split; [apply Hcount|]. split.
  - intros k ->. rewrite passes_snoc. cbn [snd]. f_equal. f_equal.
    rewrite Hcount. unfold pass, MAX_ERRORS.
    pose proof (Nat.mod_upper_bound (trailing_failures oks) 5 ltac:(lia)) as Hb.
    set (t := trailing_failures oks) in *.
    assert (Hs : (S t mod 5 = if (S (t mod 5) =? 5)%nat then 0 else S (t mod 5))%nat).
    { destruct (Nat.eqb_spec (S (t mod 5)) 5) as [E|N].
      - rewrite (Nat.div_mod_eq t 5) at 1.
        replace (S (5 * (t / 5) + t mod 5)) with ((t / 5 + 1) * 5)%nat by lia.
        apply Nat.Div0.mod_mul.
      - rewrite (Nat.div_mod_eq t 5) at 1.
        replace (S (5 * (t / 5) + t mod 5)) with (S (t mod 5) + (t / 5) * 5)%nat by lia.
        rewrite Nat.Div0.mod_add. apply Nat.mod_small. lia. }
    rewrite Hs. destruct (Nat.eqb_spec (S (t mod 5)) 5) as [E|N].
    + rewrite E. reflexivity.
    + destruct (Nat.leb_spec 5 (S (t mod 5))); [lia|].
      cbn [snd]. destruct (Nat.eqb_spec (S (t mod 5)) 0); [lia | reflexivity].
  - rewrite passes_snoc. reflexivity.
Qed.

End LiveStreamFacts.

(** A connection whose first four fetches fail. *)
Lemma live_stream_awaits_bounded_witness :
  LiveStream.passes 0 [false; false; false; false]
  = (4%nat, [LiveStream.ReceiveText 120; LiveStream.ReceiveText 240;
             LiveStream.ReceiveText 300; LiveStream.ReceiveText 300]) /\
  Forall (fun a => (60 <= LiveStream.seconds a <= 300)%Z)
         (snd (LiveStream.passes 0 [false; false; false; false])).
Proof.
  split; [reflexivity|].
  apply (live_stream_awaits_bounded 0 [false; false; false; false]).
  unfold LiveStream.MAX_ERRORS. lia.
Defined.

(** The fifth failure in a row sleeps 120 seconds. *)
Lemma live_stream_error_count_witness :
  snd (LiveStream.passes 0 ([false; false; false; false] ++ [false]))
  = snd (LiveStream.passes 0 [false; false; false; false]) ++ [LiveStream.Sleep 120].
Proof.
  destruct (live_stream_error_count [false; false; false; false]) as (_ & H & _).
  exact (H 5%nat eq_refl).
Defined.

(** ** The indicators: ranges, warm-up rows and flat prices *)

Section IndicatorFacts.

(** *** The exponentially weighted mean *)

Section Ewm.

Variable alpha : Q.
Hypothesis alpha_pos : 0 < alpha.
Hypothesis alpha_le_1 : alpha <= 1.

Lemma convex_lower (ow nw wt x lo : Q) :
  0 <= ow -> 0 < nw -> lo <= wt -> lo <= x -> lo <= (ow * wt + nw * x) / (ow + nw).
Proof.
  intros H0 H1 Hwt Hx.
  assert (A : 0 <= ow * (wt - lo)) by (apply Qmult_le_0_compat; lra).
  assert (B : 0 <= nw * (x - lo)) by (apply Qmult_le_0_compat; lra).
  apply Qle_shift_div_l; lra.
Qed.

Lemma convex_upper (ow nw wt x hi : Q) :
  0 <= ow -> 0 < nw -> wt <= hi -> x <= hi -> (ow * wt + nw * x) / (ow + nw) <= hi.
Proof.
  intros H0 H1 Hwt Hx.
  assert (A : 0 <= ow * (hi - wt)) by (apply Qmult_le_0_compat; lra).
  assert (B : 0 <= nw * (hi - x)) by (apply Qmult_le_0_compat; lra).
  apply Qle_shift_div_r; lra.
Qed.

(** The weights of one step: the aged weight of the past is not negative
    and the weight of the new value is positive, for either choice of
    [new_wt]. *)
Lemma ewm_weights (old : Q) :
  0 <= old <= 1 ->
  0 <= old * (1 - alpha) <= 1 /\
  0 < (if Qeq_bool ((1 - alpha) / alpha) 1 then 1 - old * (1 - alpha) else alpha).
Proof.
  intros [H0 H1].
  assert (A : 0 <= old * (1 - alpha)) by (apply Qmult_le_0_compat; lra).
  assert (B : old * (1 - alpha) <= 1 * (1 - alpha)) by (apply Qmult_le_compat_r; lra).
  split; [split; lra|]. destruct (Qeq_bool _ _); lra.
Qed.

Lemma ewm_step_old_wt (st : Pd.ewm_state) (cur : Py.float) :
  0 <= Pd.old_wt st <= 1 -> 0 <= Pd.old_wt (Pd.ewm_step alpha st cur) <= 1.
Proof.
  intros H. destruct (ewm_weights _ H) as [Hw _]. unfold Pd.ewm_step.
  destruct (Pd.weighted st) as [wt|], cur as [x|]; cbn [Pd.old_wt]; try exact H;
    try exact Hw.
  split; lra.
Qed.

Lemma ewm_step_lower (lo : Q) (st : Pd.ewm_state) (cur : Py.float) :
  0 <= Pd.old_wt st <= 1 ->
  (forall w, Pd.weighted st = Some w -> lo <= w) ->
  (forall x, cur = Some x -> lo <= x) ->
  forall w, Pd.weighted (Pd.ewm_step alpha st cur) = Some w -> lo <= w.
Proof.
  intros Hw Hst Hcur w. destruct (ewm_weights _ Hw) as [[Ho _] Hn]. unfold Pd.ewm_step.
  destruct (Pd.weighted st) as [wt|] eqn:E.
  - specialize (Hst wt eq_refl). destruct cur as [x|]; cbn [Pd.weighted].
    + specialize (Hcur x eq_refl). intros [= <-].
      destruct (Qeq_bool wt x); [exact Hst|]. now apply convex_lower.
    + intros [= <-]. exact Hst.
  - cbn [Pd.weighted]. exact (Hcur w).
Qed.

Lemma ewm_step_upper (hi : Q) (st : Pd.ewm_state) (cur : Py.float) :
  0 <= Pd.old_wt st <= 1 ->
  (forall w, Pd.weighted st = Some w -> w <= hi) ->
  (forall x, cur = Some x -> x <= hi) ->
  forall w, Pd.weighted (Pd.ewm_step alpha st cur) = Some w -> w <= hi.
Proof.
  intros Hw Hst Hcur w. destruct (ewm_weights _ Hw) as [[Ho _] Hn]. unfold Pd.ewm_step.
  destruct (Pd.weighted st) as [wt|] eqn:E.
  - specialize (Hst wt eq_refl). destruct cur as [x|]; cbn [Pd.weighted].
    + specialize (Hcur x eq_refl). intros [= <-].
      destruct (Qeq_bool wt x); [exact Hst|]. now apply convex_upper.
    + intros [= <-]. exact Hst.
  - cbn [Pd.weighted]. exact (Hcur w).
Qed.

Lemma ewm_from_lower (lo : Q) (minp : nat) (s : Pd.Series) (st : Pd.ewm_state) :
  0 <= Pd.old_wt st <= 1 ->
  (forall w, Pd.weighted st = Some w -> lo <= w) ->
  (forall x, In (Some x) s -> lo <= x) ->
  forall v, In (Some v) (Pd.ewm_from alpha minp st s) -> lo <= v.
Proof.
  revert st. induction s as [|cur later IH]; intros st Hw Hst Hs v; [intros []|].
  cbn [Pd.ewm_from]. intros [H|H].
  - destruct (Nat.leb _ _); [|discriminate].
    apply (ewm_step_lower lo st cur Hw Hst); [|exact H].
    intros x ->. apply Hs. now left.
  - apply (IH (Pd.ewm_step alpha st cur)); [now apply ewm_step_old_wt| |
      intros x Hx; apply Hs; now right | exact H].
    apply (ewm_step_lower lo st cur Hw Hst). intros x ->. apply Hs. now left.
Qed.

Lemma ewm_from_upper (hi : Q) (minp : nat) (s : Pd.Series) (st : Pd.ewm_state) :
  0 <= Pd.old_wt st <= 1 ->
  (forall w, Pd.weighted st = Some w -> w <= hi) ->
  (forall x, In (Some x) s -> x <= hi) ->
  forall v, In (Some v) (Pd.ewm_from alpha minp st s) -> v <= hi.
Proof.
  revert st. induction s as [|cur later IH]; intros st Hw Hst Hs v; [intros []|].
  cbn [Pd.ewm_from]. intros [H|H].
  - destruct (Nat.leb _ _); [|discriminate].
    apply (ewm_step_upper hi st cur Hw Hst); [|exact H].
    intros x ->. apply Hs. now left.
  - apply (IH (Pd.ewm_step alpha st cur)); [now apply ewm_step_old_wt| |
      intros x Hx; apply Hs; now right | exact H].
    apply (ewm_step_upper hi st cur Hw Hst). intros x ->. apply Hs. now left.
Qed.

Lemma ewm_mean_bounds (lo hi : Q) (min_periods : nat) (s : Pd.Series) :
  (forall x, In (Some x) s -> lo <= x <= hi) ->
  forall v, In (Some v) (Pd.ewm_mean alpha min_periods s) -> lo <= v <= hi.
Proof.
  intros Hs v Hv. unfold Pd.ewm_mean in Hv. split.
  - revert Hv. apply ewm_from_lower; cbn; [split; lra | discriminate |].
    intros x Hx. now apply Hs.
  - revert Hv. apply ewm_from_upper; cbn; [split; lra | discriminate |].
    intros x Hx. now apply Hs.
Qed.

End Ewm.

Lemma ewm_from_length alpha minp st s :
  length (Pd.ewm_from alpha minp st s) = length s.
Proof.
  revert st. induction s as [|c s IH]; intros st; cbn; [reflexivity|]. now rewrite IH.
Qed.

(** A cell is NaN while fewer than [minp] cells have been seen. *)
Lemma ewm_from_warmup alpha minp st s i v :
  Pd.ewm_from alpha minp st s !! i = Some (Some v) -> (minp <= Pd.nobs st + S i)%nat.
Proof.
  revert st i. induction s as [|c s IH]; intros st i; [discriminate|].
  assert (Hn : (Pd.nobs (Pd.ewm_step alpha st c) <= S (Pd.nobs st))%nat).
  { unfold Pd.ewm_step. destruct (Pd.weighted st), c; cbn; lia. }
  cbn [Pd.ewm_from]. destruct i as [|i]; cbn [lookup list_lookup].
  - destruct (Nat.leb_spec minp (Pd.nobs (Pd.ewm_step alpha st c))); [|discriminate].
    intros _. lia.
  - intros H. apply IH in H. lia.
Qed.

(** On cells that all hold a value the mean is defined from the [minp]-th
    on. *)
Lemma ewm_from_defined alpha minp st xs i :
  (i < length xs)%nat -> (minp <= Pd.nobs st + S i)%nat ->
  exists v, Pd.ewm_from alpha minp st (map Some xs) !! i = Some (Some v).
Proof.
  revert st i. induction xs as [|x xs IH]; intros st i Hi Hm; [cbn in Hi; lia|].
  assert (Hn : Pd.nobs (Pd.ewm_step alpha st (Some x)) = S (Pd.nobs st)).
  { unfold Pd.ewm_step. destruct (Pd.weighted st); cbn; lia. }
  assert (Hw : exists w, Pd.weighted (Pd.ewm_step alpha st (Some x)) = Some w).
  { unfold Pd.ewm_step. destruct (Pd.weighted st); cbn; eauto. }
  cbn [map Pd.ewm_from]. destruct i as [|i]; cbn [lookup list_lookup].
  - rewrite Hn. destruct (Nat.leb_spec minp (S (Pd.nobs st))); [|lia].
    destruct Hw as (w & ->). eauto.
  - apply IH; [cbn in Hi; lia | rewrite Hn; lia].
Qed.


(** *** Cells of mapped and zipped columns *)

Lemma map_lookup {A B} (f : A -> B) (l : list A) (i : nat) :
  map f l !! i = option_map f (l !! i).
Proof.
  revert i. induction l as [|x l IH]; intros [|i]; cbn; auto.
Qed.

Lemma option_map_Some {A B} (f : A -> B) (o : option A) (y : B) :
  option_map f o = Some y -> exists x, o = Some x /\ y = f x.
Proof. destruct o as [x|]; [intros [= <-]; eauto | discriminate]. Qed.

Lemma In_lookup {A} (l : list A) (x : A) : In x l <-> exists i, l !! i = Some x.
Proof.
  induction l as [|y l IH]; cbn [In].
  - split; [intros [] | intros (i & H); discriminate].
  - rewrite IH. split.
    + intros [->|(i & H)]; [now exists 0%nat | now exists (S i)].
    + intros ([|i] & H); [left; now injection H | right; now exists i].
Qed.

Lemma inject_nat_ge1 (n : nat) : (1 <= n)%nat -> 1 <= inject_Z (Z.of_nat n).
Proof. intros H. change 1 with (inject_Z 1). rewrite <- Zle_Qle. lia. Qed.

Lemma zip_with_values (f : Q -> Q -> Q) (g : Py.float -> Py.float -> Py.float)
    (xs ys : list Q) :
  (forall x y, g (Some x) (Some y) = Some (f x y)) ->
  zip_with g (map Some xs) (map Some ys) = map Some (zip_with f xs ys).
Proof.
  intros Hg. revert ys. induction xs as [|x xs IH]; intros [|y ys]; cbn; auto.
  now rewrite Hg, IH.
Qed.

Lemma diff_values (x : Q) (later : list Q) :
  Pd.diff (map Some (x :: later))
  = None :: map Some (zip_with Qminus later (x :: later)).
Proof.
  cbn [Pd.diff map]. f_equal.
  now rewrite <- (zip_with_values Qminus Py.fsub later (x :: later)).
Qed.

(** *** RSI *)

Lemma rsi_value (g l : Q) :
  0 <= g -> 0 < l -> 0 <= 100 - 100 / (1 + g / l) <= 100.
Proof.
  intros Hg Hl.
  assert (Hrs : 0 <= g / l) by (apply Qle_shift_div_l; lra).
  assert (H1 : 0 <= 100 / (1 + g / l)) by (apply Qle_shift_div_l; lra).
  assert (H2 : 100 / (1 + g / l) <= 100) by (apply Qle_shift_div_r; lra).
  lra.
Qed.

(** The gain and loss columns of [TA.rsi]: a NaN cell, then cells that are
    NaN or not negative. *)
Lemma clip_lower_diff (close : Pd.Series) (s : Pd.Series) :
  s = Pd.clip_lower 0 (Pd.diff close) \/ s = Pd.clip_lower 0 (Pd.neg (Pd.diff close)) ->
  (close = [] /\ s = []) \/
  exists later, s = None :: later /\ length later = pred (length close) /\
                forall x, In (Some x) later -> 0 <= x.
Proof.
  assert (Hclip : forall l x, In (Some x) (Pd.clip_lower 0 l) -> 0 <= x).
  { intros l x. unfold Pd.clip_lower. rewrite in_map_iff. intros ([y|] & E & _); [|discriminate].
    cbn in E. injection E as <-. destruct (Py.ltb y 0) eqn:Ey; [lra|].
    now apply ltb_ge in Ey. }
  destruct close as [|c later]; [intros [->| ->]; now left|].
  intros [->| ->]; right.
  - exists (Pd.clip_lower 0 (zip_with Py.fsub later (c :: later))).
    split; [reflexivity|]. split; [|apply Hclip].
    unfold Pd.clip_lower. rewrite length_map, length_zip_with. cbn [length]. lia.
  - exists (Pd.clip_lower 0 (Pd.neg (zip_with Py.fsub later (c :: later)))).
    split; [reflexivity|]. split; [|apply Hclip].
    unfold Pd.clip_lower, Pd.neg. rewrite !length_map, length_zip_with. cbn [length]. lia.
Qed.

Section Rsi.

Variable close : Pd.Series.
Variable period : nat.
Hypothesis period_pos : (1 <= period)%nat.

Let alpha := 1 / inject_Z (Z.of_nat period).

Lemma rsi_alpha : 0 < alpha /\ alpha <= 1.
Proof.
  pose proof (inject_nat_ge1 period period_pos) as H. unfold alpha. split.
  - apply Qlt_shift_div_l; lra.
  - apply Qle_shift_div_r; lra.
Qed.

(** An average of gains or of losses: NaN for the first [period] rows, never
    negative. *)
Lemma rsi_average (s : Pd.Series) :
  s = Pd.clip_lower 0 (Pd.diff close) \/ s = Pd.clip_lower 0 (Pd.neg (Pd.diff close)) ->
  length (Pd.ewm_mean alpha period s) = length close /\
  forall i v, Pd.ewm_mean alpha period s !! i = Some (Some v) ->
              0 <= v /\ (period <= i)%nat.
Proof.
  intros Hs. destruct rsi_alpha as [Ha1 Ha2].
  destruct (clip_lower_diff close s Hs) as [[-> ->]|(later & -> & Hlen & Hpos)].
  - split; [reflexivity|]. intros i v. discriminate.
  - unfold Pd.ewm_mean. split.
    + rewrite ewm_from_length. cbn [length].
      destruct close; [destruct Hs as [Hs|Hs]; discriminate Hs|].
      apply (f_equal S), Hlen.
    + intros i v H. split.
      * assert (Hin : In (Some v)
                        (Pd.ewm_from alpha (Nat.max period 1) (Pd.mk_ewm None 1 0)
                           (None :: later))) by (apply In_lookup; eauto).
        revert Hin. apply (ewm_from_lower alpha Ha1 Ha2 0); cbn;
          [split; lra | discriminate |].
        intros x [Hx|Hx]; [discriminate | now apply Hpos].
      * cbn [Pd.ewm_from] in H. destruct i as [|i]; cbn [lookup list_lookup] in H.
        -- cbn in H. destruct (Nat.max period 1) eqn:E; [lia|]. cbn in H. discriminate.
        -- apply ewm_from_warmup in H. cbn in H. lia.
Qed.

(** On a close column without NaN the averages are defined from row
    [period] on. *)
Lemma rsi_average_defined (xs : list Q) (s : Pd.Series) (i : nat) :
  close = map Some xs ->
  s = Pd.clip_lower 0 (Pd.diff close) \/ s = Pd.clip_lower 0 (Pd.neg (Pd.diff close)) ->
  (period <= i < length xs)%nat ->
  exists v, Pd.ewm_mean alpha period s !! i = Some (Some v).
Proof.
  intros Hc Hs Hi. destruct xs as [|x later]; [cbn in Hi; lia|].
  assert (E : exists ys, s = None :: map Some ys /\ length ys = length later).
  { rewrite Hc, diff_values in Hs. destruct Hs as [->| ->].
    - exists (map (fun x => if Py.ltb x 0 then 0 else x) (zip_with Qminus later (x :: later))).
      split.
      + unfold Pd.clip_lower. cbn [map option_map]. f_equal. rewrite !List.map_map. reflexivity.
      + rewrite length_map, length_zip_with. cbn [length]. lia.
    - exists (map (fun x => if Py.ltb (- x) 0 then 0 else - x)
                  (zip_with Qminus later (x :: later))).
      split.
      + unfold Pd.clip_lower, Pd.neg. cbn [map option_map]. f_equal.
        rewrite !List.map_map. reflexivity.
      + rewrite length_map, length_zip_with. cbn [length]. lia. }
  destruct E as (ys & -> & Hlen). unfold Pd.ewm_mean. cbn [Pd.ewm_from].
  destruct i as [|i]; [lia|]. cbn [lookup list_lookup].
  apply ewm_from_defined; cbn in *; lia.
Qed.

(** A cell of [TA.rsi] that holds a value, from the two averages of its
    row. *)
Lemma rsi_cell (i : nat) (v : Q) :
  TA.rsi close period !! i = Some (Some v) ->
  exists g l,
    Pd.ewm_mean alpha period (Pd.clip_lower 0 (Pd.diff close)) !! i = Some (Some g) /\
    Pd.ewm_mean alpha period (Pd.clip_lower 0 (Pd.neg (Pd.diff close))) !! i
      = Some (Some l) /\
    v = 100 - 100 / (1 + g / (if Qeq_bool l 0 then 1 # 10000000000 else l)).
Proof.
  unfold TA.rsi. cbv zeta. fold alpha.
  set (avg_gain := Pd.ewm_mean alpha period (Pd.clip_lower 0 (Pd.diff close))).
  set (avg_loss := Pd.ewm_mean alpha period (Pd.clip_lower 0 (Pd.neg (Pd.diff close)))).
  rewrite map_lookup. intros H. apply option_map_Some in H. destruct H as (r & E & H).
  apply lookup_zip_with_Some in E. destruct E as (g & l' & -> & Eg & El).
  unfold Pd.replace in El. rewrite map_lookup in El.
  apply option_map_Some in El. destruct El as (l & El0 & ->).
  destruct g as [g|]; [|discriminate]. destruct l as [l|]; [|discriminate].
  exists g, l. split; [exact Eg|]. split; [exact El0|].
  cbn [option_map Pd.fdiv] in H.
  destruct (Qeq_bool (if Qeq_bool l 0 then 1 # 10000000000 else l) 0); [discriminate|].
  cbn [Pd.fadd Pd.fdiv] in H.
  destruct (Qeq_bool (1 + g / (if Qeq_bool l 0 then 1 # 10000000000 else l)) 0);
    [discriminate|].
  cbn in H. now injection H.
Qed.

(** On a close column without NaN every row from [period] on holds an
    RSI. *)
Lemma rsi_defined (xs : list Q) (i : nat) :
  close = map Some xs -> (period <= i < length xs)%nat ->
  exists v, TA.rsi close period !! i = Some (Some v).
Proof.
  destruct (rsi_average _ (or_introl eq_refl)) as [_ Hg].
  destruct (rsi_average _ (or_intror eq_refl)) as [_ Hl].
  unfold TA.rsi. cbv zeta. fold alpha.
  set (avg_gain := Pd.ewm_mean alpha period (Pd.clip_lower 0 (Pd.diff close))) in *.
  set (avg_loss := Pd.ewm_mean alpha period (Pd.clip_lower 0 (Pd.neg (Pd.diff close))))
    in *.
  intros Hc Hi.
  destruct (rsi_average_defined xs _ i Hc (or_introl eq_refl) Hi) as (g & Eg).
  destruct (rsi_average_defined xs _ i Hc (or_intror eq_refl) Hi) as (l & El).
  fold avg_gain in Eg. fold avg_loss in El.
  destruct (Hg i g Eg) as [Hg0 _]. destruct (Hl i l El) as [Hl0 _].
  rewrite map_lookup.
  assert (E : zip_with Pd.fdiv avg_gain (Pd.replace 0 (1 # 10000000000) avg_loss) !! i
              = Some (Pd.fdiv (Some g)
                        (Some (if Qeq_bool l 0 then 1 # 10000000000 else l)))).
  { apply lookup_zip_with_Some. do 2 eexists. split; [reflexivity|]. split; [exact Eg|].
    unfold Pd.replace. rewrite map_lookup.
    exact (f_equal (option_map (option_map
             (fun x => if Qeq_bool x 0 then 1 # 10000000000 else x))) El). }
  rewrite E. cbn [option_map Pd.fdiv].
  set (l' := if Qeq_bool l 0 then 1 # 10000000000 else l).
  assert (Hl' : 0 < l').
  { unfold l'. destruct (Qeq_bool l 0) eqn:El1; [reflexivity|].
    apply Qeq_bool_neq in El1. lra. }
  destruct (Qeq_bool l' 0) eqn:E0; [apply Qeq_bool_eq in E0; lra|].
  cbn [Pd.fadd Pd.fdiv].
  assert (Hrs : 0 <= g / l') by (apply Qle_shift_div_l; lra).
  destruct (Qeq_bool (1 + g / l') 0) eqn:E1; [apply Qeq_bool_eq in E1; lra|].
  cbn. eauto.
Qed.

(** X25.  [TA.rsi] for a period of at least 1: a cell that holds a value holds one
    between 0 and 100, the first [period] rows are NaN, and on a close
    column without NaN every later row holds a value. *)
Theorem rsi_range :
  length (TA.rsi close period) = length close /\
  (forall i v, TA.rsi close period !! i = Some (Some v) ->
     0 <= v <= 100 /\ (period <= i)%nat) /\
  (forall xs i, close = map Some xs -> (period <= i < length xs)%nat ->
     exists v, TA.rsi close period !! i = Some (Some v)).
Proof.
  destruct (rsi_average _ (or_introl eq_refl)) as [Lg Hg].
  destruct (rsi_average _ (or_intror eq_refl)) as [Ll Hl].
  split; [|split].
  - unfold TA.rsi. cbv zeta. fold alpha. unfold Py.float in *.
    rewrite length_map, length_zip_with. unfold Pd.replace. rewrite length_map. lia.
  - intros i v H. apply rsi_cell in H. destruct H as (g & l & Eg & El & ->).
    destruct (Hg i g Eg) as [Hg0 Hi]. destruct (Hl i l El) as [Hl0 _].
    split; [|exact Hi]. apply rsi_value; [exact Hg0|].
    destruct (Qeq_bool l 0) eqn:E; [reflexivity|]. apply Qeq_bool_neq in E. lra.
  - apply rsi_defined.
Qed.

End Rsi.


(** *** Rolling windows *)

Lemma values_Some (cells : list Py.float) (w : list Q) :
  Pd.values cells = Some w -> cells = map Some w.
Proof.
  revert w. induction cells as [|[x|] cells IH]; intros w; cbn [Pd.values].
  - now intros [= <-].
  - intros H. apply option_map_Some in H. destruct H as (w' & H & ->).
    cbn [map]. f_equal. now apply IH.
  - discriminate.
Qed.

Lemma values_map_Some (w : list Q) : Pd.values (map Some w) = Some w.
Proof. induction w as [|x w IH]; cbn; [reflexivity | now rewrite IH]. Qed.

(** A cell of a rolling column that holds a value: the window is full and
    free of NaN, it ends at the cell's row, and the value aggregates it. *)
Lemma rolling_cell (n : nat) (agg : list Q -> Q) (s : Pd.Series) (i : nat) (v : Q) :
  (1 <= n)%nat ->
  Pd.rolling n agg s !! i = Some (Some v) ->
  (n <= S i)%nat /\
  exists w, v = agg w /\ length w = n /\
            (exists x, s !! i = Some (Some x) /\ In x w) /\
            (forall x, In x w -> In (Some x) s).
Proof.
  intros Hn H. unfold Pd.rolling in H. apply list_lookup_imap_Some in H.
  destruct H as (c & Hc & H).
  destruct (Nat.leb_spec n (S i)) as [Hle|]; [|discriminate]. split; [exact Hle|].
  symmetry in H. apply option_map_Some in H. destruct H as (w & Hw & ->).
  apply values_Some in Hw. exists w. split; [reflexivity|].
  assert (Hi : (i < length s)%nat) by (apply lookup_lt_is_Some; eauto).
  assert (Hlen : length w = n).
  { apply (f_equal (@length _)) in Hw.
    rewrite length_take, length_drop, length_map in Hw. lia. }
  assert (Hlook : forall j x, w !! j = Some x -> s !! (S i - n + j)%nat = Some (Some x)).
  { intros j x Hj.
    assert (Hj' : map Some w !! j = Some (Some x)) by (rewrite map_lookup, Hj; reflexivity).
    rewrite <- Hw in Hj'. apply lookup_take_Some in Hj'. destruct Hj' as [Hj' _].
    now rewrite lookup_drop in Hj'. }
  split; [exact Hlen|]. split.
  - destruct (lookup_lt_is_Some_2 w (n - 1)) as (x & Hx); [lia|].
    exists x. split; [|apply In_lookup; eauto].
    apply Hlook in Hx. now replace (S i - n + (n - 1))%nat with i in Hx by lia.
  - intros x Hx. apply In_lookup in Hx. destruct Hx as (j & Hj).
    apply In_lookup. eauto.
Qed.

(** The first [n - 1] rows of a rolling column are NaN. *)
Lemma rolling_warmup (n : nat) (agg : list Q -> Q) (s : Pd.Series) (i : nat) :
  (S i < n)%nat -> (i < length s)%nat -> Pd.rolling n agg s !! i = Some None.
Proof.
  intros Hi Hl. unfold Pd.rolling. apply list_lookup_imap_Some.
  destruct (lookup_lt_is_Some_2 s i Hl) as (c & Hc). exists c. split; [exact Hc|].
  destruct (Nat.leb_spec n (S i)); [lia | reflexivity].
Qed.

(** On a column without NaN every later row of a rolling column holds the
    aggregate of its window. *)
Lemma rolling_defined (n : nat) (agg : list Q -> Q) (xs : list Q) (i : nat) :
  (n <= S i)%nat -> (i < length xs)%nat ->
  Pd.rolling n agg (map Some xs) !! i
  = Some (Some (agg (take n (drop (S i - n) xs)))).
Proof.
  intros Hn Hi. unfold Pd.rolling. apply list_lookup_imap_Some.
  destruct (lookup_lt_is_Some_2 (map Some xs) i) as (c & Hc); [now rewrite length_map|].
  exists c. split; [exact Hc|].
  destruct (Nat.leb_spec n (S i)); [|lia].
  rewrite List.skipn_map, List.firstn_map, values_map_Some. reflexivity.
Qed.

Lemma sum_bounds (w : list Q) (lo hi : Q) :
  (forall x, In x w -> lo <= x <= hi) ->
  inject_Z (Z.of_nat (length w)) * lo <= Pd.sum w
  /\ Pd.sum w <= inject_Z (Z.of_nat (length w)) * hi.
Proof.
  induction w as [|x w IH]; intros H.
  - unfold Pd.sum. cbn. change (inject_Z (Z.of_nat 0)) with 0. split; lra.
  - destruct IH as [IH1 IH2]; [intros y Hy; apply H; now right|].
    destruct (H x (or_introl eq_refl)) as [Hx1 Hx2].
    cbn [length Pd.sum fold_right]. fold (Pd.sum w).
    rewrite Nat2Z.inj_succ. unfold Z.succ. rewrite inject_Z_plus.
    change (inject_Z 1) with 1. split; lra.
Qed.

Lemma mean_bounds (w : list Q) (lo hi : Q) :
  (1 <= length w)%nat ->
  (forall x, In x w -> lo <= x <= hi) ->
  lo <= Pd.mean w <= hi.
Proof.
  intros Hn H. destruct (sum_bounds w lo hi H) as [H1 H2].
  pose proof (inject_nat_ge1 (length w) Hn) as Hl. unfold Pd.mean. split.
  - apply Qle_shift_div_l; lra.
  - apply Qle_shift_div_r; lra.
Qed.

Lemma minimum_le (w : list Q) (x : Q) : In x w -> Pd.minimum w <= x.
Proof.
  assert (G : forall rest a,
             fold_left (fun a y => if Py.ltb y a then y else a) rest a <= a /\
             forall y, In y rest ->
                       fold_left (fun a y => if Py.ltb y a then y else a) rest a <= y).
  { induction rest as [|y rest IH]; intros a; cbn [fold_left].
    - split; [lra | intros y []].
    - destruct (IH (if Py.ltb y a then y else a)) as [H1 H2].
      destruct (Py.ltb y a) eqn:E.
      + apply ltb_lt in E. split; [lra|]. intros z [<-|Hz]; [exact H1 | now apply H2].
      + apply ltb_ge in E. split; [exact H1|]. intros z [<-|Hz]; [lra | now apply H2]. }
  destruct w as [|a rest]; [intros []|]. cbn [Pd.minimum].
  destruct (G rest a) as [H1 H2]. intros [<-|H]; [exact H1 | now apply H2].
Qed.

Lemma maximum_ge (w : list Q) (x : Q) : In x w -> x <= Pd.maximum w.
Proof.
  assert (G : forall rest a,
             a <= fold_left (fun a y => if Py.ltb a y then y else a) rest a /\
             forall y, In y rest ->
                       y <= fold_left (fun a y => if Py.ltb a y then y else a) rest a).
  { induction rest as [|y rest IH]; intros a; cbn [fold_left].
    - split; [lra | intros y []].
    - destruct (IH (if Py.ltb a y then y else a)) as [H1 H2].
      destruct (Py.ltb a y) eqn:E.
      + apply ltb_lt in E. split; [lra|]. intros z [<-|Hz]; [exact H1 | now apply H2].
      + apply ltb_ge in E. split; [exact H1|]. intros z [<-|Hz]; [lra | now apply H2]. }
  destruct w as [|a rest]; [intros []|]. cbn [Pd.maximum].
  destruct (G rest a) as [H1 H2]. intros [<-|H]; [exact H1 | now apply H2].
Qed.

Lemma span_alpha (span : nat) :
  (1 <= span)%nat -> 0 < Pd.alpha_of_span span /\ Pd.alpha_of_span span <= 1.
Proof.
  intros H. pose proof (inject_nat_ge1 span H) as Hs. unfold Pd.alpha_of_span. split.
  - apply Qlt_shift_div_l; lra.
  - apply Qle_shift_div_r; lra.
Qed.

(** X26.  [TA.sma] and [TA.ema] for a period of at least 1: both columns are as
    long as the close column, a moving average that holds a value lies
    between any two bounds of the closes, and the simple one is NaN on the
    first [period - 1] rows. *)
Theorem moving_averages_bounded (close : Pd.Series) (period : nat) (lo hi : Q) :
  (1 <= period)%nat ->
  (forall x, In (Some x) close -> lo <= x <= hi) ->
  (length (TA.sma close period) = length close /\
   length (TA.ema close period) = length close) /\
  (forall v, In (Some v) (TA.sma close period) -> lo <= v <= hi) /\
  (forall v, In (Some v) (TA.ema close period) -> lo <= v <= hi) /\
  (forall i v, TA.sma close period !! i = Some (Some v) -> (period <= S i)%nat).
Proof.
  intros Hp Hc. split; [split|split; [|split]].
  - unfold TA.sma, Pd.rolling. apply length_imap.
  - unfold TA.ema, Pd.ewm_mean. apply ewm_from_length.
  - intros v Hv. apply In_lookup in Hv. destruct Hv as (i & Hv).
    destruct (rolling_cell _ _ _ _ _ Hp Hv) as (_ & w & -> & Hlen & _ & Hin).
    apply mean_bounds; [lia|]. intros x Hx. apply Hc. now apply Hin.
  - destruct (span_alpha period Hp) as [Ha1 Ha2].
    apply (ewm_mean_bounds _ Ha1 Ha2 lo hi 0 close Hc).
  - intros i v Hv. now destruct (rolling_cell _ _ _ _ _ Hp Hv) as (H & _).
Qed.

(** X27.  [TA.stochastic] for [k] of at least 1, on bars whose close lies
    between their low and their high: a [%K] that holds a value is not
    negative and not above 100.000001, and the first [k - 1] rows are NaN.
    With exact arithmetic, as in the model, [%K] is at most 100; the bound
    stated leaves room for the rounding of the float arithmetic, which can
    take the quotient of two nearly equal numbers a few units in the last
    place above 100. *)
Theorem stochastic_range (df : list Bar) (k d : nat) :
  (1 <= k)%nat ->
  (forall b l c h, In b df -> Low b = Some l -> Close b = Some c -> High b = Some h ->
                   l <= c <= h) ->
  length (fst (TA.stochastic df k d)) = length df /\
  length (snd (TA.stochastic df k d)) = length df /\
  (forall i v, fst (TA.stochastic df k d) !! i = Some (Some v) ->
     0 <= v <= 100.000001 /\ (k <= S i)%nat).
Proof.
  intros Hk Hbars. unfold TA.stochastic. cbv zeta. cbn [fst snd].
  set (low_k := Pd.rolling k Pd.minimum (map Low df)).
  set (high_k := Pd.rolling k Pd.maximum (map High df)).
  assert (Ll : length low_k = length df).
  { unfold low_k, Pd.rolling. now rewrite length_imap, length_map. }
  assert (Lh : length high_k = length df).
  { unfold high_k, Pd.rolling. now rewrite length_imap, length_map. }
  assert (Lk : length (zip_with Pd.fdiv
                         (map (Py.fmul (Some 100)) (zip_with Py.fsub (map Close df) low_k))
                         (Pd.replace 0 (1 # 10000000000) (zip_with Py.fsub high_k low_k)))
               = length df).
  { unfold Pd.replace. rewrite length_zip_with, !length_map, !length_zip_with, length_map.
    unfold Py.float in *. lia. }
  split; [exact Lk|]. split.
  { unfold Pd.rolling at 1. rewrite length_imap. exact Lk. }
  intros i v H.
  apply lookup_zip_with_Some in H. destruct H as (num & den & Hv & Hnum & Hden).
  rewrite map_lookup in Hnum. apply option_map_Some in Hnum.
  destruct Hnum as (cl & Hnum & ->).
  apply lookup_zip_with_Some in Hnum. destruct Hnum as (c & lk & -> & Hc & Hlk).
  unfold Pd.replace in Hden. rewrite map_lookup in Hden. apply option_map_Some in Hden.
  destruct Hden as (hl & Hden & ->).
  apply lookup_zip_with_Some in Hden. destruct Hden as (hk & lk' & -> & Hhk & Hlk').
  assert (lk' = lk) by congruence. subst lk'.
  rewrite map_lookup in Hc. apply option_map_Some in Hc. destruct Hc as (b & Hb & ->).
  destruct (Close b) as [c|] eqn:Ec, lk as [lo|], hk as [hi|]; try discriminate.
  destruct (rolling_cell _ _ _ _ _ Hk Hlk) as (Hi & wl & -> & _ & (l & Hl & Hlw) & _).
  destruct (rolling_cell _ _ _ _ _ Hk Hhk) as (_ & wh & -> & _ & (h & Hh & Hhw) & _).
  rewrite map_lookup, Hb in Hl, Hh. cbn in Hl, Hh.
  injection Hl as Hl. injection Hh as Hh.
  assert (Hin : In b df) by (apply In_lookup; eauto).
  destruct (Hbars b l c h Hin Hl Ec Hh) as [Hlc Hch].
  pose proof (minimum_le wl l Hlw) as Hmin. pose proof (maximum_ge wh h Hhw) as Hmax.
  split; [|exact Hi].
  cbn [Py.fsub Py.fmul option_map Pd.fdiv] in Hv.
  set (lo := Pd.minimum wl) in *. set (hi := Pd.maximum wh) in *.
  destruct (Qeq_bool (hi - lo) 0) eqn:E.
  - apply Qeq_bool_eq in E.
    destruct (Qeq_bool (1 # 10000000000) 0) eqn:E1; [discriminate|].
    injection Hv as ->.
    assert (Hz : 100 * (c - lo) == 0) by lra.
    rewrite Hz. unfold Qdiv. rewrite Qmult_0_l. lra.
  - rewrite E in Hv. injection Hv as ->.
    apply Qeq_bool_neq in E.
    assert (H100 : 100 * (c - lo) / (hi - lo) <= 100) by (apply Qle_shift_div_r; lra).
    split; [apply Qle_shift_div_l; lra | lra].
Qed.


(** *** Flat prices *)

Lemma ewm_from_flat (alpha x : Q) (minp n : nat) (st : Pd.ewm_state) :
  Pd.weighted st = None \/ Pd.weighted st = Some x ->
  (minp <= S (Pd.nobs st))%nat ->
  Pd.ewm_from alpha minp st (repeat (Some x) n) = repeat (Some x) n.
Proof.
  revert st. induction n as [|n IH]; intros st Hw Hm; [reflexivity|].
  cbn [repeat Pd.ewm_from].
  assert (E : Pd.ewm_step alpha st (Some x)
              = Pd.mk_ewm (Some x) (match Pd.weighted st with Some _ => 1 | None => Pd.old_wt st end)
                  (Pd.nobs st + 1)).
  { unfold Pd.ewm_step. destruct Hw as [->| ->]; [reflexivity|].
    now rewrite Qeq_bool_refl. }
  rewrite E. cbn [Pd.nobs Pd.weighted].
  destruct (Nat.leb_spec minp (Pd.nobs st + 1)); [|lia].
  f_equal. apply IH; cbn; [now right | lia].
Qed.

Lemma ewm_mean_flat (alpha x : Q) (n : nat) :
  Pd.ewm_mean alpha 0 (repeat (Some x) n) = repeat (Some x) n.
Proof. unfold Pd.ewm_mean. apply ewm_from_flat; cbn; [now left | lia]. Qed.

Lemma zip_with_repeat {A B C} (f : A -> B -> C) (a : A) (b : B) (n : nat) :
  zip_with f (repeat a n) (repeat b n) = repeat (f a b) n.
Proof. induction n as [|n IH]; cbn; [reflexivity | now rewrite IH]. Qed.

Lemma diff_In (s : Pd.Series) (d : Q) :
  In (Some d) (Pd.diff s) ->
  exists a b, In (Some a) s /\ In (Some b) s /\ d = a - b.
Proof.
  destruct s as [|c later]; [intros []|]. cbn [Pd.diff]. intros [H|H]; [discriminate|].
  apply In_lookup in H. destruct H as (i & H).
  apply lookup_zip_with_Some in H. destruct H as (x & y & E & Hx & Hy).
  destruct x as [a|], y as [b|]; try discriminate. injection E as ->.
  exists a, b. split; [right; apply In_lookup; eauto|].
  split; [apply In_lookup; eauto | reflexivity].
Qed.

(** On a flat close column the gains and the losses are zero. *)
Lemma flat_gain_loss (c : Q) (n : nat) (s : Pd.Series) (x : Q) :
  s = Pd.clip_lower 0 (Pd.diff (repeat (Some c) n)) \/
  s = Pd.clip_lower 0 (Pd.neg (Pd.diff (repeat (Some c) n))) ->
  In (Some x) s -> 0 <= x <= 0.
Proof.
  assert (D : forall d, In (Some d) (Pd.diff (repeat (Some c) n)) -> d == 0).
  { intros d Hd. apply diff_In in Hd. destruct Hd as (a & b & Ha & Hb & ->).
    apply repeat_spec in Ha, Hb. injection Ha as ->. injection Hb as ->. ring. }
  intros [->| ->]; unfold Pd.clip_lower, Pd.neg; rewrite ?List.map_map, in_map_iff;
    intros ([d|] & E & Hd); try discriminate; cbn in E; injection E as <-;
    apply D in Hd.
  - destruct (Py.ltb d 0); lra.
  - destruct (Py.ltb (- d) 0); lra.
Qed.

(** X28.  On a flat close column, [n] rows at the price [c], for periods and
    spans of at least 1: the exponential average is [c] on every row, the
    MACD line, its signal line and the histogram are zero on every row, the
    simple average is [c] from row [period - 1] on, and the RSI is 0 from
    row [period] on. *)
Theorem flat_series_indicators (c : Q) (n period fast slow signal : nat) :
  let close := repeat (Some c) n in
  ((1 <= period)%nat -> TA.ema close period = close) /\
  ((1 <= fast)%nat -> (1 <= slow)%nat -> (1 <= signal)%nat ->
   TA.macd close fast slow signal
   = (repeat (Some (c - c)) n, repeat (Some (c - c)) n,
      repeat (Some (c - c - (c - c))) n)) /\
  (forall i, (1 <= period <= S i)%nat -> (i < n)%nat ->
     exists v, TA.sma close period !! i = Some (Some v) /\ v == c) /\
  (forall i, (1 <= period <= i)%nat -> (i < n)%nat ->
     exists v, TA.rsi close period !! i = Some (Some v) /\ v == 0).
Proof.
  intros close. unfold close.
  assert (Hmap : repeat (Some c) n = map Some (repeat c n)) by (now rewrite map_repeat).
  split; [intros _; apply ewm_mean_flat|]. split; [|split].
  - intros _ _ _. unfold TA.macd. cbv zeta.
    rewrite !ewm_mean_flat, !zip_with_repeat. cbn [Py.fsub].
    rewrite !ewm_mean_flat, !zip_with_repeat. reflexivity.
  - intros i [Hp Hi] Hn. unfold TA.sma. rewrite Hmap.
    rewrite rolling_defined by (rewrite ?repeat_length; lia).
    eexists. split; [reflexivity|].
    assert (Hb : c <= Pd.mean (take period (drop (S i - period) (repeat c n))) <= c).
    { apply mean_bounds.
      - rewrite length_take, length_drop, repeat_length. lia.
      - intros x Hx. apply In_lookup in Hx. destruct Hx as (j & Hj).
        apply lookup_take_Some in Hj. destruct Hj as [Hj _]. rewrite lookup_drop in Hj.
        assert (Hin : In x (repeat c n)) by (apply In_lookup; eauto).
        apply repeat_spec in Hin. subst x. lra. }
    lra.
  - intros i [Hp Hi] Hn.
    destruct (rsi_defined (repeat (Some c) n) period Hp (repeat c n) i Hmap) as (v & Hv);
      [rewrite repeat_length; lia|].
    exists v. split; [exact Hv|].
    apply rsi_cell in Hv. destruct Hv as (g & l & Eg & El & ->).
    assert (Ha : 0 < 1 / inject_Z (Z.of_nat period) /\ 1 / inject_Z (Z.of_nat period) <= 1)
      by (now apply rsi_alpha).
    destruct Ha as [Ha1 Ha2].
    assert (Hg : 0 <= g <= 0).
    { apply (ewm_mean_bounds _ Ha1 Ha2 0 0 period
               (Pd.clip_lower 0 (Pd.diff (repeat (Some c) n)))).
      - intros x. apply (flat_gain_loss c n). now left.
      - apply In_lookup. eauto. }
    assert (Hl : 0 <= l <= 0).
    { apply (ewm_mean_bounds _ Ha1 Ha2 0 0 period
               (Pd.clip_lower 0 (Pd.neg (Pd.diff (repeat (Some c) n))))).
      - intros x. apply (flat_gain_loss c n). now right.
      - apply In_lookup. eauto. }
    assert (El0 : Qeq_bool l 0 = true) by (apply Qeq_bool_iff; lra).
    rewrite El0. assert (Hg0 : g == 0) by lra. rewrite Hg0.
    unfold Qdiv at 2. rewrite Qmult_0_l. field.
Qed.

End IndicatorFacts.

(** Five closes and a period of 2: the RSI of the fourth row is a value
    between 0 and 100. *)
Lemma rsi_range_witness :
  let close := map Some [10; 11; 12; 11; 13] in
  length (TA.rsi close 2) = 5%nat /\
  exists v, TA.rsi close 2 !! 3%nat = Some (Some v) /\ 0 <= v <= 100.
Proof.
  intros close.
  destruct (rsi_range close 2 ltac:(lia)) as (Hlen & Hrange & Hdef).
  split; [exact Hlen|].
  destruct (Hdef [10; 11; 12; 11; 13] 3%nat eq_refl ltac:(cbn; lia)) as (v & Hv).
  exists v. split; [exact Hv|]. exact (proj1 (Hrange 3%nat v Hv)).
Defined.

(** Closes between 10 and 12 with a NaN among them: the exponential average
    of the last row. *)
Lemma moving_averages_bounded_witness :
  let close := [Some 10; None; Some 12; Some 11] in
  exists v, TA.ema close 2 !! 3%nat = Some (Some v) /\ 10 <= v <= 12.
Proof.
  intros close.
  destruct (moving_averages_bounded close 2 10 12) as (_ & _ & He & _).
  - lia.
  - intros x [H|[H|[H|[H|[]]]]]; try discriminate; injection H as <-; lra.
  - eexists. split; [vm_compute; reflexivity|].
    apply He. do 3 right. left. vm_compute. reflexivity.
Defined.

(** Three bars and [k = 2]: the [%K] of the second row. *)
Lemma stochastic_range_witness :
  let df := [mkBar (Some 10) (Some 12) (Some 9) (Some 11) (Some 100);
             mkBar (Some 11) (Some 13) (Some 10) (Some 12) (Some 150);
             mkBar (Some 12) (Some 12.5) (Some 11) (Some 11.5) (Some 120)] in
  exists v, fst (TA.stochastic df 2 3) !! 1%nat = Some (Some v) /\ 0 <= v <= 100.000001.
Proof.
  intros df.
  destruct (stochastic_range df 2 3) as (_ & _ & Hr).
  - lia.
  - intros b l c h [<-|[<-|[<-|[]]]] [= <-] [= <-] [= <-]; lra.
  - eexists. split; [vm_compute; reflexivity|].
    apply (Hr 1%nat). vm_compute. reflexivity.
Defined.

(** *** VWAP *)

Section VwapFacts.

Lemma zip_with_map {A B C D} (f : B -> C -> D) (g : A -> B) (h : A -> C) (l : list A) :
  zip_with f (map g l) (map h l) = map (fun x => f (g x) (h x)) l.
Proof. induction l as [|x l IH]; cbn; [reflexivity | now rewrite IH]. Qed.

Lemma cumsum_from_length (s : Pd.Series) (a : Q) :
  length (Pd.cumsum_from a s) = length s.
Proof. revert a. induction s as [|[x|] s IHs]; intros a; cbn; auto. Qed.

Variables lo hi : Q.

(** The running quotient of [TA.vwap] from a traded value [a] and a traded
    volume [b]. *)
Lemma vwap_from (df : list Bar) (a b : Q) (i : nat) :
  (forall r, In r df ->
     exists h l c v, High r = Some h /\ Low r = Some l /\ Close r = Some c /\
                     Volume r = Some v /\ 0 <= v /\ lo <= (h + l + c) / 3 <= hi) ->
  0 <= b -> lo * b <= a -> a <= hi * b ->
  (i < length df)%nat ->
  exists x,
    zip_with Pd.fdiv
      (Pd.cumsum_from a
         (map (fun r => Py.fmul (Pd.fdiv (Pd.fadd (Pd.fadd (High r) (Low r)) (Close r))
                                   (Some 3)) (Volume r)) df))
      (Pd.replace 0 (1 # 10000000000) (Pd.cumsum_from b (map Volume df))) !! i
    = Some (Some x) /\
    (0 < b \/ (exists j r v, (j <= i)%nat /\ df !! j = Some r /\ Volume r = Some v /\ 0 < v) ->
     lo <= x <= hi) /\
    (b == 0 ->
     (forall j r v, (j <= i)%nat -> df !! j = Some r -> Volume r = Some v -> v == 0) ->
     x == 0).
Proof.
  revert a b i. induction df as [|r df IH]; intros a b i Hdf Hb Hlo Hhi Hi; [cbn in Hi; lia|].
  destruct (Hdf r (or_introl eq_refl)) as (h & l & c & v & Hh & Hl & Hc & Hv & Hv0 & Htp).
  cbn [map]. rewrite Hh, Hl, Hc, Hv. cbn [Pd.fadd Pd.fdiv].
  change (Qeq_bool 3 0) with false. cbn [Py.fmul Pd.cumsum_from].
  set (tp := (h + l + c) / 3) in *.
  assert (H1 : lo * v <= tp * v) by (apply Qmult_le_compat_r; lra).
  assert (H2 : tp * v <= hi * v) by (apply Qmult_le_compat_r; lra).
  destruct i as [|i].
  - cbn [Pd.replace map option_map zip_with lookup list_lookup].
    destruct (Qeq_bool (b + v) 0) eqn:E.
    + apply Qeq_bool_eq in E.
      change (Qeq_bool (1 # 10000000000) 0) with false. cbn [Pd.fdiv].
      eexists. split; [reflexivity|].
      assert (Hz : a + tp * v == 0) by nra.
      split.
      * intros [Hpos|(j & r' & v' & Hj & Hr & Hv' & Hpos)]; [lra|].
        assert (j = 0%nat) by lia. subst j. cbn in Hr. injection Hr as <-.
        rewrite Hv in Hv'. injection Hv' as <-. lra.
      * intros _ _. rewrite Hz. unfold Qdiv. apply Qmult_0_l.
    + cbn [Pd.fdiv]. rewrite E. eexists. split; [reflexivity|].
      apply Qeq_bool_neq in E.
      assert (Hb' : 0 < b + v) by lra.
      split.
      * intros _. split; [apply Qle_shift_div_l | apply Qle_shift_div_r]; lra.
      * intros Hb0 Hzero. specialize (Hzero 0%nat r v (Nat.le_refl 0) eq_refl Hv). lra.
  - cbn [Pd.replace map zip_with lookup list_lookup].
    destruct (IH (a + tp * v) (b + v) i) as (x & Hx & Himp & Hzero);
      [intros r' Hr'; apply Hdf; now right | lra | lra | lra | cbn in Hi; lia |].
    exists x. split; [exact Hx|]. split.
    + intros [Hpos|(j & r' & v' & Hj & Hr & Hv' & Hpos)]; apply Himp.
      * left. lra.
      * destruct j as [|j].
        -- cbn in Hr. injection Hr as <-. rewrite Hv in Hv'. injection Hv' as <-.
           left. lra.
        -- right. exists j, r', v'. cbn in Hr.
           repeat split; [lia | exact Hr | exact Hv' | exact Hpos].
    + intros Hb0 Hz. apply Hzero.
      * specialize (Hz 0%nat r v (Nat.le_0_l _) eq_refl Hv). lra.
      * intros j r' v' Hj Hr Hv'. apply (Hz (S j) r' v'); [lia | exact Hr | exact Hv'].
Qed.

(** X29.  [TA.vwap] on bars without NaN, with volumes that are not negative
    and typical prices [(High + Low + Close) / 3] between [lo] and [hi],
    [lo] not negative: every row holds a value; once a bar with a positive
    volume has been seen it lies between [lo] and [hi] to within one part in
    a million; before, it is 0 (zero over the replaced zero volume).  With
    exact arithmetic, as in the model, the value lies between [lo] and [hi];
    the bounds stated leave room for the rounding of the float sums and of
    the division, which can take the quotient a few units in the last place
    outside the range of the prices. *)
Theorem vwap_range (df : list Bar) :
  0 <= lo ->
  (forall r, In r df ->
     exists h l c v, High r = Some h /\ Low r = Some l /\ Close r = Some c /\
                     Volume r = Some v /\ 0 <= v /\ lo <= (h + l + c) / 3 <= hi) ->
  length (TA.vwap df) = length df /\
  forall i, (i < length df)%nat ->
    exists x, TA.vwap df !! i = Some (Some x) /\
      ((exists j r v, (j <= i)%nat /\ df !! j = Some r /\ Volume r = Some v /\ 0 < v) ->
       lo * 0.999999 <= x <= hi * 1.000001) /\
      ((forall j r v, (j <= i)%nat -> df !! j = Some r -> Volume r = Some v -> v == 0) ->
       x == 0).
Proof.
  intros Hlo0 Hdf.
  assert (E : TA.vwap df
              = zip_with Pd.fdiv
                  (Pd.cumsum_from 0
                     (map (fun r => Py.fmul (Pd.fdiv (Pd.fadd (Pd.fadd (High r) (Low r))
                                                        (Close r)) (Some 3)) (Volume r)) df))
                  (Pd.replace 0 (1 # 10000000000) (Pd.cumsum_from 0 (map Volume df)))).
  { unfold TA.vwap, Pd.cumsum. cbv zeta.
    now rewrite !zip_with_map, List.map_map, zip_with_map. }
  split.
  - rewrite E. unfold Pd.replace.
    rewrite length_zip_with, length_map, !cumsum_from_length, !length_map. lia.
  - intros i Hi. rewrite E.
    destruct (vwap_from df 0 0 i Hdf) as (x & Hx & Himp & Hzero); try lra; [exact Hi|].
    exists x. split; [exact Hx|]. split.
    + intros H. destruct Himp as [H1 H2]; [now right|]. split; lra.
    + apply Hzero. reflexivity.
Qed.

End VwapFacts.

(** Three bars, the first without volume: the VWAP of the last row lies
    between 10 and 13, to within one part in a million. *)
Lemma vwap_range_witness :
  let df := [mkBar (Some 10) (Some 12) (Some 9) (Some 11) (Some 0);
             mkBar (Some 11) (Some 13) (Some 10) (Some 12) (Some 150);
             mkBar (Some 12) (Some 12.5) (Some 11) (Some 11.5) (Some 120)] in
  exists x, TA.vwap df !! 2%nat = Some (Some x) /\
            10 * 0.999999 <= x <= 13 * 1.000001.
Proof.
  intros df.
  destruct (vwap_range 10 13 df) as (_ & H).
  - lra.
  - intros r [<-|[<-|[<-|[]]]]; do 4 eexists;
      (split; [reflexivity|]); (split; [reflexivity|]); (split; [reflexivity|]);
      (split; [reflexivity|]); (split; [lra|]); split; vm_compute; discriminate.
  - destruct (H 2%nat ltac:(cbn; lia)) as (x & Hx & Hb & _).
    exists x. split; [exact Hx|]. apply Hb.
    exists 1%nat. do 2 eexists. split; [lia|]. split; [reflexivity|].
    split; [reflexivity | lra].
Defined.
